(** * alchemy-webhook: the deduplication cache and the two transfer normalizers

    A shallow embedding of
      - cache/memory.go, cache/noop.go, cache/interface.go  (module [cache]),
      - eth/processor.go   ([ProcessActivity] and its validators, module [eth]),
      - solana/processor.go ([ProcessTransaction], module [solana]),
    with the properties the specification states about them, and of
      - eth/backfill.go and solana/backfill.go (modules [eth_backfill] and
        [solana_backfill]),
      - verifier.go, handler.go and the retry loop of webhook.go (module
        [alchemywebhook]), client.go (modules [client] and [lifecycle]),
      - config.go, cache_helper.go and cache/factory.go (module [config]),
    with further properties of that code.  Line numbers in the comments on
    [ProcessActivity] are those of eth/backfill.go, the file that carries
    the processor after the backfill code.

    Conventions of the embedding.
      - [time.Time] and [time.Duration] are integers (nanoseconds) in [Z].
      - Go strings are byte strings ([string] of the Standard Library);
        [strings.ToLower] is modelled on ASCII letters.  No non-ASCII rune
        lowers to a hexadecimal digit, so every validator below accepts and
        rejects the same inputs as the Go code.
      - What the Go runtime supplies to a call, and the code cannot control, is
        an explicit argument: the clock reading and the iteration order of a
        [range] over a map ([Runtime]).
      - The mutex of the in-process cache serialises its operations: each
        operation is one atomic step on the cache value. *)

From Stdlib Require Import ZArith Ascii String.
From stdpp Require Import gmap strings list fin_maps pretty.

Set Warnings "-clear-no-such-hyp".
Local Open Scope Z_scope.

(** ** Errors and results *)

(** A Go [error] value; [nil] is [None] of [option error]. *)
Inductive error : Type :=
| ErrMsg (msg : string)                 (* fmt.Errorf / errors.New *)
| ErrWrap (msg : string) (cause : error) (* fmt.Errorf("msg: %w", cause) *).

Fixpoint Unwrap_root (e : error) : error :=
  match e with
  | ErrMsg _ => e
  | ErrWrap _ c => Unwrap_root c
  end.

(** ** What the runtime supplies to one call *)

Abbreviation Time := Z (only parsing).
Abbreviation Duration := Z (only parsing).

Record Runtime : Type := {
  now : Time;                                           (* time.Now() *)
  rangeOrder : gmap string Time → list (string * Time)  (* for k, v := range m *)
}.

(** A [range] visits every entry of the map exactly once, in an order the
    language leaves open. *)
Definition rangeOrder_ok (rt : Runtime) : Prop :=
  ∀ m, rangeOrder rt m ≡ₚ map_to_list m.

(** A runtime whose clock reads [t] and whose [range] follows the order of
    [map_to_list]. *)
Definition rt_at (t : Z) : Runtime := {| now := t; rangeOrder := map_to_list |}.

(** t.After(u) *)
Definition After (t u : Time) : bool := u <? t.

Definition Hour : Duration := 3600 * 1000000000.

(** ** cache/interface.go *)

Class Cache (C : Type) : Type := {
  IsProcessed : Runtime → C → string → C * (bool * option error);
  MarkProcessed : Runtime → C → string → Duration → C * option error
}.

Module cache.

(** *** cache/memory.go *)

Record MemoryCache : Type := {
  entries : gmap string Time;
  maxSize : Z;
  enableLRU : bool;
  accessOrder : list string
}.

Definition NewMemoryCache (maxSize : Z) (enableLRU : bool) : MemoryCache :=
  {| entries := ∅; maxSize := maxSize; enableLRU := enableLRU; accessOrder := [] |}.

(** len(c.entries) *)
Definition len_entries (c : MemoryCache) : Z := Z.of_nat (size (entries c)).

Fixpoint removeFromAccessOrder (txHash : string) (order : list string) : list string :=
  match order with
  | [] => []
  | key :: rest =>
      if bool_decide (key = txHash) then rest
      else key :: removeFromAccessOrder txHash rest
  end.

Definition updateAccessOrder (txHash : string) (order : list string) : list string :=
  removeFromAccessOrder txHash order ++ [txHash].

Definition with_entries (c : MemoryCache) (e : gmap string Time) (o : list string) : MemoryCache :=
  {| entries := e; maxSize := maxSize c; enableLRU := enableLRU c; accessOrder := o |}.

Definition MemoryCache_IsProcessed (rt : Runtime) (c : MemoryCache) (txHash : string)
  : MemoryCache * (bool * option error) :=
  match entries c !! txHash with
  | None => (c, (false, None))
  | Some expiresAt =>
      if After (now rt) expiresAt then
        (with_entries c (delete txHash (entries c))
           (if enableLRU c then removeFromAccessOrder txHash (accessOrder c)
            else accessOrder c),
         (false, None))
      else
        (with_entries c (entries c)
           (if enableLRU c then updateAccessOrder txHash (accessOrder c)
            else accessOrder c),
         (true, None))
  end.

(** The non-LRU eviction: the first expired entry the [range] meets, and when
    it meets none, the first entry of a second [range]. *)
Definition evictAny (rt : Runtime) (e : gmap string Time) : gmap string Time :=
  match List.find (λ kv, After (now rt) kv.2) (rangeOrder rt e) with
  | Some (key, _) => delete key e
  | None =>
      if 0 <? Z.of_nat (size e) then
        match rangeOrder rt e with
        | (key, _) :: _ => delete key e
        | [] => e
        end
      else e
  end.

Definition evict (rt : Runtime) (c : MemoryCache) : MemoryCache :=
  if maxSize c <=? len_entries c then
    if enableLRU c then
      match accessOrder c with
      | oldest :: rest => with_entries c (delete oldest (entries c)) rest
      | [] => c
      end
    else with_entries c (evictAny rt (entries c)) (accessOrder c)
  else c.

Definition MemoryCache_MarkProcessed (rt : Runtime) (c : MemoryCache) (txHash : string)
  (ttl : Duration) : MemoryCache * option error :=
  let c1 := evict rt c in
  let expiresAt := now rt + ttl in
  (with_entries c1 (<[txHash := expiresAt]> (entries c1))
     (if enableLRU c1 then updateAccessOrder txHash (accessOrder c1)
      else accessOrder c1),
   None).

(** The periodic sweep of [cleanupExpired]: one tick of the ticker. *)
Definition sweepStep (now : Time) (c : MemoryCache) (kv : string * Time) : MemoryCache :=
  if After now kv.2 then
    with_entries c (delete kv.1 (entries c))
      (if enableLRU c then removeFromAccessOrder kv.1 (accessOrder c)
       else accessOrder c)
  else c.

Definition cleanupExpired_tick (rt : Runtime) (c : MemoryCache) : MemoryCache :=
  foldl (sweepStep (now rt)) c (rangeOrder rt (entries c)).

#[export] Instance MemoryCache_Cache : Cache MemoryCache := {
  IsProcessed := MemoryCache_IsProcessed;
  MarkProcessed := MemoryCache_MarkProcessed
}.

(** *** cache/noop.go *)

Record NoOpCache : Type := mkNoOpCache {}.

Definition NewNoOpCache : NoOpCache := mkNoOpCache.

#[export] Instance NoOpCache_Cache : Cache NoOpCache := {
  IsProcessed := λ _ c _, (c, (false, None));
  MarkProcessed := λ _ c _ _, (c, None)
}.

(** *** cache/redis.go

    The server is outside the program: its key space, with the expiry the
    server keeps for each key (None: the key does not expire), and whether it
    answers at all.  EXISTS counts a key until its expiry; SET with a positive
    ttl stores the expiry, and go-redis sends no expiry for any other ttl
    (its KeepTTL marker aside). *)

Record RedisCache : Type := {
  redis_up : bool;
  redis_keys : gmap string (option Time);
  prefix : string
}.

Definition RedisCache_IsProcessed (rt : Runtime) (c : RedisCache) (txHash : string)
  : RedisCache * (bool * option error) :=
  let key := (prefix c ++ txHash)%string in
  if redis_up c then
    match redis_keys c !! key with
    | Some (Some expiresAt) => (c, (negb (After (now rt) expiresAt), None))
    | Some None => (c, (true, None))
    | None => (c, (false, None))
    end
  else (c, (false, Some (ErrWrap "failed to check Redis key" (ErrMsg "redis")))).

Definition RedisCache_MarkProcessed (rt : Runtime) (c : RedisCache) (txHash : string)
  (ttl : Duration) : RedisCache * option error :=
  let key := (prefix c ++ txHash)%string in
  if redis_up c then
    let expiry := if 0 <? ttl then Some (now rt + ttl) else None in
    ({| redis_up := true; redis_keys := <[key := expiry]> (redis_keys c);
        prefix := prefix c |}, None)
  else (c, Some (ErrWrap "failed to set Redis key" (ErrMsg "redis"))).

#[export] Instance RedisCache_Cache : Cache RedisCache := {
  IsProcessed := RedisCache_IsProcessed;
  MarkProcessed := RedisCache_MarkProcessed
}.

(** The calls a client makes on a cache, for statements about call sequences. *)
Inductive op : Type :=
| OpIsProcessed (rt : Runtime) (txHash : string)
| OpMarkProcessed (rt : Runtime) (txHash : string) (ttl : Duration)
| OpSweep (rt : Runtime).

Definition op_runtime (o : op) : Runtime :=
  match o with
  | OpIsProcessed rt _ | OpMarkProcessed rt _ _ | OpSweep rt => rt
  end.

Definition apply_op (c : MemoryCache) (o : op) : MemoryCache :=
  match o with
  | OpIsProcessed rt k => (MemoryCache_IsProcessed rt c k).1
  | OpMarkProcessed rt k ttl => (MemoryCache_MarkProcessed rt c k ttl).1
  | OpSweep rt => cleanupExpired_tick rt c
  end.

Definition run (c : MemoryCache) (ops : list op) : MemoryCache := foldl apply_op c ops.

(** The capacity invariant and, in LRU mode, the agreement of the recency
    list with the key set. *)
Definition order_agrees (c : MemoryCache) : Prop :=
  NoDup (accessOrder c) ∧ ∀ k, k ∈ accessOrder c ↔ is_Some (entries c !! k).

Definition capacity_inv (c : MemoryCache) : Prop :=
  len_entries c ≤ maxSize c ∧ (enableLRU c = true → order_agrees c).

End cache.

(** ** Go strings, [strings] and [strconv] *)

Module gostr.

Definition is_upper (c : ascii) : bool :=
  (65 <=? nat_of_ascii c)%nat && (nat_of_ascii c <=? 90)%nat.

Definition lower_ascii (c : ascii) : ascii :=
  if is_upper c then ascii_of_nat (nat_of_ascii c + 32) else c.

(** strings.ToLower *)
Fixpoint ToLower (s : string) : string :=
  match s with
  | EmptyString => EmptyString
  | String c r => String (lower_ascii c) (ToLower r)
  end.

(** strings.HasPrefix *)
Fixpoint HasPrefix (s prefix : string) : bool :=
  match prefix, s with
  | EmptyString, _ => true
  | String p pr, String c r => bool_decide (p = c) && HasPrefix r pr
  | String _ _, EmptyString => false
  end.

Fixpoint drop_chars (n : nat) (s : string) : string :=
  match n, s with
  | O, _ => s
  | S n', String _ r => drop_chars n' r
  | S _, EmptyString => EmptyString
  end.

(** strings.TrimPrefix *)
Definition TrimPrefix (s prefix : string) : string :=
  if HasPrefix s prefix then drop_chars (String.length prefix) s else s.

(** len(s) *)
Definition len (s : string) : Z := Z.of_nat (String.length s).

(** The test of the validators:
    (c >= '0' && c <= '9') || (c >= 'a' && c <= 'f') *)
Definition is_lower_hex (c : ascii) : bool :=
  let n := nat_of_ascii c in
  ((48 <=? n) && (n <=? 57) || (97 <=? n) && (n <=? 102))%nat.

Fixpoint all_chars (f : ascii → bool) (s : string) : bool :=
  match s with
  | EmptyString => true
  | String c r => f c && all_chars f r
  end.

(** The first character of [s] that fails [f]: what a validator's loop
    reports. *)
Fixpoint first_bad (f : ascii → bool) (s : string) : option ascii :=
  match s with
  | EmptyString => None
  | String c r => if f c then first_bad f r else Some c
  end.

(** The value of a digit as [strconv] and [math/big] read it: 0-9, then
    letters of either case from 10. *)
Definition digit_val (c : ascii) : option Z :=
  let n := Z.of_nat (nat_of_ascii c) in
  if (48 <=? n) && (n <=? 57) then Some (n - 48)
  else if (97 <=? n) && (n <=? 122) then Some (n - 97 + 10)
  else if (65 <=? n) && (n <=? 90) then Some (n - 65 + 10)
  else None.

(** The digits of [s] in [base], most significant first, added to [acc];
    [None] at a character that is no digit of the base. *)
Fixpoint digits_from (base acc : Z) (s : string) : option Z :=
  match s with
  | EmptyString => Some acc
  | String c r =>
      match digit_val c with
      | Some d => if d <? base then digits_from base (acc * base + d) r else None
      | None => None
      end
  end.

Definition parse_digits (base : Z) (s : string) : option Z :=
  match s with
  | EmptyString => None
  | _ => digits_from base 0 s
  end.

(** strconv.ParseUint(s, base, 64) with an explicit base: no prefix, no
    underscore; [None] is the syntax or range error. *)
Definition ParseUint64 (s : string) (base : Z) : option Z :=
  match parse_digits base s with
  | Some n => if n <? 2 ^ 64 then Some n else None
  | None => None
  end.

(** A leading sign, as strconv.ParseInt and big.Int.SetString read it. *)
Definition split_sign (s : string) : bool * string :=
  match s with
  | String "-" r => (true, r)
  | String "+" r => (false, r)
  | _ => (false, s)
  end.

(** strconv.ParseInt(s, base, 64) with an explicit base. *)
Definition ParseInt64 (s : string) (base : Z) : option Z :=
  let '(neg, r) := split_sign s in
  match ParseUint64 r base with
  | Some un =>
      if negb neg && (2 ^ 63 <=? un) then None
      else if neg && (2 ^ 63 <? un) then None
      else Some (if neg then - un else un)
  | None => None
  end.

(** strconv.Atoi on a 64-bit platform. *)
Definition Atoi (s : string) : option Z := ParseInt64 s 10.

(** new(big.Int).SetString(s, 16): an optional sign and at least one
    hexadecimal digit, nothing else. *)
Definition BigInt_SetString16 (s : string) : option Z :=
  let '(neg, r) := split_sign s in
  match parse_digits 16 r with
  | Some n => Some (if neg then - n else n)
  | None => None
  end.

End gostr.

(** ** float64 and the [math/big] operations the normalizer uses *)

Module gofloat.

(** An IEEE-754 double: zero, infinity, NaN, or (-1)^neg * m * 2^e. *)
Inductive float64 : Type :=
| F64Zero (neg : bool)
| F64Inf (neg : bool)
| F64NaN
| F64Fin (neg : bool) (m : positive) (e : Z).

(** Whether a double is 0 (of either sign). *)
Definition is_zero (v : float64) : bool :=
  match v with F64Zero _ => true | _ => false end.

(** x.BitLen() of a non-negative integer. *)
Definition BitLen (m : Z) : Z := if m <=? 0 then 0 else Z.log2 m + 1.

(** Rounding of the exact value [m * 2^e] ([m] >= 0) to [prec] bits of
    mantissa, to nearest, ties to even: big.Float's default mode. *)
Definition round_to_prec (prec m e : Z) : Z * Z :=
  let bl := BitLen m in
  if bl <=? prec then (m, e)
  else
    let k := bl - prec in
    let q := Z.shiftr m k in
    let r := m - Z.shiftl q k in
    let half := Z.shiftl 1 (k - 1) in
    let q' := if (half <? r) || ((r =? half) && Z.odd q) then q + 1 else q in
    (q', e + k).

(** The integer part of [m * 2^e] ([m] >= 0), truncated toward zero:
    Float.Int of math/big. *)
Definition trunc_int (m e : Z) : Z :=
  if 0 <=? e then Z.shiftl m e else Z.shiftr m (- e).

(** What [new(big.Float).Mul(big.NewFloat(v), y).Int(nil)] leaves in
    [amount], for a finite non-zero [y = ym] held at precision [yprec]. *)
Inductive mul_int_result : Type :=
| MulPanic                (* big.NewFloat(NaN) panics *)
| MulNil                  (* Int of an infinity returns nil *)
| MulInt (amount : Z).

Definition mul_to_int (v : float64) (ym yprec : Z) : mul_int_result :=
  match v with
  | F64NaN => MulPanic
  | F64Inf _ => MulNil
  | F64Zero _ => MulInt 0
  | F64Fin neg m e =>
      let prec := Z.max 53 yprec in
      let '(q, e') := round_to_prec prec (Z.pos m * ym) e in
      let n := trunc_int q e' in
      MulInt (if neg then - n else n)
  end.

(** big.NewFloat(1e18): the double 1e18 is the integer 10^18 exactly. *)
Definition e18 : Z := 10 ^ 18.

(** new(big.Int).Exp(big.NewInt(10), big.NewInt(d), nil): 1 when d <= 0. *)
Definition Exp10 (d : Z) : Z := if d <=? 0 then 1 else 10 ^ d.

(** The precision Float.SetInt of math/big gives a fresh float. *)
Definition SetInt_prec (x : Z) : Z := Z.max (BitLen x) 64.

(** int(v) for a double [v]: truncation toward zero; out of the int64 range
    (and for NaN) the language leaves the value to the implementation, and
    amd64 yields the minimal int64. *)
Definition float64_to_int (v : float64) : Z :=
  match v with
  | F64Zero _ => 0
  | F64Fin neg m e =>
      let n := trunc_int (Z.pos m) e in
      let z := if neg then - n else n in
      if (- 2 ^ 63 <=? z) && (z <? 2 ^ 63) then z else - 2 ^ 63
  | _ => - 2 ^ 63
  end.

End gofloat.

(** ** What both normalizers share: the cache consult, the handler call and
    the cache mark *)

(** How a call of a normalizer ends: it returns an [error] (or nil), or a
    library call panics. *)
Inductive outcome : Type :=
| Return (err : option error)
| Panic.

Section World.
Context {C : Type} `{!Cache C}.   (* the cache backend *)
Context {H : Type}.               (* the downstream handler's own state *)
Context {P : Type}.               (* what the handler is called with *)

(** The calls a normalizer makes on its collaborators, with their results. *)
Inductive Event : Type :=
| EvIsProcessed (key : string) (res : bool * option error)
| EvHandler (arg : P) (res : option error)
| EvMarkProcessed (key : string) (ttl : Duration) (res : option error).

(** The mutable world of a normalizer: the cache its [cache] field points to
    (None: the field is nil), the handler's state, and the calls made so
    far, oldest first. *)
Record State : Type := {
  st_cache : option C;
  st_handler : H;
  st_trace : list Event
}.

Definition Handler : Type := H → P → H * option error.

(** if p.cache != nil { processed, err := p.cache.IsProcessed(ctx, id); ... }
    The boolean tells whether the caller returns nil at once. *)
Definition cache_check (rt : Runtime) (id : string) (st : State) : State * bool :=
  match st_cache st with
  | None => (st, false)
  | Some c =>
      let '(c', res) := IsProcessed rt c id in
      let st' := {| st_cache := Some c'; st_handler := st_handler st;
                    st_trace := st_trace st ++ [EvIsProcessed id res] |} in
      match res with
      | (_, Some _) => (st', false)        (* logged, continuing *)
      | (processed, None) => (st', processed)
      end
  end.

(** if p.handler != nil { if err := p.handler(ctx, x); err != nil { ... } } *)
Definition call_handler (h : option Handler) (x : P) (st : State)
  : State * option error :=
  match h with
  | None => (st, None)
  | Some f =>
      let '(hs, res) := f (st_handler st) x in
      ({| st_cache := st_cache st; st_handler := hs;
          st_trace := st_trace st ++ [EvHandler x res] |}, res)
  end.

(** if p.cache != nil { ttl := 24 * time.Hour; p.cache.MarkProcessed(...) }
    An error of the cache is logged and dropped. *)
Definition cache_mark (rt : Runtime) (id : string) (st : State) : State :=
  match st_cache st with
  | None => st
  | Some c =>
      let ttl := 24 * Hour in
      let '(c', res) := MarkProcessed rt c id ttl in
      {| st_cache := Some c'; st_handler := st_handler st;
         st_trace := st_trace st ++ [EvMarkProcessed id ttl res] |}
  end.

(** The tail both normalizers end with (ProcessActivity lines 564-577,
    ProcessTransaction lines 100-114): the handler call, whose error is
    wrapped and returned, and after it the cache mark. *)
Definition deliver (h : option Handler) (rt : Runtime) (id : string) (x : P)
    (st : State) : State * outcome :=
  let '(st2, herr) := call_handler h x st in
  match herr with
  | Some err => (st2, Return (Some (ErrWrap "handler error" err)))
  | None => (cache_mark rt id st2, Return None)
  end.

(** The shape both normalizers have: checks that end the call before the
    cache is touched ([pre]), the cache consult under the dedup key [id],
    the construction of the handler's argument ([built], which may end the
    call as well), and the delivery. *)
Definition pipeline (pre : option outcome) (id : string) (built : outcome + P)
    (h : option Handler) (rtCheck rtMark : Runtime) (st : State) : State * outcome :=
  match pre with
  | Some o => (st, o)
  | None =>
      let '(st1, processed) := cache_check rtCheck id st in
      if processed then (st1, Return None)
      else
        match built with
        | inl o => (st1, o)
        | inr x => deliver h rtMark id x st1
        end
  end.

(** The calls made between two states of one run. *)
Definition events_since (st st' : State) : list Event :=
  drop (length (st_trace st)) (st_trace st').

(** The events of the consult, of the handler call and of the mark. *)
Definition check_events (rt : Runtime) (id : string) (st : State) : list Event :=
  match st_cache st with
  | None => []
  | Some c => [EvIsProcessed id (IsProcessed rt c id).2]
  end.

Definition mark_events (rt : Runtime) (id : string) (st : State) : list Event :=
  match st_cache st with
  | None => []
  | Some c => [EvMarkProcessed id (24 * Hour) (MarkProcessed rt c id (24 * Hour)).2]
  end.

(** Every run of the pipeline is one of five: ended by [pre]; a confirmed
    hit; ended by [built]; the handler failed; the handler (if any)
    succeeded and the cache was marked. *)
Inductive run_shape (pre : option outcome) (id : string) (built : outcome + P)
    (h : option Handler) (rtCheck rtMark : Runtime) (st : State)
  : State * outcome → list Event → Prop :=
| RunPre o :
    pre = Some o →
    run_shape pre id built h rtCheck rtMark st (st, o) []
| RunHit :
    pre = None → (cache_check rtCheck id st).2 = true →
    run_shape pre id built h rtCheck rtMark st
      ((cache_check rtCheck id st).1, Return None) (check_events rtCheck id st)
| RunEnd o :
    pre = None → (cache_check rtCheck id st).2 = false → built = inl o →
    run_shape pre id built h rtCheck rtMark st
      ((cache_check rtCheck id st).1, o) (check_events rtCheck id st)
| RunHandlerError x f hs e :
    pre = None → (cache_check rtCheck id st).2 = false → built = inr x →
    h = Some f → f (st_handler st) x = (hs, Some e) →
    run_shape pre id built h rtCheck rtMark st
      ({| st_cache := st_cache (cache_check rtCheck id st).1; st_handler := hs;
          st_trace := st_trace st ++ check_events rtCheck id st
                        ++ [EvHandler x (Some e)] |},
       Return (Some (ErrWrap "handler error" e)))
      (check_events rtCheck id st ++ [EvHandler x (Some e)])
| RunDelivered x hs hev :
    pre = None → (cache_check rtCheck id st).2 = false → built = inr x →
    (h = None ∧ hs = st_handler st ∧ hev = [] ∨
     ∃ f, h = Some f ∧ f (st_handler st) x = (hs, None) ∧ hev = [EvHandler x None]) →
    let st2 := {| st_cache := st_cache (cache_check rtCheck id st).1; st_handler := hs;
                  st_trace := st_trace st ++ check_events rtCheck id st ++ hev |} in
    run_shape pre id built h rtCheck rtMark st
      (cache_mark rtMark id st2, Return None)
      (check_events rtCheck id st ++ hev ++ mark_events rtMark id st2).

(** The same world with no cache configured (the [cache] field nil). *)
Definition without_cache (st : State) : State :=
  {| st_cache := None; st_handler := st_handler st; st_trace := st_trace st |}.

(** The handler invocations and the cache marks of a trace. *)
Definition handler_calls (t : list Event) : list P :=
  omap (λ ev, match ev with EvHandler x _ => Some x | _ => None end) t.

Definition mark_calls (t : list Event) : list (string * Duration) :=
  omap (λ ev, match ev with EvMarkProcessed k ttl _ => Some (k, ttl) | _ => None end) t.

(** What the specification asks of a run [r] from [st] with dedup key [id]:
    a handler error is returned, wrapped, with no MarkProcessed call and the
    cache as the consult left it; and a MarkProcessed call is of the key, for
    24 hours, in a run that returns nil, after a handler call (if a handler is
    configured) that returned nil. *)
Definition marks_only_on_success (h : option Handler) (id : string) (rtCheck : Runtime)
    (st : State) (r : State * outcome) : Prop :=
  let evs := events_since st r.1 in
  (∀ x e, EvHandler x (Some e) ∈ evs →
          r.2 = Return (Some (ErrWrap "handler error" e)) ∧
          mark_calls evs = [] ∧
          st_cache r.1 = st_cache (cache_check rtCheck id st).1) ∧
  (∀ k ttl res, EvMarkProcessed k ttl res ∈ evs →
          k = id ∧ ttl = 24 * Hour ∧ r.2 = Return None ∧
          (∀ x res', EvHandler x res' ∈ evs → res' = None) ∧
          (∀ f, h = Some f → ∃ x, EvHandler x None ∈ evs)).

(** Fail-open: when IsProcessed returns an error the run is the run of a
    normalizer that has no cache (same outcome, same handler calls, same
    handler state); and a run in which MarkProcessed returned an error returns
    nil. *)
Definition fail_open (id : string) (rtCheck : Runtime)
    (run : State → State * outcome) (st : State) : Prop :=
  (∀ c e, st_cache st = Some c → (IsProcessed rtCheck c id).2.2 = Some e →
          (run st).2 = (run (without_cache st)).2 ∧
          handler_calls (events_since st (run st).1)
            = handler_calls (events_since (without_cache st) (run (without_cache st)).1) ∧
          st_handler (run st).1 = st_handler (run (without_cache st)).1) ∧
  (∀ k ttl e, EvMarkProcessed k ttl (Some e) ∈ events_since st (run st).1 →
          (run st).2 = Return None).

End World.

Arguments Event : clear implicits.
Arguments State : clear implicits.
Arguments Handler : clear implicits.

(** ** eth/types.go and eth/processor.go *)

Module eth.
Import gostr gofloat.

(** The dynamic type of [RawContract.Decimals] (an interface{}). *)
Inductive any : Type :=
| AnyNil
| AnyFloat64 (v : float64)
| AnyInt (v : Z)
| AnyInt64 (v : Z)
| AnyString (v : string)
| AnyOther.

Record AlchemyRawContract : Type := {
  RawValue : string;
  Address : string;
  Decimals : any
}.

(** The fields of AlchemyActivity that ProcessActivity reads; a nil pointer
    is [None]. *)
Record AlchemyActivity : Type := {
  BlockNum : string;
  Hash : string;
  FromAddress : string;
  ToAddress : string;
  Value : option float64;
  ERC721TokenID : option string;
  Asset : string;
  Category : string;
  RawContract : option AlchemyRawContract;
  TypeTraceAddress : option string
}.

(** [pa_Value] holds the integer whose decimal rendering, amount.String(),
    the Go field carries. *)
Record ProcessedActivity : Type := {
  pa_TxHash : string;
  pa_FromAddress : string;
  pa_ToAddress : string;
  pa_Value : Z;
  pa_Currency : string;
  pa_Category : string;
  pa_BlockNumber : Z;
  pa_Network : string;
  pa_IsInternal : bool
}.

Definition validateEthereumAddress (addr : string) : option error :=
  if bool_decide (addr = "") then Some (ErrMsg "address is empty")
  else
    let addr := TrimPrefix (ToLower addr) "0x" in
    if negb (len addr =? 40) then Some (ErrMsg "invalid address length")
    else match first_bad is_lower_hex addr with
         | Some _ => Some (ErrMsg "invalid hex character in address")
         | None => None
         end.

Definition validateTransactionHash (hash : string) : option error :=
  if bool_decide (hash = "") then Some (ErrMsg "transaction hash is empty")
  else
    let hash := TrimPrefix (ToLower hash) "0x" in
    if negb (len hash =? 64) then Some (ErrMsg "invalid hash length")
    else match first_bad is_lower_hex hash with
         | Some _ => Some (ErrMsg "invalid hex character in hash")
         | None => None
         end.

Definition validateBlockNumber (blockNumStr : string) : option error :=
  if bool_decide (blockNumStr = "") then Some (ErrMsg "block number is empty")
  else
    let blockNumStr := TrimPrefix (ToLower blockNumStr) "0x" in
    if len blockNumStr =? 0 then Some (ErrMsg "block number is empty after removing prefix")
    else match first_bad is_lower_hex blockNumStr with
         | Some _ => Some (ErrMsg "invalid hex character in block number")
         | None => None
         end.

(** txHash := strings.ToLower(strings.TrimPrefix(activity.Hash, "0x"))
    if !strings.HasPrefix(txHash, "0x") { txHash = "0x" + txHash } *)
Definition txHashOf (activity : AlchemyActivity) : string :=
  let txHash := ToLower (TrimPrefix (Hash activity) "0x") in
  if negb (HasPrefix txHash "0x") then ("0x" ++ txHash)%string else txHash.

(** activity.TypeTraceAddress != nil && *activity.TypeTraceAddress != "" *)
Definition hasTrace (activity : AlchemyActivity) : bool :=
  match TypeTraceAddress activity with
  | Some t => negb (bool_decide (t = ""))
  | None => false
  end.

Definition uniqueIDOf (activity : AlchemyActivity) : string :=
  let txHash := txHashOf activity in
  match TypeTraceAddress activity with
  | Some t => if negb (bool_decide (t = "")) then (txHash ++ "_" ++ t)%string else txHash
  | None => txHash
  end.

(** The closure getDecimals. *)
Definition getDecimals (activity : AlchemyActivity) : Z :=
  match RawContract activity with
  | None => 18
  | Some rc =>
      match Decimals rc with
      | AnyNil => 18
      | AnyFloat64 v => float64_to_int v
      | AnyInt v => v
      | AnyInt64 v => v
      | AnyString v =>
          let decimalsStr := TrimPrefix v "0x" in
          match ParseInt64 decimalsStr 16 with
          | Some dec => dec
          | None =>
              match Atoi decimalsStr with
              | Some dec => dec
              | None => 18
              end
          end
      | AnyOther => 18
      end
  end.

Section Processor.
Context {C : Type} `{!Cache C} {H : Type}.
(** common.Address and common.HexToAddress of go-ethereum. *)
Context {address : Type} `{!EqDecision address}.
Variable HexToAddress : string → address.

(** The fields of Processor that do not change.  [tokenAddresses] lists the
    symbol -> address map in the order a [range] over it visits it. *)
Record Processor : Type := {
  tokenAddresses : list (string * address);
  handler : option (Handler H ProcessedActivity);
  chainID : string
}.

Fixpoint getTokenSymbol_in (l : list (string * address)) (tokenAddr : address) : string :=
  match l with
  | [] => ""
  | (symbol, addr) :: rest =>
      if bool_decide (addr = tokenAddr) then symbol else getTokenSymbol_in rest tokenAddr
  end.

Definition getTokenSymbol (p : Processor) (tokenAddr : address) : string :=
  getTokenSymbol_in (tokenAddresses p) tokenAddr.

(** currency = p.getTokenSymbol(tokenAddr); if currency == "" { currency =
    activity.Asset; if currency == "" { currency = "UNKNOWN" } } *)
Definition resolveCurrency (p : Processor) (activity : AlchemyActivity)
    (rc : AlchemyRawContract) : string :=
  let currency := getTokenSymbol p (HexToAddress (Address rc)) in
  if bool_decide (currency = "") then
    let currency := Asset activity in
    if bool_decide (currency = "") then "UNKNOWN" else currency
  else currency.

(** network = base + "-INTERNAL" on an internal transaction, + "-TESTNET"
    on the test chain, as the four assignments of each branch spell out. *)
Definition tokenNetwork (p : Processor) (base : string) (isInternalTx : bool) : string :=
  let testnet := bool_decide (chainID p = "eth-testnet") in
  if isInternalTx then
    if testnet then (base ++ "-INTERNAL-TESTNET")%string else (base ++ "-INTERNAL")%string
  else
    if testnet then (base ++ "-TESTNET")%string else base.

Definition nativeNetwork (p : Processor) (category : string) : string :=
  let internal := bool_decide (category = "internal") in
  if bool_decide (chainID p = "eth-testnet") then
    if internal then "INTERNAL-TESTNET" else "TESTNET"
  else
    if internal then "INTERNAL" else "MAINNET".

(** What the classification of lines 399-546 leaves behind. *)
Inductive classified : Type :=
| Skipped                                  (* return nil *)
| Panicked
| Classified (amount : Z) (currency network : string).

(** amount after [amount, _ = x.Int(nil); if amount == nil { amount = 0 }]. *)
Definition amount_of (r : mul_int_result) (currency network : string) : classified :=
  match r with
  | MulPanic => Panicked
  | MulNil => Classified 0 currency network
  | MulInt n => Classified n currency network
  end.

Definition isInternalTxOf (activity : AlchemyActivity) : bool :=
  bool_decide (ToLower (Category activity) = "internal") || hasTrace activity.

Definition classify (p : Processor) (activity : AlchemyActivity) : classified :=
  let category := ToLower (Category activity) in
  let isInternalTx := isInternalTxOf activity in
  if bool_decide (category = "external") || bool_decide (category = "internal") then
    match Value activity with
    | None => Skipped
    | Some ethValue =>
        amount_of (mul_to_int ethValue e18 53) "ETH" (nativeNetwork p category)
    end
  else if bool_decide (category = "token") || bool_decide (category = "erc20")
          || match RawContract activity with
             | Some rc => negb (bool_decide (Address rc = ""))
             | None => false
             end then
    match RawContract activity with
    | None => Skipped
    | Some rc =>
        let currency := resolveCurrency p activity rc in
        let network := tokenNetwork p "ERC-20" isInternalTx in
        let rawValueStr := RawValue rc in
        if bool_decide (rawValueStr = "") then
          match Value activity with
          | Some tokenValue =>
              let decimals := getDecimals activity in
              let scale := Exp10 decimals in
              amount_of (mul_to_int tokenValue scale (SetInt_prec scale)) currency network
          | None => Skipped
          end
        else
          match BigInt_SetString16 (TrimPrefix rawValueStr "0x") with
          | Some amount => Classified amount currency network
          | None => Classified 0 currency network
          end
    end
  else if bool_decide (category = "erc721") then
    match ERC721TokenID activity, RawContract activity with
    | Some _, Some rc =>
        Classified 1 (resolveCurrency p activity rc) (tokenNetwork p "ERC-721" isInternalTx)
    | _, _ => Skipped
    end
  else if bool_decide (category = "erc1155") then
    match RawContract activity with
    | Some rc =>
        Classified 1 (resolveCurrency p activity rc) (tokenNetwork p "ERC-1155" isInternalTx)
    | None => Skipped
    end
  else Skipped.

(** ProcessActivity, lines 353-367: the address and hash checks that come
    before the cache is consulted. *)
Definition validateFront (activity : AlchemyActivity) : option error :=
  match validateEthereumAddress (ToAddress activity) with
  | Some err => Some (ErrWrap "invalid to address" err)
  | None =>
  match validateEthereumAddress (FromAddress activity) with
  | Some err => Some (ErrWrap "invalid from address" err)
  | None =>
  match validateTransactionHash (txHashOf activity) with
  | Some err => Some (ErrWrap "invalid transaction hash" err)
  | None => None
  end end end.

(** How a failed check of lines 353-367 ends the call. *)
Definition pre_of (activity : AlchemyActivity) : option outcome :=
  (λ e, Return (Some e)) <$> validateFront activity.

(** ProcessActivity, lines 389-562: from the block-number check to the
    ProcessedActivity value.  [inl] is an early end of the call (return nil,
    return an error, or a panic), [inr] the value the handler is called
    with. *)
Definition buildActivity (p : Processor) (activity : AlchemyActivity)
  : outcome + ProcessedActivity :=
  match validateBlockNumber (BlockNum activity) with
  | Some err => inl (Return (Some (ErrWrap "invalid block number" err)))
  | None =>
  match ParseUint64 (TrimPrefix (BlockNum activity) "0x") 16 with
  | None =>
      inl (Return (Some (ErrWrap "failed to parse block number"
                           (ErrMsg "strconv.ParseUint"))))
  | Some blockNum =>
  match classify p activity with
  | Skipped => inl (Return None)
  | Panicked => inl Panic
  | Classified amount currency network =>
      if amount =? 0 then inl (Return None)
      else
        inr {| pa_TxHash := txHashOf activity;
               pa_FromAddress := FromAddress activity;
               pa_ToAddress := ToAddress activity;
               pa_Value := amount;
               pa_Currency := currency;
               pa_Category := ToLower (Category activity);
               pa_BlockNumber := blockNum;
               pa_Network := network;
               pa_IsInternal := isInternalTxOf activity |}
  end end end.

(** ProcessActivity.  [rtCheck] and [rtMark] are what the runtime supplies
    to the IsProcessed and to the MarkProcessed call. *)
Definition ProcessActivity (p : Processor) (rtCheck rtMark : Runtime)
    (activity : AlchemyActivity) (st : State C H ProcessedActivity)
  : State C H ProcessedActivity * outcome :=
  match validateFront activity with
  | Some err => (st, Return (Some err))
  | None =>
      let uniqueID := uniqueIDOf activity in
      let '(st1, processed) := cache_check rtCheck uniqueID st in
      if processed then (st1, Return None)
      else
        match buildActivity p activity with
        | inl o => (st1, o)
        | inr processedActivity =>
            deliver (handler p) rtMark uniqueID processedActivity st1
        end
  end.

End Processor.

End eth.

(** ** solana/types.go and solana/processor.go *)

Module solana.
Import gostr.

(** The value of an int64 expression: two's-complement wrap-around. *)
Definition wrap64 (z : Z) : Z := (z + 2 ^ 63) mod 2 ^ 64 - 2 ^ 63.

Record AlchemySolanaInstruction : Type := {
  Data : string;
  ProgramIDIndex : Z;
  Accounts : list Z
}.

Record AlchemySolanaInnerInstruction : Type := {
  inner_Instructions : list AlchemySolanaInstruction
}.

Record AlchemySolanaTxMeta : Type := {
  Fee : Z;
  PreBalances : list Z;
  PostBalances : list Z;
  InnerInstructions : list AlchemySolanaInnerInstruction;
  InnerInstructionsNone : bool;
  LogMessages : list string
}.

Record AlchemySolanaTxMessage : Type := {
  Instructions : list AlchemySolanaInstruction;
  AccountKeys : list string
}.

Record AlchemySolanaTxDetail : Type := {
  Message : list AlchemySolanaTxMessage
}.

Record AlchemySolanaTransaction : Type := {
  Signature : string;
  Transaction : list AlchemySolanaTxDetail;
  Meta : list AlchemySolanaTxMeta
}.

Record NativeTransfer : Type := {
  nt_FromUserAccount : string;
  nt_ToUserAccount : string;
  nt_Amount : Z
}.

(** accountKeys[i] and balances[i], read inside the bounds the code checks. *)
Definition key_at (accountKeys : list string) (i : nat) : string := nth i accountKeys "".
Definition bal_at (balances : list Z) (i : nat) : Z := nth i balances 0.

(** The inner loop of extractNativeTransfers over the indices [js] still to
    visit: the first j that passes both tests, where the loop appends and
    breaks. *)
Fixpoint scanDebit (pre post : list Z) (i : nat) (js : list nat) : option nat :=
  match js with
  | [] => None
  | j :: rest =>
      if negb (bool_decide (i = j)) && (bal_at post j <? bal_at pre j) then
        let fromBalanceChange := wrap64 (bal_at pre j - bal_at post j) in
        if 0 <? fromBalanceChange then Some j
        else scanDebit pre post i rest
      else scanDebit pre post i rest
  end.

(** One iteration of the outer loop. *)
Definition nativeStep (accountKeys : list string) (pre post : list Z)
    (nativeTransfers : list NativeTransfer) (i : nat) : list NativeTransfer :=
  let balanceChange := wrap64 (bal_at post i - bal_at pre i) in
  if 0 <? balanceChange then
    match scanDebit pre post i (seq 0 (length accountKeys)) with
    | Some j =>
        nativeTransfers ++
          [{| nt_FromUserAccount := key_at accountKeys j;
              nt_ToUserAccount := key_at accountKeys i;
              nt_Amount := balanceChange |}]
    | None => nativeTransfers
    end
  else nativeTransfers.

Definition extractNativeTransfers (accountKeys : list string) (meta : AlchemySolanaTxMeta)
  : list NativeTransfer :=
  if bool_decide (length (PreBalances meta) = length (PostBalances meta))
     && bool_decide (length (PreBalances meta) = length accountKeys) then
    foldl (nativeStep accountKeys (PreBalances meta) (PostBalances meta)) []
      (seq 0 (length accountKeys))
  else [].

(** The words of the specification for the native pairing: the credit of
    account [i], whether account [j] is a debited account other than [i], and
    the transfer the pair (j, i) stands for. *)
Definition credit (pre post : list Z) (i : nat) : Z :=
  wrap64 (bal_at post i - bal_at pre i).

Definition debits (pre post : list Z) (i j : nat) : bool :=
  negb (bool_decide (i = j)) && (bal_at post j <? bal_at pre j)
  && (0 <? wrap64 (bal_at pre j - bal_at post j)).

Definition transfer_of (accountKeys : list string) (pre post : list Z)
    (ji : nat * nat) : NativeTransfer :=
  {| nt_FromUserAccount := key_at accountKeys ji.1;
     nt_ToUserAccount := key_at accountKeys ji.2;
     nt_Amount := credit pre post ji.2 |}.

(** The pair one iteration of the outer loop emits, if any. *)
Definition pair_of (pre post : list Z) (n i : nat) : option (nat * nat) :=
  if 0 <? credit pre post i then (λ j, (j, i)) <$> scanDebit pre post i (seq 0 n)
  else None.

Definition splTokenProgramID : string := "TokenkegQfeZyiNwAJbNbGKPFXCWuBvf9Ss623VQ5DA".

(** idx < 0 || idx >= len(accountKeys) *)
Definition out_of_range (accountKeys : list string) (idx : Z) : bool :=
  (idx <? 0) || (Z.of_nat (length accountKeys) <=? idx).

Definition key_atZ (accountKeys : list string) (idx : Z) : string :=
  key_at accountKeys (Z.to_nat idx).

(** The instructions of the SPL Token program among [l]. *)
Definition splInstructions (accountKeys : list string) (l : list AlchemySolanaInstruction)
  : list AlchemySolanaInstruction :=
  List.filter (λ instruction,
      negb (out_of_range accountKeys (ProgramIDIndex instruction))
      && bool_decide (key_atZ accountKeys (ProgramIDIndex instruction) = splTokenProgramID))
    l.

(** Whether [sub] occurs in [s]: the scan logMsg[i:i+len(mintAddr)] == mintAddr. *)
Fixpoint occurs_in (s sub : string) : bool :=
  HasPrefix s sub ||
  match s with
  | EmptyString => false
  | String _ r => occurs_in r sub
  end.

(** binary.LittleEndian.Uint64 of the first eight bytes of [b]. *)
Fixpoint le_uint (n : nat) (b : list Z) : Z :=
  match n, b with
  | S n', x :: r => x + 256 * le_uint n' r
  | _, _ => 0
  end.

Section Processor.
Context {C : Type} `{!Cache C} {H : Type}.
(** base58.Decode of mr-tron/base58, giving the bytes. *)
Variable base58_Decode : string → option (list Z).
(** float64(amount) / math.Pow10(decimals), in a type of doubles. *)
Context {float64 : Type}.
Variable quot_pow10 : Z → Z → float64.

Record TokenTransfer : Type := {
  tt_FromUserAccount : string;
  tt_ToUserAccount : string;
  tt_FromTokenAccount : string;
  tt_ToTokenAccount : string;
  tt_TokenAmount : float64;
  tt_Mint : string;
  tt_Currency : string
}.

Record ProcessedTransaction : Type := {
  pt_Signature : string;
  pt_Slot : Z;
  pt_NativeTransfers : list NativeTransfer;
  pt_TokenTransfers : list TokenTransfer;
  pt_Fee : Z;
  pt_Timestamp : Z
}.

(** The fields of Processor that do not change.  [tokenMints] lists the
    currency -> mint map in the order a [range] over it visits it. *)
Record Processor : Type := {
  tokenMints : list (string * string);
  handler : option (Handler H ProcessedTransaction);
  chainID : string
}.

Fixpoint getCurrencyFromMint_in (l : list (string * string)) (mint : string)
  : option string :=
  match l with
  | [] => None
  | (currency, mintAddr) :: rest =>
      if bool_decide (mintAddr = mint) then Some currency
      else getCurrencyFromMint_in rest mint
  end.

Definition getCurrencyFromMint (p : Processor) (mint : string) : option string :=
  getCurrencyFromMint_in (tokenMints p) mint.

(** The first configured mint, in range order, that [test] accepts. *)
Definition firstMint (p : Processor) (test : string → bool) : option string :=
  snd <$> List.find (λ cm, test cm.2) (tokenMints p).

(** The mint of a legacy Transfer: searched in the log messages, then among
    the account keys; "" when neither has one. *)
Fixpoint mintFromLogs (p : Processor) (logs : list string) : string :=
  match logs with
  | [] => ""
  | logMsg :: rest =>
      match firstMint p (λ mintAddr,
               (0 <? len logMsg) && (0 <? len mintAddr)
               && (len mintAddr <=? len logMsg) && occurs_in logMsg mintAddr) with
      | Some mintAddr => mintAddr
      | None => mintFromLogs p rest
      end
  end.

Fixpoint mintFromKeys (p : Processor) (keys : list string) : string :=
  match keys with
  | [] => ""
  | accountKey :: rest =>
      match firstMint p (λ mintAddr, bool_decide (accountKey = mintAddr)) with
      | Some mintAddr => if bool_decide (mintAddr = "") then mintFromKeys p rest else mintAddr
      | None => mintFromKeys p rest
      end
  end.

(** The last block of the loop body: the transfer, when the mint is known. *)
Definition emitToken (p : Processor) (accountKeys : list string)
    (mintAccount : string) (fromIdx toIdx amount : Z) : option TokenTransfer :=
  if negb (bool_decide (mintAccount = ""))
     && (0 <=? fromIdx) && (0 <=? toIdx)
     && (fromIdx <? Z.of_nat (length accountKeys))
     && (toIdx <? Z.of_nat (length accountKeys)) then
    match getCurrencyFromMint p mintAccount with
    | None => None
    | Some currency =>
        let decimals :=
          if bool_decide (currency = "USDC") || bool_decide (currency = "USDT")
          then 6 else 9 in
        Some {| tt_FromUserAccount := key_atZ accountKeys fromIdx;
                tt_ToUserAccount := key_atZ accountKeys toIdx;
                tt_FromTokenAccount := key_atZ accountKeys fromIdx;
                tt_ToTokenAccount := key_atZ accountKeys toIdx;
                tt_TokenAmount := quot_pow10 amount decimals;
                tt_Mint := mintAccount;
                tt_Currency := currency |}
    end
  else None.

(** The loop body for one candidate instruction; [None] is a [continue]. *)
Definition decodeToken (p : Processor) (accountKeys : list string)
    (meta : AlchemySolanaTxMeta) (instruction : AlchemySolanaInstruction)
  : option TokenTransfer :=
  if bool_decide (Data instruction = "") then None
  else
    match base58_Decode (Data instruction) with
    | None | Some [] => None
    | Some ((instructionType :: payload) as decodedData) =>
        let nacc := Z.of_nat (length (Accounts instruction)) in
        let acc := λ i, nth i (Accounts instruction) 0 in
        if instructionType =? 12 then
          if (nacc <? 4) || (Z.of_nat (length decodedData) <? 9) then None
          else
            let fromIdx := acc 0%nat in
            let mintIdx := acc 1%nat in
            let toIdx := acc 2%nat in
            if out_of_range accountKeys fromIdx || out_of_range accountKeys mintIdx
               || out_of_range accountKeys toIdx then None
            else emitToken p accountKeys (key_atZ accountKeys mintIdx)
                   fromIdx toIdx (le_uint 8 payload)
        else if instructionType =? 3 then
          if (nacc <? 3) || (Z.of_nat (length decodedData) <? 9) then None
          else
            let fromIdx := acc 0%nat in
            let toIdx := acc 1%nat in
            if out_of_range accountKeys fromIdx || out_of_range accountKeys toIdx then None
            else
              let fromLogs := mintFromLogs p (LogMessages meta) in
              let mintAccount :=
                if bool_decide (fromLogs = "") then mintFromKeys p accountKeys
                else fromLogs in
              emitToken p accountKeys mintAccount fromIdx toIdx (le_uint 8 payload)
        else None
    end.

Definition extractTokenTransfers (p : Processor) (accountKeys : list string)
    (msg : AlchemySolanaTxMessage) (meta : AlchemySolanaTxMeta) : list TokenTransfer :=
  let top := splInstructions accountKeys (Instructions msg) in
  let inner :=
    if negb (InnerInstructionsNone meta)
       && (0 <? Z.of_nat (length (InnerInstructions meta))) then
      concat (List.map (λ g, splInstructions accountKeys (inner_Instructions g))
                (InnerInstructions meta))
    else [] in
  omap (decodeToken p accountKeys meta) (top ++ inner).

(** ProcessTransaction, lines 46-70: the first message and meta block, and
    the account keys; [None] is the return nil of an empty array. *)
Definition firstMessage (alchemyTx : AlchemySolanaTransaction)
  : option (AlchemySolanaTxMessage * AlchemySolanaTxMeta) :=
  match Transaction alchemyTx, Meta alchemyTx with
  | [], _ | _, [] => None
  | txDetail :: _, meta :: _ =>
      match Message txDetail with
      | [] => None
      | msg :: _ =>
          if bool_decide (length (AccountKeys msg) = 0%nat) then None
          else Some (msg, meta)
      end
  end.

(** ProcessTransaction, lines 87-99: the extraction and the
    ProcessedTransaction value; [None] when no transfer was found. *)
Definition buildTransaction (p : Processor) (rtStamp : Runtime)
    (alchemyTx : AlchemySolanaTransaction) (slot : Z)
    (msg : AlchemySolanaTxMessage) (meta : AlchemySolanaTxMeta)
  : option ProcessedTransaction :=
  let accountKeys := AccountKeys msg in
  let nativeTransfers := extractNativeTransfers accountKeys meta in
  let tokenTransfers := extractTokenTransfers p accountKeys msg meta in
  if (0 <? Z.of_nat (length nativeTransfers)) || (0 <? Z.of_nat (length tokenTransfers)) then
    Some {| pt_Signature := Signature alchemyTx;
            pt_Slot := slot;
            pt_NativeTransfers := nativeTransfers;
            pt_TokenTransfers := tokenTransfers;
            pt_Fee := Fee meta;
            pt_Timestamp := now rtStamp / 1000000000 |}
  else None.

(** How lines 46-70 and lines 87-99 end the call, or what they hand on. *)
Definition pre_of (alchemyTx : AlchemySolanaTransaction) : option outcome :=
  match firstMessage alchemyTx with
  | None => Some (Return None)
  | Some _ => None
  end.

Definition built_of (p : Processor) (rtStamp : Runtime)
    (alchemyTx : AlchemySolanaTransaction) (slot : Z) : outcome + ProcessedTransaction :=
  match firstMessage alchemyTx with
  | Some (msg, meta) =>
      match buildTransaction p rtStamp alchemyTx slot msg meta with
      | Some processedTx => inr processedTx
      | None => inl (Return None)
      end
  | None => inl (Return None)
  end.

(** ProcessTransaction.  [rtCheck], [rtStamp] and [rtMark] are what the
    runtime supplies to the IsProcessed call, to the time.Now() of the
    Timestamp field and to the MarkProcessed call. *)
Definition ProcessTransaction (p : Processor) (rtCheck rtStamp rtMark : Runtime)
    (alchemyTx : AlchemySolanaTransaction) (slot : Z)
    (st : State C H ProcessedTransaction)
  : State C H ProcessedTransaction * outcome :=
  match firstMessage alchemyTx with
  | None => (st, Return None)
  | Some (msg, meta) =>
      let '(st1, processed) := cache_check rtCheck (Signature alchemyTx) st in
      if processed then (st1, Return None)
      else
        match buildTransaction p rtStamp alchemyTx slot msg meta with
        | None => (st1, Return None)
        | Some processedTx =>
            deliver (handler p) rtMark (Signature alchemyTx) processedTx st1
        end
  end.

End Processor.

End solana.

(** ** eth/backfill.go *)

Module eth_backfill.
Import gostr gofloat eth.

(** The fields of AlchemyAssetTransfer (eth/types.go); the anonymous
    RawContract struct is flattened. *)
Record AlchemyAssetTransfer : Type := {
  t_BlockNum : string;
  t_Hash : string;
  t_From : string;
  t_To : string;
  t_Value : option float64;
  t_Asset : string;
  t_Category : string;
  t_RawContract_Value : string;
  t_RawContract_Address : string;
  t_RawContract_Decimal : string
}.

(** A uint64 expression: wrap-around modulo 2^64. *)
Definition wrapU64 (z : Z) : Z := z mod 2 ^ 64.

Definition blocksPer12Hours : Z := 3600.
Definition safetyMargin : Z := 400.
Definition confirmationBlocks : Z := 12.

(** Backfill, lines 74-89: the block range scanned for the head
    [currentBlock]; None is the return of "Block range too small". *)
Definition blockRange (currentBlock : Z) : option (Z * Z) :=
  let fromBlock :=
    if blocksPer12Hours + safetyMargin + confirmationBlocks <? currentBlock
    then wrapU64 (wrapU64 (currentBlock - blocksPer12Hours) - safetyMargin)
    else 0 in
  let toBlock := wrapU64 (currentBlock - confirmationBlocks) in
  if toBlock <=? fromBlock then None else Some (fromBlock, toBlock).

(** getAssetTransfers, lines 185-202: the page size and the zero-value
    filter asked for. *)
Definition maxCountOf (fromBlock toBlock : Z) : string :=
  let blockRange := wrapU64 (wrapU64 (toBlock - fromBlock) + 1) in
  if 100 <? blockRange then "0x3e8"
  else if 10 <? blockRange then "0x3e8"
  else "0x1f4".

Definition excludeZeroValueOf (fromBlock toBlock : Z) : bool :=
  10 <? wrapU64 (wrapU64 (toBlock - fromBlock) + 1).

(** Backfill, lines 130-133: the key under which the loop consults the
    cache before it processes a transfer. *)
Definition transferKey (transfer : AlchemyAssetTransfer) : string :=
  let txHash := ToLower (TrimPrefix (t_Hash transfer) "0x") in
  if negb (HasPrefix txHash "0x") then ("0x" ++ txHash)%string else txHash.

(** getAssetTransfers, lines 173-258.  The variable [result] the responses
    are decoded into is declared once, before the loop: decoding a response
    sets the fields the response has and leaves the others as the previous
    response set them. *)
Record PageResult : Type := {
  Transfers : list AlchemyAssetTransfer;
  PageKey : string
}.

(** A response of alchemy_getAssetTransfers: each field, if present. *)
Record PageResponse : Type := {
  resp_transfers : option (list AlchemyAssetTransfer);
  resp_pageKey : option string
}.

Definition decodeInto (result : PageResult) (resp : PageResponse) : PageResult :=
  {| Transfers := default (Transfers result) (resp_transfers resp);
     PageKey := default (PageKey result) (resp_pageKey resp) |}.

(** What one call of getAssetTransfers did: the transfers returned, the
    number of RPC calls made, and the error. *)
Record Fetched : Type := {
  allTransfers : list AlchemyAssetTransfer;
  rpcCalls : nat;
  fetchErr : option error
}.

Definition maxPaginationIterations : nat := 100.
Definition maxTotalTransfers : Z := 10000.

Section Pagination.
(** The RPC call of the iteration of the given count, by the pageKey
    parameter sent with it (None: the parameter is not set), and ctx.Err()
    if the context is done when the iteration starts. *)
Variable CallContext : nat → option string → error + PageResponse.
Variable ctxDone : nat → option error.

Fixpoint paginate (remaining iterationCount : nat) (result : PageResult)
    (allTransfers : list AlchemyAssetTransfer) (pageKey : string) : Fetched :=
  match remaining with
  | O => {| allTransfers := allTransfers; rpcCalls := iterationCount; fetchErr := None |}
  | S remaining' =>
      match ctxDone iterationCount with
      | Some err =>
          {| allTransfers := allTransfers; rpcCalls := iterationCount;
             fetchErr := Some err |}
      | None =>
          if maxTotalTransfers <=? Z.of_nat (length allTransfers) then
            {| allTransfers := allTransfers; rpcCalls := iterationCount;
               fetchErr := None |}
          else
            let param := if bool_decide (pageKey = "") then None else Some pageKey in
            match CallContext iterationCount param with
            | inl err =>
                {| allTransfers := allTransfers; rpcCalls := S iterationCount;
                   fetchErr := Some (ErrWrap "alchemy_getAssetTransfers failed" err) |}
            | inr resp =>
                let result := decodeInto result resp in
                let allTransfers := allTransfers ++ Transfers result in
                if bool_decide (PageKey result = "") then
                  {| allTransfers := allTransfers; rpcCalls := S iterationCount;
                     fetchErr := None |}
                else if Z.of_nat (length (Transfers result)) =? 0 then
                  {| allTransfers := allTransfers; rpcCalls := S iterationCount;
                     fetchErr := None |}
                else
                  paginate remaining' (S iterationCount) result allTransfers
                    (PageKey result)
            end
      end
  end.

Definition getAssetTransfers : Fetched :=
  paginate maxPaginationIterations 0 {| Transfers := []; PageKey := "" |} [] "".

End Pagination.

Section Backfill.
Context {C : Type} `{!Cache C} {H : Type}.
Context {address : Type} `{!EqDecision address}.
Variable HexToAddress : string → address.
(** common.Address.Hex of go-ethereum. *)
Variable Hex : address → string.

(** processHistoricalTransfer, lines 263-297: the AlchemyActivity built
    from a transfer; the fields it does not set keep their zero value. *)
Definition toActivity (transfer : AlchemyAssetTransfer) (toAddress : address)
  : AlchemyActivity :=
  let toAddrStr := ToLower (Hex toAddress) in
  let toAddrStr := if negb (HasPrefix toAddrStr "0x") then ("0x" ++ toAddrStr)%string
                   else toAddrStr in
  let fromAddrStr := ToLower (TrimPrefix (t_From transfer) "0x") in
  let fromAddrStr := if negb (HasPrefix fromAddrStr "0x") then ("0x" ++ fromAddrStr)%string
                     else fromAddrStr in
  {| BlockNum := t_BlockNum transfer;
     Hash := t_Hash transfer;
     FromAddress := fromAddrStr;
     ToAddress := toAddrStr;
     Value := t_Value transfer;
     ERC721TokenID := None;
     Asset := t_Asset transfer;
     Category := t_Category transfer;
     RawContract :=
       if negb (bool_decide (t_RawContract_Address transfer = "")) then
         Some {| RawValue := t_RawContract_Value transfer;
                 Address := t_RawContract_Address transfer;
                 Decimals :=
                   if negb (bool_decide (t_RawContract_Decimal transfer = "")) then
                     match Atoi (t_RawContract_Decimal transfer) with
                     | Some dec => AnyInt dec
                     | None =>
                         match ParseInt64 (TrimPrefix (t_RawContract_Decimal transfer) "0x") 16 with
                         | Some dec => AnyInt dec
                         | None => AnyNil
                         end
                     end
                   else AnyNil |}
       else None;
     TypeTraceAddress := None |}.

Definition processHistoricalTransfer (p : Processor (H:=H) (address:=address))
    (rtCheck rtMark : Runtime) (transfer : AlchemyAssetTransfer) (toAddress : address)
    (st : State C H ProcessedActivity) : State C H ProcessedActivity * outcome :=
  ProcessActivity HexToAddress p rtCheck rtMark (toActivity transfer toAddress) st.

End Backfill.

End eth_backfill.

(** ** solana/backfill.go *)

Module solana_backfill.
Import solana.

Section Backfill.
Context {C : Type} `{!Cache C} {H : Type}.
Variable base58_Decode : string → option (list Z).
Context {float64 : Type}.
Variable quot_pow10 : Z → Z → float64.

Local Abbreviation PTx := (ProcessedTransaction (float64:=float64)).
Local Abbreviation World := (State C H PTx).

(** The fields of Backfill the loop reads.  The [cache] field and the cache
    of the processor are the one cache of the world: NewSolanaClient gives
    both the same instance. *)
Record Backfill : Type := {
  heliusAPIKey : string;
  processor : Processor (H:=H) (float64:=float64);
  backfilling : bool      (* the flag is set: a backfill is in progress *)
}.

Definition convertToAlchemyTx (tx : PTx) : AlchemySolanaTransaction :=
  {| Signature := pt_Signature tx; Transaction := []; Meta := [] |}.

(** What the environment supplies when the loop reaches one transaction:
    ctx.Err() if the context is done, and what the runtime supplies to the
    IsProcessed call of the loop and to the calls of ProcessTransaction. *)
Record TxTurn : Type := {
  tt_tx : PTx;
  tt_ctxErr : option error;
  tt_rtConsult : Runtime;
  tt_rtProcess : Runtime * Runtime * Runtime
}.

(** And for one address: ctx.Err() if the context is done, and the result
    of getTransactionsForAddress. *)
Record AddressTurn : Type := {
  at_ctxErr : option error;
  at_fetched : error + list TxTurn
}.

Record Counts : Type := { processedCount : Z; skippedCount : Z }.

(** The loop over the transactions of one address.  The outcome is how the
    call of Backfill ends inside the loop: Return (Some err) is the return of
    ctx.Err(), Return None is the end of the loop. *)
Fixpoint txLoop (b : Backfill) (txs : list TxTurn) (n : Counts) (st : World)
  : World * Counts * outcome :=
  match txs with
  | [] => (st, n, Return None)
  | turn :: rest =>
      match tt_ctxErr turn with
      | Some err => (st, n, Return (Some err))
      | None =>
          let tx := tt_tx turn in
          let '(st1, processed) := cache_check (tt_rtConsult turn) (pt_Signature tx) st in
          if processed then
            txLoop b rest {| processedCount := processedCount n;
                             skippedCount := skippedCount n + 1 |} st1
          else
            let '(rtC, rtS, rtM) := tt_rtProcess turn in
            let '(st2, o) :=
              ProcessTransaction base58_Decode quot_pow10 (processor b) rtC rtS rtM
                (convertToAlchemyTx tx) (pt_Slot tx) st1 in
            match o with
            | Return (Some _) => txLoop b rest n st2
            | Return None =>
                txLoop b rest {| processedCount := processedCount n + 1;
                                 skippedCount := skippedCount n |} st2
            | Panic => (st2, n, Panic)
            end
      end
  end.

Fixpoint addressLoop (b : Backfill) (turns : list AddressTurn) (n : Counts) (st : World)
  : World * Counts * outcome :=
  match turns with
  | [] => (st, n, Return None)
  | turn :: rest =>
      match at_ctxErr turn with
      | Some err => (st, n, Return (Some err))
      | None =>
          match at_fetched turn with
          | inl _ => addressLoop b rest n st
          | inr transactions =>
              match txLoop b transactions n st with
              | (st', n', Return None) => addressLoop b rest n' st'
              | (st', n', o) => (st', n', o)
              end
          end
      end
  end.

(** Backfill: [turns] gives, for each address in order, what the
    environment supplies. *)
Definition Backfill_run (b : Backfill) (turns : list AddressTurn) (st : World)
  : World * Counts * outcome :=
  let zero := {| processedCount := 0; skippedCount := 0 |} in
  if backfilling b then (st, zero, Return None)
  else if bool_decide (heliusAPIKey b = "")
  then (st, zero, Return (Some (ErrMsg "Helius API key not configured")))
  else if Z.of_nat (length turns) =? 0 then (st, zero, Return None)
  else addressLoop b turns zero st.

End Backfill.

End solana_backfill.

(** ** verifier.go, handler.go and webhook.go (package alchemywebhook) *)

Module alchemywebhook.
Import gostr.

(** http.Error(w, msg, code): the message and a newline. *)
Record Response : Type := {
  StatusCode : Z;
  ResponseBody : string
}.

Definition http_Error (msg : string) (code : Z) : Response :=
  {| StatusCode := code; ResponseBody := (msg ++ String "010" "")%string |}.

(** What HandleWebhook reads of the request.  [Body] holds the bytes the
    client delivered, and [ReadErr] the error, if any, the connection ended
    the body with instead of EOF. *)
Record Request : Type := {
  Method : string;
  Body : string;
  ReadErr : option string;
  XAlchemySignature : string
}.

(** io.ReadAll(http.MaxBytesReader(w, r.Body, n)): the reader fails once more
    than n bytes (0 for a negative n) have come. *)
Definition readBody (maxBodySize : Z) (r : Request) : string + string :=
  if Z.max 0 maxBodySize <? len (Body r) then inl "http: request body too large"%string
  else match ReadErr r with
       | Some err => inl err
       | None => inr (Body r)
       end.

Record Verifier : Type := { secret : string }.

Section Handler.
(** hex.EncodeToString of the HMAC-SHA256 of the payload under the secret
    (crypto/hmac, crypto/sha256, encoding/hex), by secret and payload. *)
Variable hmac_sha256_hex : string → string → string.
(** The world the processors act on, and what the runtime supplies to one
    call of a processor. *)
Context {W Env : Type}.
(** json.Unmarshal into eth.AlchemyWebhookPayload and into
    solana.AlchemySolanaWebhookPayload: the list Event.Activity, and the list
    Event.Transaction with Event.Slot; None is a decoding error. *)
Variable Unmarshal_eth : string → option (list eth.AlchemyActivity).
Variable Unmarshal_sol : string → option (list solana.AlchemySolanaTransaction * Z).

Definition Verify (v : Verifier) (payload signature : string) : option error :=
  if bool_decide (secret v = "") then Some (ErrMsg "signature secret not configured")
  else if bool_decide (signature = "") then Some (ErrMsg "signature header is missing")
  else
    let expectedSignature := hmac_sha256_hex (secret v) payload in
    if negb (bool_decide (signature = expectedSignature))
    then Some (ErrMsg "invalid signature")
    else None.

(** The interfaces EthereumProcessor and SolanaProcessor. *)
Definition EthereumProcessor : Type := Env → eth.AlchemyActivity → W → W * outcome.
Definition SolanaProcessor : Type :=
  Env → solana.AlchemySolanaTransaction → Z → W → W * outcome.

(** A nil verifier or processor is [None]. *)
Record Handler : Type := {
  verifier : option Verifier;
  ethProcessor : option EthereumProcessor;
  solProcessor : option SolanaProcessor;
  maxBodySize : Z;
  chainType : string
}.

Definition NewEthereumHandler (verifier : option Verifier)
    (processor : option EthereumProcessor) (maxBodySize : Z) : Handler :=
  {| verifier := verifier; ethProcessor := processor; solProcessor := None;
     maxBodySize := maxBodySize; chainType := "ethereum" |}.

Definition NewSolanaHandler (verifier : option Verifier)
    (processor : option SolanaProcessor) (maxBodySize : Z) : Handler :=
  {| verifier := verifier; ethProcessor := None; solProcessor := processor;
     maxBodySize := maxBodySize; chainType := "solana" |}.

(** for _, x := range items { if err := process(x); err != nil { log } }
    [env i] is what the runtime supplies to the call for the i-th item.  An
    error is logged and dropped; a panic leaves the loop (the boolean). *)
Fixpoint processEach {A : Type} (process : Env → A → W → W * outcome)
    (env : nat → Env) (i : nat) (items : list A) (w : W) : W * bool :=
  match items with
  | [] => (w, false)
  | x :: rest =>
      let '(w', o) := process (env i) x w in
      match o with
      | Panic => (w', true)
      | Return _ => processEach process env (S i) rest w'
      end
  end.

Definition handleEthereumWebhook (h : Handler) (env : nat → Env) (body : string)
    (w : W) : W * outcome :=
  match ethProcessor h with
  | None => (w, Return (Some (ErrMsg "Ethereum processor not configured")))
  | Some processor =>
      match Unmarshal_eth body with
      | None =>
          (w, Return (Some (ErrWrap "failed to parse webhook payload" (ErrMsg "json"))))
      | Some activity =>
          if Z.of_nat (length activity) =? 0 then (w, Return None)
          else
            let '(w', panicked) := processEach processor env 0 activity w in
            (w', if panicked then Panic else Return None)
      end
  end.

Definition handleSolanaWebhook (h : Handler) (env : nat → Env) (body : string)
    (w : W) : W * outcome :=
  match solProcessor h with
  | None => (w, Return (Some (ErrMsg "Solana processor not configured")))
  | Some processor =>
      match Unmarshal_sol body with
      | None =>
          (w, Return (Some (ErrWrap "failed to parse webhook payload" (ErrMsg "json"))))
      | Some (transaction, slot) =>
          if Z.of_nat (length transaction) =? 0 then (w, Return None)
          else
            let '(w', panicked) :=
              processEach (λ e tx, processor e tx slot) env 0 transaction w in
            (w', if panicked then Panic else Return None)
      end
  end.

(** HandleWebhook.  The deferred recover turns a panic (of a processor, or of
    the call through a nil verifier) into the answer 500. *)
Definition HandleWebhook (h : Handler) (env : nat → Env) (r : Request) (w : W)
  : W * Response :=
  if negb (bool_decide (Method r = "POST")) then (w, http_Error "Method not allowed" 405)
  else
    match readBody (maxBodySize h) r with
    | inl err =>
        if bool_decide (err = "http: request body too large")
        then (w, http_Error "Request body too large" 413)
        else (w, http_Error "Failed to read body" 400)
    | inr body =>
        if len body =? 0 then (w, http_Error "Empty body" 400)
        else
          match verifier h with
          | None => (w, http_Error "Internal server error" 500)
          | Some v =>
              match Verify v body (XAlchemySignature r) with
              | Some _ => (w, http_Error "Invalid signature" 401)
              | None =>
                  let '(w', o) :=
                    if bool_decide (chainType h = "ethereum")
                    then handleEthereumWebhook h env body w
                    else if bool_decide (chainType h = "solana")
                    then handleSolanaWebhook h env body w
                    else (w, Return None) in
                  match o with
                  | Panic => (w', http_Error "Internal server error" 500)
                  | Return (Some _) => (w', http_Error "Failed to process webhook" 500)
                  | Return None => (w', {| StatusCode := 200; ResponseBody := "OK" |})
                  end
              end
          end
    end.

End Handler.

(** *** webhook.go: executeWithRetry *)

Record RetryConfig : Type := {
  InitialDelay : Duration;
  MaxDelay : Duration;
  MaxAttempts : Z
}.

(** What one call of executeWithRetry did: the state [fn] left, the number
    of calls of [fn], the delays waited between them, oldest first, and the
    error returned. *)
Record RetryRun (S : Type) : Type := {
  rr_state : S;
  rr_calls : nat;
  rr_waits : list Duration;
  rr_err : option error
}.
Arguments rr_state {S}.
Arguments rr_calls {S}.
Arguments rr_waits {S}.
Arguments rr_err {S}.

Section Retry.
Context {S : Type}.
(** time.Duration(float64(delay) * wm.cfg.Retry.Multiplier) *)
Variable scaleDelay : Duration → Duration.
(** Whether the context is done before the wait after the attempt of the
    given index is over, and then ctx.Err(). *)
Variable ctxDone : nat → option error.

(** The loop, by the number of attempts that remain. *)
Fixpoint retryLoop (cfg : RetryConfig) (operation : string) (fn : S → S * option error)
    (remaining attempt : nat) (delay : Duration) (s : S) (waits : list Duration)
  : RetryRun S :=
  match remaining with
  | O =>
      {| rr_state := s; rr_calls := attempt; rr_waits := waits;
         rr_err := Some (ErrMsg ("operation " ++ operation ++ " failed after "
                                   ++ pretty (MaxAttempts cfg) ++ " attempts")) |}
  | Datatypes.S remaining' =>
      let '(s', err) := fn s in
      match err with
      | None =>
          {| rr_state := s'; rr_calls := Datatypes.S attempt; rr_waits := waits;
             rr_err := None |}
      | Some _ =>
          if Z.of_nat attempt <? MaxAttempts cfg - 1 then
            match ctxDone attempt with
            | Some ctxErr =>
                {| rr_state := s'; rr_calls := Datatypes.S attempt; rr_waits := waits;
                   rr_err := Some ctxErr |}
            | None =>
                let delay' := scaleDelay delay in
                let delay' := if MaxDelay cfg <? delay' then MaxDelay cfg else delay' in
                retryLoop cfg operation fn remaining' (Datatypes.S attempt) delay' s'
                  (waits ++ [delay])
            end
          else
            retryLoop cfg operation fn remaining' (Datatypes.S attempt) delay s' waits
      end
  end.

Definition executeWithRetry (cfg : RetryConfig) (operation : string)
    (fn : S → S * option error) (s : S) : RetryRun S :=
  retryLoop cfg operation fn (Z.to_nat (MaxAttempts cfg)) 0 (InitialDelay cfg) s [].

End Retry.

End alchemywebhook.

(** ** client.go: how the processors are plugged into the HTTP handler *)

Module client.
Import alchemywebhook.

(** The handler calls of a trace that returned nil. *)
Definition handler_successes {P : Type} (t : list (Event P)) : list P :=
  omap (λ ev, match ev with EvHandler x None => Some x | _ => None end) t.

Section Wiring.
Context {C : Type} `{!Cache C} {H : Type}.
Context {address : Type} `{!EqDecision address}.
Variable HexToAddress : string → address.
Variable base58_Decode : string → option (list Z).
Context {float64 : Type}.
Variable quot_pow10 : Z → Z → float64.

(** An *eth.Processor as an EthereumProcessor: one call takes from the
    runtime what the IsProcessed and the MarkProcessed call read. *)
Definition EthereumProcessor_of (p : eth.Processor (H:=H) (address:=address))
  : EthereumProcessor (W:=State C H eth.ProcessedActivity) (Env:=Runtime * Runtime) :=
  λ e activity st, eth.ProcessActivity HexToAddress p e.1 e.2 activity st.

(** A *solana.Processor as a SolanaProcessor; the clock reading of the
    Timestamp field is that of the consult. *)
Definition SolanaProcessor_of (p : solana.Processor (H:=H) (float64:=float64))
  : SolanaProcessor (W:=State C H (solana.ProcessedTransaction (float64:=float64)))
      (Env:=Runtime * Runtime) :=
  λ e tx slot st, solana.ProcessTransaction base58_Decode quot_pow10 p e.1 e.1 e.2 tx slot st.

End Wiring.

End client.

(** ** config.go, cache_helper.go and cache/factory.go *)

Module config.
Import gofloat cache.

(** Comparisons of a double with the constants 0 and 1; every comparison
    with a NaN is false. *)
Definition f64_lt0 (v : float64) : bool :=
  match v with
  | F64Fin true _ _ | F64Inf true => true
  | _ => false
  end.

Definition f64_le0 (v : float64) : bool :=
  match v with
  | F64Zero _ | F64Fin true _ _ | F64Inf true => true
  | _ => false
  end.

Definition f64_gt1 (v : float64) : bool :=
  match v with
  | F64Inf false => true
  | F64Fin false m e => if 0 <=? e then 1 <? Z.pos m * 2 ^ e else 2 ^ (- e) <? Z.pos m
  | _ => false
  end.

Record MemoryConfig : Type := {
  MaxSize : Z;
  CleanupInterval : Duration;
  EnableLRU : bool
}.

(** The fields of CacheConfig and of Config that Validate and newCache
    read. *)
Record CacheConfig : Type := {
  Enabled : bool;
  Type_ : string;
  RedisAddress : string;
  Memory : MemoryConfig
}.

Record Config : Type := {
  AlchemyAPIKey : string;
  AlchemyAuthToken : string;
  WebhookURL : string;
  SignatureSecret : string;
  Cache_ : CacheConfig;
  BackfillEnabled : bool;
  RPCURL : string;
  HeliusAPIKey : string;
  Threshold : float64;
  Multiplier : float64;
  MaxAddressesPerWebhook : Z
}.

Definition Validate (c : Config) : option error :=
  if bool_decide (AlchemyAPIKey c = "") && bool_decide (AlchemyAuthToken c = "")
  then Some (ErrMsg "either AlchemyAPIKey or AlchemyAuthToken must be set")
  else if bool_decide (WebhookURL c = "") then Some (ErrMsg "WebhookURL is required")
  else if bool_decide (SignatureSecret c = "")
  then Some (ErrMsg "SignatureSecret is required")
  else if Enabled (Cache_ c)
          && negb (bool_decide (Type_ (Cache_ c) = "redis"))
          && negb (bool_decide (Type_ (Cache_ c) = "memory"))
  then Some (ErrMsg ("invalid cache type: " ++ Type_ (Cache_ c)
                       ++ " (must be 'redis' or 'memory')"))
  else if Enabled (Cache_ c) && bool_decide (Type_ (Cache_ c) = "redis")
          && bool_decide (RedisAddress (Cache_ c) = "")
  then Some (ErrMsg "Redis address is required when using Redis cache")
  else if BackfillEnabled c && bool_decide (RPCURL c = "")
          && bool_decide (HeliusAPIKey c = "")
  then Some (ErrMsg "either RPCURL (for Ethereum) or HeliusAPIKey (for Solana) must be set when backfill is enabled")
  else if f64_lt0 (Threshold c) || f64_gt1 (Threshold c)
  then Some (ErrMsg "circuit breaker threshold must be between 0 and 1")
  else if f64_le0 (Multiplier c)
  then Some (ErrMsg "retry multiplier must be greater than 0")
  else if MaxAddressesPerWebhook c <=? 0
  then Some (ErrMsg "max addresses per webhook must be greater than 0")
  else None.

(** What NewCache gives: a cache, an error, or a panic of a constructor. *)
Inductive created : Type :=
| CreatedNoOp
| CreatedMemory (c : MemoryCache) (cleanupInterval : Duration)
| CreatedRedis (address : string)
| CreateError (err : error)
| CreatePanic.

Definition defaultCleanupInterval : Duration := 1 * Hour.

(** NewMemoryCache with what the Go runtime checks: time.NewTicker panics
    on an interval that is not positive, make on a negative capacity. *)
Definition NewMemoryCache_checked (maxSize : Z) (cleanupInterval : Duration)
    (enableLRU : bool) : created :=
  if (cleanupInterval <=? 0) || (maxSize <? 0) then CreatePanic
  else CreatedMemory (NewMemoryCache maxSize enableLRU) cleanupInterval.

(** NewCache of cache/factory.go; [ping] tells whether the Redis server
    answers the PING of NewRedisCache. *)
Definition NewCache (ping : bool) (cfg : CacheConfig) : created :=
  if negb (Enabled cfg) then CreatedNoOp
  else if bool_decide (Type_ cfg = "memory") then
    let cleanupInterval := CleanupInterval (Memory cfg) in
    let cleanupInterval :=
      if cleanupInterval =? 0 then defaultCleanupInterval else cleanupInterval in
    NewMemoryCache_checked (MaxSize (Memory cfg)) cleanupInterval (EnableLRU (Memory cfg))
  else if bool_decide (Type_ cfg = "redis") then
    if ping then CreatedRedis (RedisAddress cfg)
    else CreateError (ErrWrap "failed to connect to Redis" (ErrMsg "redis"))
  else CreateError (ErrMsg ("unknown cache type: " ++ Type_ cfg)).

(** newCache of cache_helper.go: the same fields handed on. *)
Definition newCache (ping : bool) (cfg : CacheConfig) : created :=
  if negb (Enabled cfg) then CreatedNoOp
  else NewCache ping {| Enabled := Enabled cfg; Type_ := Type_ cfg;
                        RedisAddress := if bool_decide (Type_ cfg = "redis")
                                        then RedisAddress cfg else "";
                        Memory := Memory cfg |}.

End config.

(** ** cache/memory.go Close, and client.go Start, Stop and Health *)

Module lifecycle.
Import cache.

(** An in-process cache, open or closed.  Close stops the ticker, closes
    the stop channel and sets entries and accessOrder to nil. *)
Inductive Closable : Type :=
| Open (c : MemoryCache)
| Closed.

(** Closing the stop channel a second time panics. *)
Definition Close (m : Closable) : Closable * outcome :=
  match m with
  | Open _ => (Closed, Return None)
  | Closed => (Closed, Panic)
  end.

(** A lookup in the nil map finds nothing. *)
Definition Closable_IsProcessed (rt : Runtime) (m : Closable) (txHash : string)
  : Closable * (bool * option error) :=
  match m with
  | Open c => let '(c', res) := MemoryCache_IsProcessed rt c txHash in (Open c', res)
  | Closed => (Closed, (false, None))
  end.

(** The assignment to an entry of the nil map panics. *)
Definition Closable_MarkProcessed (rt : Runtime) (m : Closable) (txHash : string)
    (ttl : Duration) : Closable * outcome :=
  match m with
  | Open c => (Open (MemoryCache_MarkProcessed rt c txHash ttl).1, Return None)
  | Closed => (Closed, Panic)
  end.

(** The fields of BaseClient that Start, Stop and Health read and write, for
    a client whose cache is the in-process one. *)
Record BaseClient : Type := {
  started : bool;
  cache_ : Closable
}.

Definition Start (c : BaseClient) : BaseClient * outcome :=
  if started c then (c, Return (Some (ErrMsg "client already started")))
  else ({| started := true; cache_ := cache_ c |}, Return None).

(** Stop: a panic of Close leaves the function before [started] is reset. *)
Definition Stop (c : BaseClient) : BaseClient * outcome :=
  if negb (started c) then (c, Return None)
  else
    match Close (cache_ c) with
    | (m, Panic) => ({| started := started c; cache_ := m |}, Panic)
    | (m, Return _) => ({| started := false; cache_ := m |}, Return None)
    end.

Definition Health (c : BaseClient) : option error :=
  if negb (started c) then Some (ErrMsg "client not started") else None.

End lifecycle.

(** ** Sample inputs *)

Module samples.
Import gostr gofloat cache eth.
Local Open Scope string_scope.

Definition addrA : string := "0xaaaaaaaaaaaaaaaaaaaaaaaaaaaaaaaaaaaaaaaa".
Definition addrB : string := "0xBBBBBBBBBBBBBBBBBBBBbbbbbbbbbbbbbbbbbbbb".
Definition hashH : string :=
  "0x00000000000000000000000000000000000000000000000000000000000000AB".

(** 1.5 as a double: 3 * 2^-1. *)
Definition one_and_a_half : float64 := F64Fin false 3 (-1).

(** An external transfer of [v] ether in block [blockNum]. *)
Definition external (blockNum : string) (v : option float64) : AlchemyActivity :=
  {| BlockNum := blockNum; Hash := hashH; FromAddress := addrA; ToAddress := addrB;
     Value := v; ERC721TokenID := None; Asset := "ETH"; Category := "external";
     RawContract := None; TypeTraceAddress := None |}.

(** The same transfer as the internal sub-call [t] of the transaction. *)
Definition traced (t : string) : AlchemyActivity :=
  {| BlockNum := "0x1f"; Hash := hashH; FromAddress := addrA; ToAddress := addrB;
     Value := Some one_and_a_half; ERC721TokenID := None; Asset := "ETH";
     Category := "internal"; RawContract := None; TypeTraceAddress := Some t |}.

(** What the handler is called with for [external "0x1f" (Some one_and_a_half)]
    on the main chain. *)
Definition delivered_external : ProcessedActivity :=
  {| pa_TxHash := "0x00000000000000000000000000000000000000000000000000000000000000ab";
     pa_FromAddress := addrA; pa_ToAddress := addrB;
     pa_Value := 1500000000000000000; pa_Currency := "ETH";
     pa_Category := "external"; pa_BlockNumber := 31; pa_Network := "MAINNET";
     pa_IsInternal := false |}.

(** What the handler is called with for [traced t] on the main chain. *)
Definition delivered_traced : ProcessedActivity :=
  {| pa_TxHash := "0x00000000000000000000000000000000000000000000000000000000000000ab";
     pa_FromAddress := addrA; pa_ToAddress := addrB;
     pa_Value := 1500000000000000000; pa_Currency := "ETH";
     pa_Category := "internal"; pa_BlockNumber := 31; pa_Network := "INTERNAL";
     pa_IsInternal := true |}.

(** An erc721 activity with token id [tid] and raw-contract block [rc]. *)
Definition nft (tid : option string) (rc : option AlchemyRawContract) : AlchemyActivity :=
  {| BlockNum := "0x1f"; Hash := hashH; FromAddress := addrA; ToAddress := addrB;
     Value := None; ERC721TokenID := tid; Asset := "NFT"; Category := "erc721";
     RawContract := rc; TypeTraceAddress := None |}.

Definition rc_no_address : AlchemyRawContract :=
  {| RawValue := ""; Address := ""; Decimals := AnyNil |}.

(** A handler that counts its invocations and returns nil, and one that
    returns an error. *)
Definition countingHandler {P : Type} : Handler nat P := λ n _, (S n, None).
Definition failingHandler {P : Type} : Handler nat P :=
  λ n _, (S n, Some (ErrMsg "downstream unavailable")).

Definition ethProcessor (h : option (Handler nat ProcessedActivity))
  : Processor (H:=nat) (address:=string) :=
  {| tokenAddresses := []; handler := h; chainID := "eth-mainnet" |}.

(** A world with the cache [c], a fresh handler and no call made yet. *)
Definition world {C P : Type} (c : option C) : State C nat P :=
  {| st_cache := c; st_handler := 0%nat; st_trace := [] |}.

(** A Solana transaction over the accounts Alice and Bob with the given
    balances and no instruction. *)
Definition solTx (pre post : list Z) : solana.AlchemySolanaTransaction :=
  {| solana.Signature := "5sig";
     solana.Transaction :=
       [{| solana.Message :=
             [{| solana.Instructions := []; solana.AccountKeys := ["Alice"; "Bob"] |}] |}];
     solana.Meta :=
       [{| solana.Fee := 5000; solana.PreBalances := pre; solana.PostBalances := post;
           solana.InnerInstructions := []; solana.InnerInstructionsNone := true;
           solana.LogMessages := [] |}] |}.

Definition solProcessor (h : option (Handler nat (solana.ProcessedTransaction (float64:=Z))))
  : solana.Processor (H:=nat) (float64:=Z) :=
  {| solana.tokenMints := []; solana.handler := h; solana.chainID := "solana-mainnet" |}.

(** The activity [a] with its hash spelled [hash]. *)
Definition with_hash (hash : string) (a : AlchemyActivity) : AlchemyActivity :=
  {| BlockNum := BlockNum a; Hash := hash; FromAddress := FromAddress a;
     ToAddress := ToAddress a; Value := Value a; ERC721TokenID := ERC721TokenID a;
     Asset := Asset a; Category := Category a; RawContract := RawContract a;
     TypeTraceAddress := TypeTraceAddress a |}.

(** A raw-contract block with a contract address and the raw value 0x2a. *)
Definition rc_with_address : AlchemyRawContract :=
  {| RawValue := "0x2a"; Address := "0xcccccccccccccccccccccccccccccccccccccccc";
     Decimals := AnyNil |}.

(** What the handler is called with for
    [nft (Some "0x07") (Some rc_with_address)] on the main chain. *)
Definition delivered_nft : ProcessedActivity :=
  {| pa_TxHash := "0x00000000000000000000000000000000000000000000000000000000000000ab";
     pa_FromAddress := addrA; pa_ToAddress := addrB;
     pa_Value := 42; pa_Currency := "NFT";
     pa_Category := "erc721"; pa_BlockNumber := 31; pa_Network := "ERC-20";
     pa_IsInternal := false |}.

(** An activity of a category the normalizer does not know. *)
Definition special : AlchemyActivity :=
  {| BlockNum := "0x1f"; Hash := hashH; FromAddress := addrA; ToAddress := addrB;
     Value := Some one_and_a_half; ERC721TokenID := None; Asset := "ETH";
     Category := "specialnft"; RawContract := None; TypeTraceAddress := None |}.

(** A decoder of the Base58 alphabet (the Bitcoin one, which mr-tron/base58
    uses), for the sample runs: the digits as a number in base 58, written in
    bytes, most significant first, after one zero byte per leading '1'. *)
Definition b58_alphabet : string :=
  "123456789ABCDEFGHJKLMNPQRSTUVWXYZabcdefghijkmnopqrstuvwxyz".

Fixpoint b58_index (c : ascii) (alphabet : string) (i : Z) : option Z :=
  match alphabet with
  | EmptyString => None
  | String d r => if bool_decide (c = d) then Some i else b58_index c r (i + 1)%Z
  end.

Fixpoint b58_value (acc : Z) (s : string) : option Z :=
  match s with
  | EmptyString => Some acc
  | String c r =>
      match b58_index c b58_alphabet 0 with
      | Some d => b58_value (acc * 58 + d)%Z r
      | None => None
      end
  end.

Fixpoint b58_leading_ones (s : string) : nat :=
  match s with
  | String "1" r => S (b58_leading_ones r)
  | _ => O
  end.

Fixpoint b58_bytes (fuel : nat) (n : Z) (acc : list Z) : list Z :=
  match fuel with
  | O => acc
  | S fuel' =>
      if (n =? 0)%Z then acc else b58_bytes fuel' (n / 256)%Z ((n mod 256)%Z :: acc)
  end.

Definition b58_decode (s : string) : option (list Z) :=
  if bool_decide (s = "") then None
  else match b58_value 0 s with
       | Some n =>
           Some (replicate (b58_leading_ones s) 0 ++ b58_bytes (String.length s) n [])%list
       | None => None
       end.

(** A Solana transaction with one SPL Token instruction of the accounts
    [accounts] carrying [data], over the account keys Alice, Bob, the token
    program and the mint [mintKey]. *)
Definition mintKey : string := "EPjFWdd5AufqSSqeM2qN1xzybapC8G4wEGGkZwyTDt1v".

Definition splTx (data : string) (accounts : list Z) : solana.AlchemySolanaTransaction :=
  {| solana.Signature := "5sig";
     solana.Transaction :=
       [{| solana.Message :=
             [{| solana.Instructions :=
                   [{| solana.Data := data; solana.ProgramIDIndex := 2;
                       solana.Accounts := accounts |}];
                 solana.AccountKeys :=
                   ["Alice"; "Bob"; solana.splTokenProgramID; mintKey] |}] |}];
     solana.Meta :=
       [{| solana.Fee := 5000; solana.PreBalances := [0; 0; 0; 0];
           solana.PostBalances := [0; 0; 0; 0];
           solana.InnerInstructions := []; solana.InnerInstructionsNone := true;
           solana.LogMessages := [] |}] |}.

Definition usdcProcessor (h : option (Handler nat (solana.ProcessedTransaction (float64:=Z))))
  : solana.Processor (H:=nat) (float64:=Z) :=
  {| solana.tokenMints := [("USDC", mintKey)]; solana.handler := h;
     solana.chainID := "solana-mainnet" |}.

(** The transfer of 1000000 base units that the Transfer instruction
    "3QCwqmHZ4mdq" (type 3, amount 1000000) of Alice to Bob stands for, with
    the amount left in base units. *)
Definition usdc_transfer : solana.TokenTransfer (float64:=Z) :=
  {| solana.tt_FromUserAccount := "Alice"; solana.tt_ToUserAccount := "Bob";
     solana.tt_FromTokenAccount := "Alice"; solana.tt_ToTokenAccount := "Bob";
     solana.tt_TokenAmount := 1000000; solana.tt_Mint := mintKey;
     solana.tt_Currency := "USDC" |}.

(** Stand-ins, for the sample runs, of the MAC and of the JSON decoder: the
    MAC of a payload is the secret followed by the payload, and the one body
    that decodes is "payload", to the activities [batch]. *)
Definition sample_mac (secret payload : string) : string := secret ++ payload.

Definition batch : list AlchemyActivity :=
  [external "0x1f" (Some one_and_a_half); traced "0_1"].

Definition sample_Unmarshal_eth (body : string) : option (list AlchemyActivity) :=
  if bool_decide (body = "payload") then Some batch else None.

Definition sample_Unmarshal_sol (body : string)
  : option (list solana.AlchemySolanaTransaction * Z) := None.

Definition signed_post : alchemywebhook.Request :=
  {| alchemywebhook.Method := "POST"; alchemywebhook.Body := "payload";
     alchemywebhook.ReadErr := None;
     alchemywebhook.XAlchemySignature := "s3cretpayload" |}.

(** A transfer as alchemy_getAssetTransfers reports an NFT: category
    erc721, the token contract in rawContract, no value. *)
Definition nft_transfer : eth_backfill.AlchemyAssetTransfer :=
  {| eth_backfill.t_BlockNum := "0x1f"; eth_backfill.t_Hash := hashH;
     eth_backfill.t_From := addrA; eth_backfill.t_To := addrB;
     eth_backfill.t_Value := None; eth_backfill.t_Asset := "NFT";
     eth_backfill.t_Category := "erc721";
     eth_backfill.t_RawContract_Value := "0x2a";
     eth_backfill.t_RawContract_Address := "0xcccccccccccccccccccccccccccccccccccccccc";
     eth_backfill.t_RawContract_Decimal := "" |}.

(** What the handler is called with for [nft_transfer] to the address
    [addrB], on the main chain. *)
Definition delivered_backfilled_nft : ProcessedActivity :=
  {| pa_TxHash := "0x00000000000000000000000000000000000000000000000000000000000000ab";
     pa_FromAddress := addrA;
     pa_ToAddress := "0xbbbbbbbbbbbbbbbbbbbbbbbbbbbbbbbbbbbbbbbb";
     pa_Value := 42; pa_Currency := "NFT";
     pa_Category := "erc721"; pa_BlockNumber := 31; pa_Network := "ERC-20";
     pa_IsInternal := false |}.

(** Two transactions as getEnhancedTransactions returns them, met with the
    context alive. *)
Definition fetched (sig : string) : solana_backfill.TxTurn (float64:=Z) :=
  {| solana_backfill.tt_tx :=
       {| solana.pt_Signature := sig; solana.pt_Slot := 0;
          solana.pt_NativeTransfers := []; solana.pt_TokenTransfers := [];
          solana.pt_Fee := 0; solana.pt_Timestamp := 1 |};
     solana_backfill.tt_ctxErr := None;
     solana_backfill.tt_rtConsult := rt_at 1;
     solana_backfill.tt_rtProcess := (rt_at 2, rt_at 3, rt_at 4) |}.

Definition solBackfill : solana_backfill.Backfill (H:=nat) (float64:=Z) :=
  {| solana_backfill.heliusAPIKey := "key";
     solana_backfill.processor := usdcProcessor (Some countingHandler);
     solana_backfill.backfilling := false |}.

(** A configuration that passes Validate, with an in-process cache whose
    size is negative. *)
Definition negative_size_config : config.Config :=
  {| config.AlchemyAPIKey := "key"; config.AlchemyAuthToken := "";
     config.WebhookURL := "https://example.org/webhook";
     config.SignatureSecret := "s3cret";
     config.Cache_ :=
       {| config.Enabled := true; config.Type_ := "memory"; config.RedisAddress := "";
          config.Memory := {| config.MaxSize := -1; config.CleanupInterval := 0;
                              config.EnableLRU := false |} |};
     config.BackfillEnabled := false; config.RPCURL := ""; config.HeliusAPIKey := "";
     config.Threshold := F64Fin false 7 (-10); config.Multiplier := F64Fin false 1 1;
     config.MaxAddressesPerWebhook := 100000 |}.

(** A server of two pages: the first answer carries the page key "k1", the
    answer to "k1" carries no page key. *)
Definition two_pages (i : nat) (pageKey : option string)
  : error + eth_backfill.PageResponse :=
  match pageKey with
  | None => inr {| eth_backfill.resp_transfers := Some [nft_transfer];
                   eth_backfill.resp_pageKey := Some "k1" |}
  | Some _ => inr {| eth_backfill.resp_transfers := Some [nft_transfer; nft_transfer];
                     eth_backfill.resp_pageKey := None |}
  end.

(** A Redis backend whose server does not answer. *)
Definition redis_down : RedisCache :=
  {| redis_up := false; redis_keys := ∅; prefix := "alchemy_webhook:" |}.

End samples.

(** * Properties *)

Module cache_props.
Import cache.

(** ** The recency list *)

Lemma removeFromAccessOrder_elem k k' (l : list string) :
  k' ∈ removeFromAccessOrder k l → k' ∈ l.
Proof.
  induction l as [|x l IH]; simpl; [done|].
  case_bool_decide; set_solver.
Qed.

Lemma removeFromAccessOrder_NoDup k (l : list string) :
  NoDup l → NoDup (removeFromAccessOrder k l).
Proof.
  induction 1 as [|x l Hx Hl IH]; simpl; [constructor|].
  case_bool_decide; [done|].
  constructor; [|done].
  intros Hin. by apply removeFromAccessOrder_elem in Hin.
Qed.

Lemma removeFromAccessOrder_elem_NoDup k k' (l : list string) :
  NoDup l → k' ∈ removeFromAccessOrder k l ↔ k' ∈ l ∧ k' ≠ k.
Proof.
  induction 1 as [|x l Hx Hl IH]; simpl; [set_solver|].
  case_bool_decide; subst.
  - split; [|set_solver]. intros Hin. split; [set_solver|]. by intros ->.
  - rewrite !elem_of_cons, IH. naive_solver.
Qed.

Lemma removeFromAccessOrder_length k (l : list string) :
  k ∈ l → S (length (removeFromAccessOrder k l)) = length l.
Proof.
  induction l as [|x l IH]; simpl; [by intros ?%elem_of_nil|].
  case_bool_decide; [done|].
  intros [->|Hin]%elem_of_cons; [done|]. simpl. by rewrite IH.
Qed.

Lemma updateAccessOrder_NoDup k (l : list string) :
  NoDup l → NoDup (updateAccessOrder k l).
Proof.
  intros Hl. unfold updateAccessOrder. apply NoDup_app. split_and!.
  - by apply removeFromAccessOrder_NoDup.
  - intros x Hx ->%list_elem_of_singleton.
    apply removeFromAccessOrder_elem_NoDup in Hx; naive_solver.
  - apply NoDup_singleton.
Qed.

Lemma updateAccessOrder_elem k k' (l : list string) :
  NoDup l → k' ∈ updateAccessOrder k l ↔ k' = k ∨ k' ∈ l.
Proof.
  intros Hl. unfold updateAccessOrder.
  rewrite elem_of_app, list_elem_of_singleton, removeFromAccessOrder_elem_NoDup by done.
  destruct (decide (k' = k)); naive_solver.
Qed.

(** ** Agreement of the recency list with the key set *)

Lemma order_agrees_length c :
  order_agrees c → length (accessOrder c) = size (entries c).
Proof.
  intros [Hnd Hin].
  rewrite <- size_dom, <- (size_list_to_set (C:=gset string)) by done.
  f_equal. apply set_eq. intros k.
  by rewrite elem_of_list_to_set, elem_of_dom.
Qed.

Lemma order_agrees_delete c k :
  order_agrees c →
  order_agrees (with_entries c (delete k (entries c))
                  (removeFromAccessOrder k (accessOrder c))).
Proof.
  intros [Hnd Hin]. split; simpl.
  - by apply removeFromAccessOrder_NoDup.
  - intros k'. rewrite removeFromAccessOrder_elem_NoDup, Hin by done.
    rewrite lookup_delete. case_decide; subst; [|naive_solver].
    split; [naive_solver|]. by intros ?%is_Some_None.
Qed.

Lemma order_agrees_touch c k :
  order_agrees c → is_Some (entries c !! k) →
  order_agrees (with_entries c (entries c) (updateAccessOrder k (accessOrder c))).
Proof.
  intros [Hnd Hin] Hk. split; simpl.
  - by apply updateAccessOrder_NoDup.
  - intros k'. rewrite updateAccessOrder_elem, Hin by done. naive_solver.
Qed.

Lemma order_agrees_insert c k t :
  order_agrees c →
  order_agrees (with_entries c (<[k := t]> (entries c))
                  (updateAccessOrder k (accessOrder c))).
Proof.
  intros [Hnd Hin]. split; simpl.
  - by apply updateAccessOrder_NoDup.
  - intros k'. rewrite updateAccessOrder_elem, Hin, lookup_insert by done.
    case_decide; subst; naive_solver.
Qed.

Lemma order_agrees_evict_oldest c oldest rest :
  order_agrees c → accessOrder c = oldest :: rest →
  order_agrees (with_entries c (delete oldest (entries c)) rest).
Proof.
  intros Hc Ho. pose proof (order_agrees_delete c oldest Hc) as Hd.
  rewrite Ho in Hd. simpl in Hd. by rewrite bool_decide_eq_true_2 in Hd.
Qed.

(** ** Configuration is never changed *)

Lemma IsProcessed_config rt c k :
  maxSize (MemoryCache_IsProcessed rt c k).1 = maxSize c ∧
  enableLRU (MemoryCache_IsProcessed rt c k).1 = enableLRU c.
Proof.
  unfold MemoryCache_IsProcessed.
  destruct (entries c !! k); [destruct (After _ _)|]; done.
Qed.

Lemma evict_config rt c :
  maxSize (evict rt c) = maxSize c ∧ enableLRU (evict rt c) = enableLRU c.
Proof.
  unfold evict. destruct (maxSize c <=? len_entries c); [|done].
  destruct (enableLRU c) eqn:E; [destruct (accessOrder c)|]; done.
Qed.

Lemma MarkProcessed_config rt c k ttl :
  maxSize (MemoryCache_MarkProcessed rt c k ttl).1 = maxSize c ∧
  enableLRU (MemoryCache_MarkProcessed rt c k ttl).1 = enableLRU c.
Proof. unfold MemoryCache_MarkProcessed. simpl. apply evict_config. Qed.

Lemma sweep_config t (l : list (string * Z)) c :
  maxSize (foldl (sweepStep t) c l) = maxSize c ∧
  enableLRU (foldl (sweepStep t) c l) = enableLRU c.
Proof.
  revert c. induction l as [|kv l IH]; intros c; simpl; [done|].
  destruct (IH (sweepStep t c kv)) as [-> ->].
  unfold sweepStep. by destruct (After _ _).
Qed.

Lemma run_config c ops :
  maxSize (run c ops) = maxSize c ∧ enableLRU (run c ops) = enableLRU c.
Proof.
  revert c. induction ops as [|o ops IH]; intros c; [done|].
  unfold run in *. simpl. destruct (IH (apply_op c o)) as [-> ->].
  destruct o as [rt k|rt k ttl|rt].
  - exact (IsProcessed_config rt c k).
  - exact (MarkProcessed_config rt c k ttl).
  - exact (sweep_config _ _ c).
Qed.

(** ** Eviction frees one slot of a full map *)

Lemma rangeOrder_lookup rt (e : gmap string Z) k v :
  rangeOrder_ok rt → (k, v) ∈ rangeOrder rt e → e !! k = Some v.
Proof. intros Hok Hin. rewrite (Hok e) in Hin. by apply elem_of_map_to_list. Qed.

Lemma rangeOrder_nonempty rt (e : gmap string Z) :
  rangeOrder_ok rt → size e ≠ 0%nat → rangeOrder rt e ≠ [].
Proof.
  intros Hok Hsz Hnil. apply Hsz.
  by rewrite <- length_map_to_list, <- (Hok e), Hnil.
Qed.

Lemma evictAny_size rt (e : gmap string Z) :
  rangeOrder_ok rt → size e ≠ 0%nat → size (evictAny rt e) = pred (size e).
Proof.
  intros Hok Hsz. unfold evictAny.
  destruct (List.find _ _) as [[k v]|] eqn:Hf.
  - apply find_some in Hf as [Hin _]. apply list_elem_of_In in Hin.
    apply map_size_delete_Some. exists v. by eapply rangeOrder_lookup.
  - destruct (0 <? Z.of_nat (size e)) eqn:Hpos; [|lia].
    pose proof (rangeOrder_nonempty rt e Hok Hsz) as Hne.
    destruct (rangeOrder rt e) as [|[k v] l] eqn:Hr; [done|].
    apply map_size_delete_Some. exists v.
    eapply rangeOrder_lookup; [done|]. rewrite Hr. left.
Qed.

Lemma evict_frees_slot rt c :
  rangeOrder_ok rt → 1 ≤ maxSize c → capacity_inv c →
  len_entries (evict rt c) ≤ maxSize c - 1 ∧
  (len_entries c = maxSize c → len_entries (evict rt c) = maxSize c - 1) ∧
  (enableLRU c = true → order_agrees (evict rt c)).
Proof.
  intros Hok Hmax [Hcap Hord]. unfold evict, len_entries in *.
  destruct (maxSize c <=? Z.of_nat (size (entries c))) eqn:Hfull;
    [|split_and!; [lia|lia|done]].
  assert (size (entries c) ≠ 0%nat) as Hne by lia.
  destruct (enableLRU c) eqn:Hlru.
  - specialize (Hord eq_refl).
    pose proof (order_agrees_length c Hord) as Hlen.
    destruct (accessOrder c) as [|oldest rest] eqn:Ho; [simpl in Hlen; lia|].
    assert (is_Some (entries c !! oldest)) as Hin.
    { apply Hord. rewrite Ho. left. }
    simpl. rewrite map_size_delete_Some by done.
    split_and!; [lia|lia|]. intros _. by apply order_agrees_evict_oldest.
  - simpl. rewrite evictAny_size by done. split_and!; [lia|lia|done].
Qed.

(** ** Each operation preserves the invariant *)

Lemma IsProcessed_inv rt c k :
  capacity_inv c → capacity_inv (MemoryCache_IsProcessed rt c k).1.
Proof.
  intros [Hcap Hord]. unfold MemoryCache_IsProcessed.
  destruct (entries c !! k) as [t|] eqn:Hk; [|done].
  destruct (After (now rt) t); split; simpl; unfold len_entries in *; simpl.
  - pose proof (map_size_delete k (entries c)) as Hs. rewrite Hk in Hs. lia.
  - intros Hlru. rewrite Hlru. by apply order_agrees_delete, Hord.
  - done.
  - intros Hlru. rewrite Hlru. apply order_agrees_touch; [by apply Hord|by eexists].
Qed.

Lemma MarkProcessed_inv rt c k ttl :
  rangeOrder_ok rt → 1 ≤ maxSize c → capacity_inv c →
  capacity_inv (MemoryCache_MarkProcessed rt c k ttl).1.
Proof.
  intros Hok Hmax Hinv.
  destruct (evict_frees_slot rt c Hok Hmax Hinv) as (Hsz & _ & Hord).
  destruct (evict_config rt c) as [Hm Hl].
  unfold MemoryCache_MarkProcessed. split; simpl; unfold len_entries in *; simpl.
  - rewrite Hm. pose proof (map_size_insert k (now rt + ttl) (entries (evict rt c))) as Hs.
    destruct (entries (evict rt c) !! k); simpl in Hs; lia.
  - rewrite Hl. intros Hlru. rewrite Hlru. by apply order_agrees_insert, Hord.
Qed.

Lemma sweepStep_inv t c kv : capacity_inv c → capacity_inv (sweepStep t c kv).
Proof.
  intros [Hcap Hord]. unfold sweepStep. destruct (After t kv.2); [|done].
  split; simpl; unfold len_entries in *; simpl.
  - pose proof (map_size_delete kv.1 (entries c)) as Hs.
    destruct (entries c !! kv.1); simpl in Hs; lia.
  - intros Hlru. rewrite Hlru. by apply order_agrees_delete, Hord.
Qed.

Lemma cleanupExpired_tick_inv rt c :
  capacity_inv c → capacity_inv (cleanupExpired_tick rt c).
Proof.
  unfold cleanupExpired_tick. generalize (rangeOrder rt (entries c)) as l.
  intros l. revert c. induction l as [|kv l IH]; intros c Hc; [done|].
  simpl. by apply IH, sweepStep_inv.
Qed.

Lemma NewMemoryCache_inv m lru : 0 ≤ m → capacity_inv (NewMemoryCache m lru).
Proof.
  intros Hm. split; simpl.
  - unfold len_entries. simpl. rewrite map_size_empty. lia.
  - intros _. split; simpl; [constructor|].
    intros k. rewrite lookup_empty. split; [by intros ?%elem_of_nil|by intros ?%is_Some_None].
Qed.

Lemma run_inv c ops :
  1 ≤ maxSize c → Forall (λ o, rangeOrder_ok (op_runtime o)) ops →
  capacity_inv c → capacity_inv (run c ops).
Proof.
  intros Hmax Hops. revert c Hmax.
  induction Hops as [|o ops Ho Hops IH]; intros c Hmax Hc; [done|].
  unfold run in *. simpl. apply IH.
  - change (apply_op c o) with (run c [o]).
    by destruct (run_config c [o]) as [-> _].
  - destruct o; simpl in *.
    + by apply IsProcessed_inv.
    + by apply MarkProcessed_inv.
    + by apply cleanupExpired_tick_inv.
Qed.

(** ** Lookups after a mark *)

Lemma MarkProcessed_entries rt c k ttl :
  entries (MemoryCache_MarkProcessed rt c k ttl).1
  = <[k := now rt + ttl]> (entries (evict rt c)).
Proof. done. Qed.

Lemma IsProcessed_live rt c k t :
  entries c !! k = Some t → now rt ≤ t →
  (MemoryCache_IsProcessed rt c k).2 = (true, None).
Proof.
  intros Hk Ht. unfold MemoryCache_IsProcessed. rewrite Hk. unfold After.
  destruct (t <? now rt) eqn:E; [lia|done].
Qed.

Lemma IsProcessed_absent rt c k :
  entries c !! k = None → MemoryCache_IsProcessed rt c k = (c, (false, None)).
Proof. intros Hk. unfold MemoryCache_IsProcessed. by rewrite Hk. Qed.

Lemma MarkProcessed_live rt rt' c k ttl :
  now rt' ≤ now rt + ttl →
  (MemoryCache_IsProcessed rt' (MemoryCache_MarkProcessed rt c k ttl).1 k).2
  = (true, None).
Proof.
  intros Ht. apply (IsProcessed_live _ _ _ (now rt + ttl)); [|done].
  rewrite MarkProcessed_entries. apply lookup_insert_eq.
Qed.

(** Neither operation brings in a key other than the one marked. *)
Lemma evict_absent rt c k : entries c !! k = None → entries (evict rt c) !! k = None.
Proof.
  intros Hk. unfold evict. destruct (maxSize c <=? len_entries c); [|done].
  destruct (enableLRU c).
  - destruct (accessOrder c); [done|]. simpl. rewrite lookup_delete. by case_decide.
  - simpl. unfold evictAny. destruct (List.find _ _) as [[k' v]|].
    + rewrite lookup_delete. by case_decide.
    + destruct (0 <? _); [|done]. destruct (rangeOrder rt (entries c)) as [|[k' v] l]; [done|].
      rewrite lookup_delete. by case_decide.
Qed.

Lemma MarkProcessed_absent rt c k k' ttl :
  k' ≠ k → entries c !! k' = None →
  entries (MemoryCache_MarkProcessed rt c k ttl).1 !! k' = None.
Proof.
  intros Hne Hk. rewrite MarkProcessed_entries, lookup_insert_ne by done.
  by apply evict_absent.
Qed.

Lemma IsProcessed_keeps_absent rt c k k' :
  entries c !! k' = None → entries (MemoryCache_IsProcessed rt c k).1 !! k' = None.
Proof.
  intros Hk. unfold MemoryCache_IsProcessed.
  destruct (entries c !! k) as [t|]; [|done].
  destruct (After (now rt) t); simpl; [|done].
  rewrite lookup_delete. by case_decide.
Qed.

(** After a consult that does not confirm the key, the key is not in the map. *)
Lemma IsProcessed_miss_absent rt c k :
  (MemoryCache_IsProcessed rt c k).2 = (false, None) →
  entries (MemoryCache_IsProcessed rt c k).1 !! k = None.
Proof.
  unfold MemoryCache_IsProcessed. destruct (entries c !! k) as [t|] eqn:Hk; [|done].
  destruct (After (now rt) t); simpl; [|done]. intros _. apply lookup_delete_eq.
Qed.

(** The in-process backend never returns an error. *)
Lemma IsProcessed_no_error rt c k : (MemoryCache_IsProcessed rt c k).2.2 = None.
Proof.
  unfold MemoryCache_IsProcessed. destruct (entries c !! k); [|done].
  by destruct (After _ _).
Qed.

(** ** The specification's LRU scenario: with maxSize = 2, marking A and B,
    reading A and marking C evicts B and keeps A. *)

Lemma rt_at_ok t : rangeOrder_ok (rt_at t).
Proof. intros m. reflexivity. Qed.

Example lru_scenario :
  let c := run (NewMemoryCache 2 true)
             [OpMarkProcessed (rt_at 0) "A" 100; OpMarkProcessed (rt_at 1) "B" 100;
              OpIsProcessed (rt_at 2) "A"; OpMarkProcessed (rt_at 3) "C" 100] in
  accessOrder c = ["A"; "C"]%string ∧
  (MemoryCache_IsProcessed (rt_at 4) c "B").2 = (false, None) ∧
  (MemoryCache_IsProcessed (rt_at 4) c "A").2 = (true, None).
Proof. vm_compute. done. Qed.

(** C10 — Capacity invariant of the in-process cache.  A cache built by
    [NewMemoryCache] with maxSize >= 1 holds at most maxSize entries after any
    sequence of IsProcessed and MarkProcessed calls (sweeps of the cleanup
    ticker included), in LRU and in non-LRU mode; in LRU mode the recency list
    holds exactly the keys of the entries map, each once; and on a full map
    the eviction of MarkProcessed removes one existing entry before the
    insertion. *)
Theorem C10_capacity_invariant (m : Z) (lru : bool) (ops : list op) :
  1 ≤ m →
  Forall (λ o, rangeOrder_ok (op_runtime o)) ops →
  let c := run (NewMemoryCache m lru) ops in
  len_entries c ≤ m ∧
  (lru = true →
   NoDup (accessOrder c) ∧ ∀ k, k ∈ accessOrder c ↔ is_Some (entries c !! k)) ∧
  (∀ rt, rangeOrder_ok rt → len_entries c = m →
         len_entries (evict rt c) = m - 1).
Proof.
  intros Hm Hops c.
  destruct (run_config (NewMemoryCache m lru) ops) as [Hmax Hlru].
  fold c in Hmax, Hlru. simpl in Hmax, Hlru.
  assert (capacity_inv c) as Hinv.
  { apply run_inv; [done|done|]. apply NewMemoryCache_inv. lia. }
  split_and!.
  - rewrite <- Hmax. apply Hinv.
  - intros ->. apply Hinv. by rewrite Hlru.
  - intros rt Hrt Hfull. rewrite <- Hmax in *.
    by apply (evict_frees_slot rt c Hrt).
Qed.

Lemma C10_capacity_invariant_witness :
  let ops := [OpMarkProcessed (rt_at 0) "A" 100; OpMarkProcessed (rt_at 1) "B" 100;
              OpIsProcessed (rt_at 2) "A"; OpMarkProcessed (rt_at 3) "C" 100] in
  let c := run (NewMemoryCache 2 false) ops in
  1 ≤ 2 ∧ Forall (λ o, rangeOrder_ok (op_runtime o)) ops ∧ len_entries c ≤ 2.
Proof.
  intros ops c.
  assert (Forall (λ o, rangeOrder_ok (op_runtime o)) ops) as Hops.
  { repeat constructor; apply rt_at_ok. }
  split; [lia|]. split; [exact Hops|].
  apply (C10_capacity_invariant 2 false ops); [lia|exact Hops].
Defined.

(** C3 — Round trip on the in-process backend.  For every key and every
    ttl > 0, on every cache value (full or not, LRU or not), MarkProcessed
    followed by an IsProcessed of the same key that reads the clock less than
    ttl later returns (true, nil). *)
Theorem C3_mark_then_is_processed (rt rt' : Runtime) (c : MemoryCache)
    (key : string) (ttl : Z) :
  0 < ttl → now rt ≤ now rt' → now rt' - now rt < ttl →
  (MemoryCache_IsProcessed rt' (MemoryCache_MarkProcessed rt c key ttl).1 key).2
  = (true, None) ∧
  (MemoryCache_MarkProcessed rt c key ttl).2 = None.
Proof.
  intros Httl Hle Hlt. split; [|done]. apply MarkProcessed_live. lia.
Qed.

Lemma C3_mark_then_is_processed_witness :
  let c := run (NewMemoryCache 1 true) [OpMarkProcessed (rt_at 0) "A" 100] in
  len_entries c = maxSize c ∧
  (MemoryCache_IsProcessed (rt_at 5) (MemoryCache_MarkProcessed (rt_at 5) c "B" 10).1 "B").2
  = (true, None).
Proof.
  intros c. split; [reflexivity|].
  apply (C3_mark_then_is_processed (rt_at 5) (rt_at 5) c "B" 10); simpl; lia.
Defined.

End cache_props.

(** ** The shape shared by the two normalizers *)

Module pipeline_props.

Section generic.
Context {C : Type} `{!Cache C} {H P : Type}.
Implicit Types (st : State C H P) (h : option (Handler H P)) (built : outcome + P).

Lemma events_since_app st st' (evs : list (Event P)) :
  st_trace st' = st_trace st ++ evs → events_since st st' = evs.
Proof. intros E. unfold events_since. rewrite E. apply drop_app_length. Qed.

Lemma cache_check_trace rt id st :
  st_trace (cache_check rt id st).1 = st_trace st ++ check_events rt id st ∧
  st_handler (cache_check rt id st).1 = st_handler st ∧
  st_cache (cache_check rt id st).1
    = (λ c, (IsProcessed rt c id).1) <$> st_cache st.
Proof.
  unfold cache_check, check_events. destruct (st_cache st) as [c|] eqn:E; simpl.
  - destruct (IsProcessed rt c id) as [c' [b [e|]]]; done.
  - by rewrite app_nil_r, E.
Qed.

Lemma cache_check_processed rt id st :
  (cache_check rt id st).2 = true ↔
  ∃ c, st_cache st = Some c ∧ (IsProcessed rt c id).2 = (true, None).
Proof.
  unfold cache_check. destruct (st_cache st) as [c|]; simpl.
  - destruct (IsProcessed rt c id) as [c' [b [e|]]] eqn:E; simpl.
    + split; [done|]. intros (c0 & [= <-] & Hc). by rewrite E in Hc.
    + split.
      * intros ->. exists c. by rewrite E.
      * intros (c0 & [= <-] & Hc). rewrite E in Hc. by injection Hc.
  - split; [done|]. by intros (c0 & ? & _).
Qed.

Lemma cache_mark_trace rt id st :
  st_trace (cache_mark rt id st) = st_trace st ++ mark_events rt id st ∧
  st_handler (cache_mark rt id st) = st_handler st ∧
  st_cache (cache_mark rt id st)
    = (λ c, (MarkProcessed rt c id (24 * Hour)).1) <$> st_cache st.
Proof.
  unfold cache_mark, mark_events. destruct (st_cache st) as [c|] eqn:E; simpl.
  - destruct (MarkProcessed rt c id (24 * Hour)) as [c' r]; done.
  - by rewrite app_nil_r, E.
Qed.

Lemma pipeline_shape pre id built h rtCheck rtMark st :
  run_shape pre id built h rtCheck rtMark st
    (pipeline pre id built h rtCheck rtMark st)
    (events_since st (pipeline pre id built h rtCheck rtMark st).1).
Proof.
  unfold pipeline. destruct pre as [o|].
  { simpl. rewrite (events_since_app st st []) by by rewrite app_nil_r.
    by constructor. }
  destruct (cache_check_trace rtCheck id st) as (Ht & Hh & Hc).
  destruct (cache_check rtCheck id st) as [st1 processed] eqn:Hchk.
  simpl in Ht, Hh, Hc.
  assert (st1 = (cache_check rtCheck id st).1) as Hst1 by by rewrite Hchk.
  assert (processed = (cache_check rtCheck id st).2) as Hpr by by rewrite Hchk.
  destruct processed.
  { simpl. rewrite (events_since_app _ _ _ Ht), Hst1. by constructor. }
  destruct built as [o|x].
  { simpl. rewrite (events_since_app _ _ _ Ht), Hst1. by constructor. }
  unfold deliver, call_handler. destruct h as [f|].
  - rewrite Hh. destruct (f (st_handler st) x) as [hs [e|]] eqn:Hf.
    + simpl. rewrite Ht, <- app_assoc.
      rewrite (events_since_app st _ (check_events rtCheck id st ++ [EvHandler x (Some e)]))
        by done.
      rewrite Hst1. by eapply RunHandlerError.
    + simpl. rewrite Ht, <- app_assoc.
      set (st2 := {| st_cache := st_cache st1; st_handler := hs;
                     st_trace := st_trace st ++ check_events rtCheck id st
                                   ++ [EvHandler x None] |}).
      destruct (cache_mark_trace rtMark id st2) as (Hm & _ & _).
      rewrite (events_since_app st _
                 (check_events rtCheck id st ++ [EvHandler x None] ++ mark_events rtMark id st2)).
      2:{ rewrite Hm. unfold st2. simpl. by rewrite <- !app_assoc. }
      unfold st2. rewrite Hst1.
      eapply (RunDelivered _ _ _ _ _ _ _ x hs [EvHandler x None]); eauto.
  - simpl.
    assert (st1 = {| st_cache := st_cache st1; st_handler := st_handler st;
                     st_trace := st_trace st ++ check_events rtCheck id st ++ [] |}) as Heq.
    { destruct st1; simpl in *. rewrite app_nil_r. by subst. }
    rewrite Heq. set (st2 := {| st_cache := _ |}).
    destruct (cache_mark_trace rtMark id st2) as (Hm & _ & _).
    rewrite (events_since_app st _
               (check_events rtCheck id st ++ [] ++ mark_events rtMark id st2)).
    2:{ rewrite Hm. unfold st2. simpl. by rewrite <- !app_assoc. }
    unfold st2. rewrite Hst1.
    eapply (RunDelivered _ _ _ _ _ _ _ x (st_handler st) []); eauto.
Qed.

(** *** What the events of a run are *)

Lemma elem_check_events rt id st (ev : Event P) :
  ev ∈ check_events rt id st → ∃ res, ev = EvIsProcessed id res.
Proof.
  unfold check_events. destruct (st_cache st); [|by intros ?%elem_of_nil].
  intros ->%list_elem_of_singleton. by eexists.
Qed.

Lemma elem_mark_events rt id st (ev : Event P) :
  ev ∈ mark_events rt id st → ∃ res, ev = EvMarkProcessed id (24 * Hour) res.
Proof.
  unfold mark_events. destruct (st_cache st); [|by intros ?%elem_of_nil].
  intros ->%list_elem_of_singleton. by eexists.
Qed.

Lemma handler_calls_check rt id st :
  handler_calls (check_events rt id st) = [] ∧ mark_calls (check_events rt id st) = [].
Proof. unfold check_events. by destruct (st_cache st). Qed.

Lemma handler_calls_mark rt id st : handler_calls (mark_events rt id st) = [].
Proof. unfold mark_events. by destruct (st_cache st). Qed.

Lemma handler_calls_app (t1 t2 : list (Event P)) :
  handler_calls (t1 ++ t2) = handler_calls t1 ++ handler_calls t2.
Proof. apply omap_app. Qed.

Lemma mark_calls_app (t1 t2 : list (Event P)) :
  mark_calls (t1 ++ t2) = mark_calls t1 ++ mark_calls t2.
Proof. apply omap_app. Qed.

(** The handler is invoked at most once in a run. *)
Lemma shape_calls_le1 pre id built h rtC rtM st r evs :
  run_shape pre id built h rtC rtM st r evs →
  handler_calls evs = [] ∨ ∃ x, built = inr x ∧ handler_calls evs = [x].
Proof.
  destruct 1 as [o ?| ? ? | o ? ? ? | x f hs e ? ? ? ? ? | x hs hev ? ? ? Hh st2];
    rewrite ?handler_calls_app, ?(proj1 (handler_calls_check _ _ _)),
      ?handler_calls_mark; simpl; eauto.
  destruct Hh as [(_ & _ & ->)|(f & _ & _ & ->)]; simpl; eauto.
Qed.

(** A handler error ends the run with that error, wrapped; nothing is
    marked and the cache is as the consult left it. *)
Lemma shape_handler_error pre id built h rtC rtM st r evs x e :
  run_shape pre id built h rtC rtM st r evs →
  EvHandler x (Some e) ∈ evs →
  r.2 = Return (Some (ErrWrap "handler error" e)) ∧
  mark_calls evs = [] ∧
  st_cache r.1 = st_cache (cache_check rtC id st).1.
Proof.
  destruct 1 as [o ?| ? ? | o ? ? ? | x' f hs e' ? ? ? ? ? | x' hs hev ? ? ? Hh st2];
    intros Hin.
  - by apply elem_of_nil in Hin.
  - by apply elem_check_events in Hin as [? ?].
  - by apply elem_check_events in Hin as [? ?].
  - apply elem_of_app in Hin as [[? ?]%elem_check_events|Hin]; [done|].
    apply list_elem_of_singleton in Hin. injection Hin as -> ->.
    rewrite mark_calls_app, (proj2 (handler_calls_check _ _ _)). done.
  - apply elem_of_app in Hin as [[? ?]%elem_check_events|Hin]; [done|].
    apply elem_of_app in Hin as [Hin|[? ?]%elem_mark_events]; [|done].
    destruct Hh as [(_ & _ & ->)|(f & _ & _ & ->)].
    + by apply elem_of_nil in Hin.
    + by apply list_elem_of_singleton in Hin.
Qed.

(** A mark is of the dedup key, for 24 hours, at the end of a run that
    returns nil, and after a handler call (if a handler is configured) that
    returned nil. *)
Lemma shape_mark pre id built h rtC rtM st r evs k ttl res :
  run_shape pre id built h rtC rtM st r evs →
  EvMarkProcessed k ttl res ∈ evs →
  k = id ∧ ttl = 24 * Hour ∧ r.2 = Return None ∧
  (∀ x res', EvHandler x res' ∈ evs → res' = None) ∧
  (∀ f, h = Some f → ∃ x, EvHandler x None ∈ evs).
Proof.
  destruct 1 as [o ?| ? ? | o ? ? ? | x' f hs e' ? ? ? ? ? | x' hs hev ? ? ? Hh st2];
    intros Hin.
  - by apply elem_of_nil in Hin.
  - by apply elem_check_events in Hin as [? ?].
  - by apply elem_check_events in Hin as [? ?].
  - apply elem_of_app in Hin as [[? ?]%elem_check_events|Hin]; [done|].
    by apply list_elem_of_singleton in Hin.
  - assert (∀ ev, ev ∈ hev → ev = EvHandler x' None) as Hhev.
    { destruct Hh as [(_ & _ & ->)|(f & _ & _ & ->)]; intros ev.
      - by intros ?%elem_of_nil.
      - by intros ->%list_elem_of_singleton. }
    apply elem_of_app in Hin as [[? ?]%elem_check_events|Hin]; [done|].
    apply elem_of_app in Hin as [Hin%Hhev|[res0 Hin]%elem_mark_events]; [done|].
    injection Hin as -> -> ->. split_and!; [done|done|done| |].
    + intros x res' Hx.
      apply elem_of_app in Hx as [[? ?]%elem_check_events|Hx]; [done|].
      apply elem_of_app in Hx as [Hx%Hhev|[? ?]%elem_mark_events]; [|done].
      by injection Hx as _ ->.
    + intros f ->. destruct Hh as [([=] & _)|(f' & _ & _ & ->)].
      exists x'. apply elem_of_app. right. apply elem_of_app. left. left.
Qed.

(** What a run that passes the consult does, read off its inputs. *)
Lemma shape_miss_summary pre id built h rtC rtM st r evs :
  run_shape pre id built h rtC rtM st r evs →
  (cache_check rtC id st).2 = false →
  match pre, built, h with
  | Some o, _, _ =>
      r.2 = o ∧ handler_calls evs = [] ∧ st_handler r.1 = st_handler st
  | None, inl o, _ =>
      r.2 = o ∧ handler_calls evs = [] ∧ st_handler r.1 = st_handler st
  | None, inr x, None =>
      r.2 = Return None ∧ handler_calls evs = [] ∧ st_handler r.1 = st_handler st
  | None, inr x, Some f =>
      r.2 = match (f (st_handler st) x).2 with
            | Some e => Return (Some (ErrWrap "handler error" e))
            | None => Return None
            end ∧
      handler_calls evs = [x] ∧ st_handler r.1 = (f (st_handler st) x).1
  end.
Proof.
  destruct 1 as [o ?| ? Hhit | o ? ? ? | x f hs e ? ? ? ? Hf | x hs hev ? ? ? Hh st2];
    intros Hmiss; subst; simpl;
    rewrite ?handler_calls_app, ?(proj1 (handler_calls_check _ _ _)),
      ?handler_calls_mark, ?(proj1 (proj2 (cache_check_trace _ _ _))),
      ?(proj1 (proj2 (cache_mark_trace _ _ _))); simpl.
  - done.
  - congruence.
  - done.
  - by rewrite Hf.
  - destruct Hh as [(-> & -> & ->)|(f & -> & Hf & ->)]; [done|]. by rewrite Hf.
Qed.

(** When the consult does not confirm a hit, the run is the run of a
    normalizer with no cache: same outcome, same handler calls, same handler
    state. *)
Lemma pipeline_miss_as_without_cache pre id built h rtC rtM st :
  (cache_check rtC id st).2 = false →
  let r := pipeline pre id built h rtC rtM st in
  let r0 := pipeline pre id built h rtC rtM (without_cache st) in
  r.2 = r0.2 ∧
  handler_calls (events_since st r.1)
    = handler_calls (events_since (without_cache st) r0.1) ∧
  st_handler r.1 = st_handler r0.1.
Proof.
  intros Hmiss r r0.
  pose proof (shape_miss_summary _ _ _ _ _ _ _ _ _
                (pipeline_shape pre id built h rtC rtM st) Hmiss) as Hs.
  pose proof (shape_miss_summary _ _ _ _ _ _ _ _ _
                (pipeline_shape pre id built h rtC rtM (without_cache st)) eq_refl) as Hs0.
  fold r in Hs. fold r0 in Hs0. simpl in Hs0.
  destruct pre as [o|]; [|destruct built as [o|x]; [|destruct h as [f|]]];
    destruct Hs as (-> & -> & ->); destruct Hs0 as (-> & -> & ->); done.
Qed.

(** A run that [pre] or [built] ends calls neither the handler nor
    MarkProcessed. *)
Lemma shape_no_delivery pre id built h rtC rtM st r evs :
  run_shape pre id built h rtC rtM st r evs →
  (is_Some pre ∨ ∃ o, built = inl o) →
  handler_calls evs = [] ∧ mark_calls evs = [] ∧
  st_handler r.1 = st_handler st ∧
  (r.1 = st ∨ r.1 = (cache_check rtC id st).1).
Proof.
  destruct 1 as [o ?| ? Hhit | o ? ? ? | x f hs e ? ? ? ? Hf | x hs hev ? ? ? Hh st2];
    intros Hend; subst; simpl;
    rewrite ?(proj1 (handler_calls_check _ _ _)), ?(proj2 (handler_calls_check _ _ _)),
      ?(proj1 (proj2 (cache_check_trace _ _ _))); auto.
  - destruct Hend as [[? [=]]|[? [=]]].
  - destruct Hend as [[? [=]]|[? [=]]].
Qed.

(** The outcome of a run that passes [pre] and the consult and that
    [built] ends. *)
Lemma shape_built_end pre id built h rtC rtM st r evs o :
  run_shape pre id built h rtC rtM st r evs →
  pre = None → (cache_check rtC id st).2 = false → built = inl o → r.2 = o.
Proof.
  destruct 1 as [? ?| ? Hhit | o' ? ? ? | x f hs e ? ? ? ? Hf | x hs hev ? ? ? Hh st2];
    intros; simplify_eq; try done. congruence.
Qed.

(** A run that passes [pre] and that [built] would end: it stops right
    after the consult, with nil on a confirmed hit and with the outcome of
    [built] otherwise. *)
Lemma shape_ended pre id built h rtC rtM st r evs o :
  run_shape pre id built h rtC rtM st r evs →
  pre = None → built = inl o →
  r.1 = (cache_check rtC id st).1 ∧
  r.2 = if (cache_check rtC id st).2 then Return None else o.
Proof.
  destruct 1 as [? ?| ? Hhit | o' ? Hmiss ? | x f hs e ? ? ? ? Hf | x hs hev ? ? ? Hh st2];
    intros; simplify_eq; simpl.
  - by rewrite Hhit.
  - by rewrite Hmiss.
Qed.

Lemma shape_trace pre id built h rtC rtM st r evs :
  run_shape pre id built h rtC rtM st r evs → st_trace r.1 = st_trace st ++ evs.
Proof.
  destruct 1 as [? ?| ? Hhit | o' ? Hmiss ? | x f hs e ? ? ? ? Hf | x hs hev ? ? ? Hh st2];
    simpl; rewrite ?app_nil_r, ?(proj1 (cache_check_trace _ _ _)),
             ?(proj1 (cache_mark_trace _ _ _)); simpl; rewrite <- ?app_assoc; done.
Qed.

(** The cache after a run: as the consult left it, and marked when the
    handler (if any) was called and returned nil. *)
Lemma shape_cache pre id built h rtC rtM st r evs :
  run_shape pre id built h rtC rtM st r evs →
  pre = None →
  st_cache r.1 =
    let consulted := (λ c, (IsProcessed rtC c id).1) <$> st_cache st in
    if (cache_check rtC id st).2 then consulted
    else match built with
         | inl _ => consulted
         | inr x =>
             match (λ f, (f (st_handler st) x).2) <$> h with
             | Some (Some _) => consulted
             | _ => (λ c, (MarkProcessed rtM c id (24 * Hour)).1) <$> consulted
             end
         end.
Proof.
  destruct 1 as [? ?| ? Hhit | o' ? Hmiss ? | x f hs e ? ? ? ? Hf | x hs hev ? ? ? Hh st2];
    intros Hpre; simplify_eq; simpl;
    rewrite ?Hhit, ?Hmiss, ?H1, ?(proj2 (proj2 (cache_check_trace _ _ _))),
      ?(proj2 (proj2 (cache_mark_trace _ _ _))); simpl;
    rewrite ?(proj2 (proj2 (cache_check_trace _ _ _))); try done.
  - by rewrite Hf.
  - destruct Hh as [(-> & -> & ->)|(f & -> & Hf & ->)]; simpl; [done|]. by rewrite Hf.
Qed.

(** A confirmed hit ends the run with nil after the consult alone. *)
Lemma shape_hit pre id built h rtC rtM st r evs :
  run_shape pre id built h rtC rtM st r evs →
  pre = None → (cache_check rtC id st).2 = true →
  r = ((cache_check rtC id st).1, Return None) ∧ evs = check_events rtC id st ∧
  handler_calls evs = [] ∧ mark_calls evs = [].
Proof.
  destruct 1 as [? ?| ? Hhit | o' ? Hmiss ? | x f hs e ? Hmiss ? ? Hf | x hs hev ? Hmiss ? Hh st2];
    intros Hpre Hc; simplify_eq; try congruence.
  split_and!; [done|done|apply handler_calls_check..].
Qed.

(** The handler is only called in a run that passed [pre] and the consult. *)
Lemma shape_called pre id built h rtC rtM st r evs :
  run_shape pre id built h rtC rtM st r evs →
  handler_calls evs ≠ [] →
  pre = None ∧ (cache_check rtC id st).2 = false ∧
  ∃ x f, built = inr x ∧ h = Some f ∧ handler_calls evs = [x].
Proof.
  destruct 1 as [? ?| ? Hhit | o' ? Hmiss ? | x f hs e ? Hmiss ? ? Hf | x hs hev ? Hmiss ? Hh st2];
    rewrite ?handler_calls_app, ?(proj1 (handler_calls_check _ _ _)),
      ?handler_calls_mark; simpl; intros Hne; try done.
  - split_and!; [done..|]. by exists x, f.
  - destruct Hh as [(-> & -> & ->)|(f & -> & Hf & ->)]; [done|].
    split_and!; [done..|]. by exists x, f.
Qed.

Lemma pipeline_pre pre id built h rtC rtM st o :
  pre = Some o → pipeline pre id built h rtC rtM st = (st, o).
Proof. by intros ->. Qed.

Lemma IsProcessed_error_miss rt id st c e :
  st_cache st = Some c → (IsProcessed rt c id).2.2 = Some e →
  (cache_check rt id st).2 = false.
Proof.
  intros Hc He. unfold cache_check. rewrite Hc.
  destruct (IsProcessed rt c id) as [c' [b [e'|]]]; simpl in *; done.
Qed.

End generic.

End pipeline_props.

(** ** The Ethereum normalizer *)

Module eth_props.
Import gostr gofloat cache eth cache_props pipeline_props.

Section generic.
Context {C : Type} `{!Cache C} {H : Type}.
Context {address : Type} `{!EqDecision address}.
Variable HexToAddress : string → address.
Implicit Types (p : Processor (H:=H) (address:=address)) (a : AlchemyActivity)
  (st : State C H ProcessedActivity).

Local Abbreviation Process := (ProcessActivity HexToAddress).
Local Abbreviation build := (buildActivity HexToAddress).

Lemma ProcessActivity_pipeline p rtC rtM a st :
  Process p rtC rtM a st
  = pipeline (pre_of a) (uniqueIDOf a) (build p a) (handler p) rtC rtM st.
Proof.
  unfold ProcessActivity, pipeline, pre_of. by destruct (validateFront a).
Qed.

Lemma ProcessActivity_shape p rtC rtM a st :
  run_shape (pre_of a) (uniqueIDOf a) (build p a) (handler p) rtC rtM st
    (Process p rtC rtM a st) (events_since st (Process p rtC rtM a st).1).
Proof. rewrite ProcessActivity_pipeline. apply pipeline_shape. Qed.

(** *** Classification facts *)

Lemma classify_external_zero p a v :
  ToLower (Category a) = "external" → Value a = Some v → is_zero v = true →
  classify HexToAddress p a = Classified 0 "ETH" (nativeNetwork p "external").
Proof.
  intros Hc Hv Hz. unfold classify. rewrite Hc, Hv. simpl.
  destruct v; try done.
Qed.

Lemma classify_erc721 p a :
  ToLower (Category a) = "erc721" →
  (∀ rc, RawContract a = Some rc → Address rc = "") →
  classify HexToAddress p a =
    match ERC721TokenID a, RawContract a with
    | Some _, Some rc =>
        Classified 1 (resolveCurrency HexToAddress p a rc)
          (tokenNetwork p "ERC-721" (isInternalTxOf a))
    | _, _ => Skipped
    end.
Proof.
  intros Hc Haddr. unfold classify. rewrite Hc. simpl.
  destruct (RawContract a) as [rc|] eqn:Hrc.
  - rewrite (Haddr rc eq_refl). simpl. by destruct (ERC721TokenID a).
  - simpl. by destruct (ERC721TokenID a).
Qed.

(** [built] ends the call whenever the classification skips the activity
    or the amount is zero. *)
Lemma build_ends p a :
  (classify HexToAddress p a = Skipped ∨
   ∃ cur net, classify HexToAddress p a = Classified 0 cur net) →
  ∃ o, build p a = inl o ∧
       (validateBlockNumber (BlockNum a) = None →
        is_Some (ParseUint64 (TrimPrefix (BlockNum a) "0x") 16) →
        o = Return None).
Proof.
  intros Hcl. unfold buildActivity.
  destruct (validateBlockNumber (BlockNum a)) as [e|]; [by eexists|].
  destruct (ParseUint64 _ 16) as [bn|].
  2:{ eexists. split; [done|]. by intros _ [? ?]. }
  destruct Hcl as [->|(cur & net & ->)]; simpl; by eexists.
Qed.

Lemma build_value p a x :
  build p a = inr x →
  ∃ cur net, classify HexToAddress p a = Classified (pa_Value x) cur net ∧ pa_Value x ≠ 0.
Proof.
  unfold buildActivity.
  destruct (validateBlockNumber (BlockNum a)); [done|].
  destruct (ParseUint64 _ 16); [|done].
  destruct (classify HexToAddress p a) as [| |amt cur net]; [done|done|].
  destruct (amt =? 0) eqn:E; [done|]. intros [= <-]. simpl.
  exists cur, net. split; [done|lia].
Qed.

Lemma validateFront_None a :
  validateFront a = None ↔
  validateEthereumAddress (ToAddress a) = None ∧
  validateEthereumAddress (FromAddress a) = None ∧
  validateTransactionHash (txHashOf a) = None.
Proof.
  unfold validateFront.
  destruct (validateEthereumAddress (ToAddress a));
    destruct (validateEthereumAddress (FromAddress a));
    destruct (validateTransactionHash (txHashOf a)); naive_solver.
Qed.


(** C8 (amended) — An external activity whose value is exactly 0, which
    passes the three validators and whose block number parses as an unsigned
    64-bit hexadecimal number: ProcessActivity returns nil, the handler is
    not invoked and MarkProcessed is not called; the world is as the cache
    consult left it. *)
Theorem C8_zero_value_suppressed p rtC rtM a st v :
  ToLower (Category a) = "external" → Value a = Some v → is_zero v = true →
  validateFront a = None → validateBlockNumber (BlockNum a) = None →
  is_Some (ParseUint64 (TrimPrefix (BlockNum a) "0x") 16) →
  let r := Process p rtC rtM a st in
  let evs := events_since st r.1 in
  r.2 = Return None ∧ handler_calls evs = [] ∧ mark_calls evs = [] ∧
  r.1 = (cache_check rtC (uniqueIDOf a) st).1.
Proof.
  intros Hc Hv Hz Hf Hb Hparse r evs.
  pose proof (ProcessActivity_shape p rtC rtM a st) as Hs.
  fold r in Hs. fold evs in Hs.
  destruct (build_ends p a) as (o & Hbuild & Ho).
  { right. eexists _, _. by apply (classify_external_zero p a v). }
  specialize (Ho Hb Hparse). subst o.
  assert (pre_of a = None) as Hpre by (unfold pre_of; by rewrite Hf).
  destruct (shape_no_delivery _ _ _ _ _ _ _ _ _ Hs) as (Hcalls & Hm & _); [eauto|].
  destruct (shape_ended _ _ _ _ _ _ _ _ _ _ Hs Hpre Hbuild) as [Hst Hr].
  split_and!; [|done|done|done].
  rewrite Hr. by destruct (cache_check _ _ _).2.
Qed.

(** C9 (amended) — An erc721 activity whose raw-contract block carries no
    contract address: every handler call carries the amount 1, and a token-id
    field must be present: without one (or without a raw-contract block) the
    activity is skipped, with no handler call and no cache mark.  An empty
    token id counts as present. *)
Theorem C9_erc721_amount_and_token_id p rtC rtM a st :
  ToLower (Category a) = "erc721" →
  (∀ rc, RawContract a = Some rc → Address rc = "") →
  let r := Process p rtC rtM a st in
  let evs := events_since st r.1 in
  (∀ x, x ∈ handler_calls evs → pa_Value x = 1) ∧
  (ERC721TokenID a = None ∨ RawContract a = None →
   classify HexToAddress p a = Skipped ∧
   handler_calls evs = [] ∧ mark_calls evs = []) ∧
  (∀ tid rc, ERC721TokenID a = Some tid → RawContract a = Some rc →
   ∃ cur net, classify HexToAddress p a = Classified 1 cur net).
Proof.
  intros Hc Haddr r evs.
  pose proof (ProcessActivity_shape p rtC rtM a st) as Hs.
  fold r in Hs. fold evs in Hs.
  pose proof (classify_erc721 p a Hc Haddr) as Hcl. split_and!.
  - intros x Hx.
    destruct (shape_calls_le1 _ _ _ _ _ _ _ _ _ Hs) as [Hnil|(x' & Hb & Hone)].
    { rewrite Hnil in Hx. by apply elem_of_nil in Hx. }
    rewrite Hone in Hx. apply list_elem_of_singleton in Hx as ->.
    destruct (build_value p a x' Hb) as (cur & net & Hcl' & _).
    rewrite Hcl in Hcl'.
    destruct (ERC721TokenID a), (RawContract a); by simplify_eq.
  - intros Hmiss.
    assert (classify HexToAddress p a = Skipped) as Hsk.
    { rewrite Hcl. destruct Hmiss as [-> | ->]; [done|]. by destruct (ERC721TokenID a). }
    split; [done|].
    destruct (build_ends p a) as (o & Hbuild & _); [by left|].
    destruct (shape_no_delivery _ _ _ _ _ _ _ _ _ Hs) as (Hcalls & Hm & _); eauto.
  - intros tid rc Ht Hrc. rewrite Hcl, Ht, Hrc. eauto.
Qed.

End generic.

(** *** With the in-process cache *)

Section memory.
Context {H : Type} {address : Type} `{!EqDecision address}.
Variable HexToAddress : string → address.
Implicit Types (p : Processor (H:=H) (address:=address)) (a : AlchemyActivity)
  (st : State MemoryCache H ProcessedActivity) (c : MemoryCache).

Local Abbreviation Process := (ProcessActivity HexToAddress).
Local Abbreviation build := (buildActivity HexToAddress).

Lemma memory_check_hit rt id st :
  (cache_check rt id st).2 = true ↔
  ∃ c, st_cache st = Some c ∧ (MemoryCache_IsProcessed rt c id).2 = (true, None).
Proof. exact (cache_check_processed rt id st). Qed.

Lemma memory_check_miss rt id st c :
  st_cache st = Some c → (MemoryCache_IsProcessed rt c id).2 = (false, None) →
  (cache_check rt id st).2 = false.
Proof.
  intros Hc Hm. destruct (cache_check rt id st).2 eqn:E; [|done].
  apply memory_check_hit in E as (c' & Hc' & Hhit). congruence.
Qed.

(** A run leaves every key other than its own absent if it was absent. *)
Lemma ProcessActivity_keeps_absent p rtC rtM a st c k :
  st_cache st = Some c → entries c !! k = None → k ≠ uniqueIDOf a →
  ∃ c', st_cache (Process p rtC rtM a st).1 = Some c' ∧ entries c' !! k = None.
Proof.
  intros Hc Hk Hne.
  destruct (pre_of a) as [o|] eqn:Hpre.
  { rewrite ProcessActivity_pipeline, (pipeline_pre _ _ _ _ _ _ _ o) by done. eauto. }
  pose proof (ProcessActivity_shape HexToAddress p rtC rtM a st) as Hs.
  rewrite (shape_cache _ _ _ _ _ _ _ _ _ Hs Hpre), Hc. simpl.
  pose proof (IsProcessed_keeps_absent rtC c (uniqueIDOf a) k Hk) as Hk1.
  pose proof (MarkProcessed_absent rtM _ (uniqueIDOf a) k (24 * Hour) Hne Hk1) as Hk2.
  destruct (cache_check rtC (uniqueIDOf a) st).2; [eauto|].
  destruct (build p a) as [o|x]; [eauto|].
  destruct (handler p) as [f|]; simpl; [|eauto].
  destruct (f (st_handler st) x).2; eauto.
Qed.

Lemma key_suffix_inj (h t0 t1 : string) :
  (h ++ "_" ++ t0)%string = (h ++ "_" ++ t1)%string → t0 = t1.
Proof. induction h as [|ch h IH]; simpl; intros E; by simplify_eq. Qed.

Lemma lower_ascii_idemp ch : lower_ascii (lower_ascii ch) = lower_ascii ch.
Proof.
  unfold lower_ascii. destruct (is_upper ch) eqn:E; [|by rewrite E].
  destruct ch as [[] [] [] [] [] [] [] []]; done.
Qed.

Lemma ToLower_idemp s : ToLower (ToLower s) = ToLower s.
Proof. induction s as [|ch s IH]; simpl; [done|]. by rewrite lower_ascii_idemp, IH. Qed.

Lemma ToLower_0x s : ToLower ("0x" ++ s) = ("0x" ++ ToLower s)%string.
Proof. reflexivity. Qed.

Lemma txHashOf_lower a : ToLower (txHashOf a) = txHashOf a.
Proof.
  unfold txHashOf. destruct (HasPrefix _ "0x"); cbn [negb].
  - apply ToLower_idemp.
  - by rewrite ToLower_0x, ToLower_idemp.
Qed.

(** C7 — Sub-event dedup independence.  Two activities with the same hash
    and different non-empty trace addresses ("0" and "1", say) have the two
    distinct keys hash_trace; started on an in-process cache that holds
    neither key, both runs invoke the handler when each activity is one the
    normalizer delivers.  An activity without a trace address has the bare
    lower-cased hash as its key. *)
Theorem C7_sub_event_independence p rtC0 rtM0 rtC1 rtM1 a0 a1 t0 t1 :
  Hash a0 = Hash a1 →
  TypeTraceAddress a0 = Some t0 → TypeTraceAddress a1 = Some t1 →
  t0 ≠ "" → t1 ≠ "" → t0 ≠ t1 →
  (uniqueIDOf a0 = (txHashOf a0 ++ "_" ++ t0)%string ∧
   uniqueIDOf a1 = (txHashOf a0 ++ "_" ++ t1)%string ∧
   uniqueIDOf a0 ≠ uniqueIDOf a1) ∧
  (∀ c hs f x0 x1,
     handler p = Some f →
     validateFront a0 = None → build p a0 = inr x0 →
     validateFront a1 = None → build p a1 = inr x1 →
     entries c !! uniqueIDOf a0 = None → entries c !! uniqueIDOf a1 = None →
     let st := {| st_cache := Some c; st_handler := hs; st_trace := [] |} in
     let r0 := Process p rtC0 rtM0 a0 st in
     let r1 := Process p rtC1 rtM1 a1 r0.1 in
     handler_calls (st_trace r1.1) = [x0; x1]) ∧
  (∀ a, hasTrace a = false →
        uniqueIDOf a = txHashOf a ∧ ToLower (txHashOf a) = txHashOf a).
Proof.
  intros Hhash Ht0 Ht1 Hne0 Hne1 Hne.
  assert (txHashOf a1 = txHashOf a0) as Htx by (unfold txHashOf; by rewrite Hhash).
  assert (uniqueIDOf a0 = (txHashOf a0 ++ "_" ++ t0)%string) as Hid0.
  { unfold uniqueIDOf. rewrite Ht0. by rewrite bool_decide_eq_false_2. }
  assert (uniqueIDOf a1 = (txHashOf a0 ++ "_" ++ t1)%string) as Hid1.
  { unfold uniqueIDOf. rewrite Ht1, Htx. by rewrite bool_decide_eq_false_2. }
  assert (uniqueIDOf a0 ≠ uniqueIDOf a1) as Hids.
  { rewrite Hid0, Hid1. by intros ?%key_suffix_inj. }
  split_and!; [done|done|done| |].
  - intros c hs f x0 x1 Hh Hf0 Hb0 Hf1 Hb1 Hk0 Hk1 st r0 r1.
    assert (pre_of a0 = None) as Hpre0 by (unfold pre_of; by rewrite Hf0).
    assert (pre_of a1 = None) as Hpre1 by (unfold pre_of; by rewrite Hf1).
    pose proof (ProcessActivity_shape HexToAddress p rtC0 rtM0 a0 st) as Hs0.
    pose proof (ProcessActivity_shape HexToAddress p rtC1 rtM1 a1 r0.1) as Hs1.
    fold r0 in Hs0. fold r1 in Hs1.
    assert ((cache_check rtC0 (uniqueIDOf a0) st).2 = false) as Hm0.
    { apply (memory_check_miss _ _ _ c); [done|]. by rewrite IsProcessed_absent. }
    destruct (ProcessActivity_keeps_absent p rtC0 rtM0 a0 st c (uniqueIDOf a1))
      as (c' & Hc' & Hk1'); [done|done|done|].
    fold r0 in Hc'.
    assert ((cache_check rtC1 (uniqueIDOf a1) r0.1).2 = false) as Hm1.
    { apply (memory_check_miss _ _ _ c'); [done|]. by rewrite IsProcessed_absent. }
    pose proof (shape_miss_summary _ _ _ _ _ _ _ _ _ Hs0 Hm0) as Hsum0.
    pose proof (shape_miss_summary _ _ _ _ _ _ _ _ _ Hs1 Hm1) as Hsum1.
    rewrite Hpre0, Hb0, Hh in Hsum0. rewrite Hpre1, Hb1, Hh in Hsum1.
    destruct Hsum0 as (_ & Hcalls0 & _). destruct Hsum1 as (_ & Hcalls1 & _).
    rewrite (shape_trace _ _ _ _ _ _ _ _ _ Hs1), (shape_trace _ _ _ _ _ _ _ _ _ Hs0).
    simpl. by rewrite handler_calls_app, Hcalls0, Hcalls1.
  - intros a Ha. split; [|apply txHashOf_lower].
    unfold uniqueIDOf. unfold hasTrace in Ha.
    destruct (TypeTraceAddress a) as [t|]; [|done]. by rewrite Ha.
Qed.

(** C1 (amended) — At most once per TTL window.  The same activity is run
    twice on a live in-process cache, with a handler that returns nil, the
    second consult no later than 24 hours after the first run's mark.  The
    handler is invoked at most once over the two runs; and exactly once, in
    the first run, when the activity passes the checks, is of a supported
    category with a non-zero amount, and its key is not live in the cache
    before the first run: the second run then observes the mark and returns
    nil without calling the handler. *)
Theorem C1_at_most_once_per_ttl p rtC1 rtM1 rtC2 rtM2 a c hs f :
  handler p = Some f → (∀ s x, (f s x).2 = None) →
  now rtC2 ≤ now rtM1 + 24 * Hour →
  let st := {| st_cache := Some c; st_handler := hs; st_trace := [] |} in
  let r1 := Process p rtC1 rtM1 a st in
  let r2 := Process p rtC2 rtM2 a r1.1 in
  (length (handler_calls (st_trace r2.1)) ≤ 1)%nat ∧
  (∀ x, validateFront a = None → build p a = inr x →
        (MemoryCache_IsProcessed rtC1 c (uniqueIDOf a)).2 = (false, None) →
        handler_calls (st_trace r1.1) = [x] ∧
        handler_calls (st_trace r2.1) = [x] ∧
        r2.2 = Return None ∧
        events_since r1.1 r2.1 = [EvIsProcessed (uniqueIDOf a) (true, None)]).
Proof.
  intros Hh Hok Httl st r1 r2.
  pose proof (ProcessActivity_shape HexToAddress p rtC1 rtM1 a st) as Hs1.
  pose proof (ProcessActivity_shape HexToAddress p rtC2 rtM2 a r1.1) as Hs2.
  fold r1 in Hs1. fold r2 in Hs2.
  pose proof (shape_trace _ _ _ _ _ _ _ _ _ Hs1) as Htr1.
  pose proof (shape_trace _ _ _ _ _ _ _ _ _ Hs2) as Htr2.
  simpl in Htr1.
  (* when the first run calls the handler, the second is a confirmed hit *)
  assert (handler_calls (events_since st r1.1) ≠ [] →
          r2 = ((cache_check rtC2 (uniqueIDOf a) r1.1).1, Return None) ∧
          events_since r1.1 r2.1 = [EvIsProcessed (uniqueIDOf a) (true, None)] ∧
          handler_calls (events_since r1.1 r2.1) = []) as Hsecond.
  { intros Hcalled.
    destruct (shape_called _ _ _ _ _ _ _ _ _ Hs1 Hcalled)
      as (Hpre & Hmiss & x & f' & Hb & Hf' & _).
    pose proof (shape_cache _ _ _ _ _ _ _ _ _ Hs1 Hpre) as Hc1.
    rewrite Hmiss, Hb, Hh in Hc1. simpl in Hc1. rewrite Hok in Hc1.
    set (c1 := (MemoryCache_MarkProcessed rtM1
                  (MemoryCache_IsProcessed rtC1 c (uniqueIDOf a)).1
                  (uniqueIDOf a) (24 * Hour)).1) in *.
    assert ((MemoryCache_IsProcessed rtC2 c1 (uniqueIDOf a)).2 = (true, None)) as Hlive.
    { by apply MarkProcessed_live. }
    assert ((cache_check rtC2 (uniqueIDOf a) r1.1).2 = true) as Hhit.
    { apply memory_check_hit. by exists c1. }
    destruct (shape_hit _ _ _ _ _ _ _ _ _ Hs2 Hpre Hhit) as (Hr2 & Hev & Hc2 & _).
    split_and!; [done| |done].
    rewrite Hev. unfold check_events. rewrite Hc1.
    exact (f_equal (λ res, [EvIsProcessed (uniqueIDOf a) res]) Hlive). }
  split.
  - rewrite Htr2, Htr1, handler_calls_app.
    destruct (shape_calls_le1 _ _ _ _ _ _ _ _ _ Hs1) as [Hnil|(x & _ & Hone)].
    + rewrite Hnil. simpl.
      destruct (shape_calls_le1 _ _ _ _ _ _ _ _ _ Hs2) as [->|(x & _ & ->)]; simpl; lia.
    + destruct Hsecond as (_ & _ & ->); [by rewrite Hone|]. rewrite Hone. simpl. lia.
  - intros x Hf Hb Hmiss.
    assert (pre_of a = None) as Hpre by (unfold pre_of; by rewrite Hf).
    assert ((cache_check rtC1 (uniqueIDOf a) st).2 = false) as Hm.
    { by apply (memory_check_miss _ _ _ c). }
    pose proof (shape_miss_summary _ _ _ _ _ _ _ _ _ Hs1 Hm) as Hsum.
    rewrite Hpre, Hb, Hh in Hsum. destruct Hsum as (_ & Hcalls & _).
    destruct Hsecond as (Hr2 & Hev & Hnone); [by rewrite Hcalls|].
    split_and!.
    + by rewrite Htr1.
    + by rewrite Htr2, Htr1, handler_calls_app, Hcalls, Hnone.
    + by rewrite Hr2.
    + done.
Qed.

End memory.

(** *** Concrete runs *)

Import samples.

(** C1, as stated, fails: an activity with valid addresses and hash and no
    trace address whose value is 0 is run twice on a live in-process cache
    with a handler that returns nil, and the handler is never invoked. *)
Lemma C1_counterexample :
  let a := external "0x1f" (Some (F64Zero false)) in
  let p := ethProcessor (Some countingHandler) in
  let r1 := ProcessActivity id p (rt_at 1) (rt_at 2) a (world (Some (NewMemoryCache 10 true))) in
  let r2 := ProcessActivity id p (rt_at 3) (rt_at 4) a r1.1 in
  validateFront a = None ∧ TypeTraceAddress a = None ∧
  r1.2 = Return None ∧ r2.2 = Return None ∧
  length (handler_calls (st_trace r2.1)) ≠ 1%nat.
Proof. vm_compute. split_and!; done. Qed.

Lemma C1_at_most_once_per_ttl_witness :
  let a := external "0x1f" (Some one_and_a_half) in
  let p := ethProcessor (Some countingHandler) in
  let r1 := ProcessActivity id p (rt_at 1) (rt_at 2) a (world (Some (NewMemoryCache 10 true))) in
  let r2 := ProcessActivity id p (rt_at 3) (rt_at 4) a r1.1 in
  (length (handler_calls (st_trace r2.1)) ≤ 1)%nat.
Proof.
  intros a p r1 r2.
  apply (C1_at_most_once_per_ttl id p (rt_at 1) (rt_at 2) (rt_at 3) (rt_at 4) a
           (NewMemoryCache 10 true) 0%nat countingHandler).
  - reflexivity.
  - intros s x. reflexivity.
  - vm_compute. discriminate.
Defined.

(** The two runs of the witness: one handler call, then a confirmed hit. *)
Example same_activity_twice :
  let a := external "0x1f" (Some one_and_a_half) in
  let p := ethProcessor (Some countingHandler) in
  let r1 := ProcessActivity id p (rt_at 1) (rt_at 2) a (world (Some (NewMemoryCache 10 true))) in
  let r2 := ProcessActivity id p (rt_at 3) (rt_at 4) a r1.1 in
  pa_Value <$> handler_calls (st_trace r2.1) = [1500000000000000000] ∧
  st_handler r2.1 = 1%nat ∧
  events_since r1.1 r2.1 = [EvIsProcessed (uniqueIDOf a) (true, None)].
Proof. vm_compute. done. Qed.

Lemma C7_sub_event_independence_witness :
  let p := ethProcessor (Some countingHandler) in
  let st := {| st_cache := Some (NewMemoryCache 10 true); st_handler := 0%nat;
               st_trace := [] |} in
  let r0 := ProcessActivity id p (rt_at 1) (rt_at 2) (traced "0") st in
  let r1 := ProcessActivity id p (rt_at 3) (rt_at 4) (traced "1") r0.1 in
  uniqueIDOf (traced "0") ≠ uniqueIDOf (traced "1") ∧
  handler_calls (st_trace r1.1) = [delivered_traced; delivered_traced].
Proof.
  intros p.
  destruct (C7_sub_event_independence id p (rt_at 1) (rt_at 2) (rt_at 3) (rt_at 4)
              (traced "0") (traced "1") "0" "1")
    as ((_ & _ & Hne) & Hboth & _);
    [reflexivity | reflexivity | reflexivity | discriminate..|].
  split; [exact Hne|].
  apply (Hboth (NewMemoryCache 10 true) 0%nat countingHandler
           delivered_traced delivered_traced); vm_compute; reflexivity.
Defined.

(** An erc721 activity whose raw-contract block names a contract address
    never reaches the erc721 branch: the branch for tokens, tested first,
    takes every activity with a contract address, and the amount is read from
    the raw value. *)
Example erc721_with_contract_address :
  let rc := {| RawValue := "0x5"; Address := addrA; Decimals := AnyNil |} in
  classify id (ethProcessor None) (nft (Some "7") (Some rc))
  = Classified 5 "NFT" "ERC-20".
Proof. vm_compute. done. Qed.



(** C8, as stated, fails: a zero-value external activity that passes the
    three validators, with a block number of 17 hexadecimal digits, is answered
    with an error. *)
Lemma C8_counterexample :
  let a := external "0x10000000000000000" (Some (F64Zero false)) in
  validateFront a = None ∧ validateBlockNumber (BlockNum a) = None ∧
  (ProcessActivity id (ethProcessor (Some countingHandler)) (rt_at 1) (rt_at 2) a
     (world (Some (NewMemoryCache 10 true)))).2
  = Return (Some (ErrWrap "failed to parse block number" (ErrMsg "strconv.ParseUint"))).
Proof. vm_compute. done. Qed.

Lemma C8_zero_value_suppressed_witness :
  let a := external "0x1f" (Some (F64Zero false)) in
  let st := world (Some (NewMemoryCache 10 true)) in
  let r := ProcessActivity id (ethProcessor (Some countingHandler)) (rt_at 1) (rt_at 2) a st in
  r.2 = Return None ∧ handler_calls (events_since st r.1) = [] ∧
  mark_calls (events_since st r.1) = [] ∧
  r.1 = (cache_check (rt_at 1) (uniqueIDOf a) st).1.
Proof.
  intros a st r.
  apply (C8_zero_value_suppressed id (ethProcessor (Some countingHandler))
           (rt_at 1) (rt_at 2) a st (F64Zero false));
    first [reflexivity | by eexists].
Defined.

(** C9, as stated, fails: an erc721 activity with an empty token id is not
    skipped; the handler is called (with the amount 1) and the cache is
    marked. *)
Lemma C9_counterexample :
  let a := nft (Some "") (Some rc_no_address) in
  let st := world (Some (NewMemoryCache 10 true)) in
  let r := ProcessActivity id (ethProcessor (Some countingHandler)) (rt_at 1) (rt_at 2) a st in
  ERC721TokenID a = Some "" ∧
  pa_Value <$> handler_calls (st_trace r.1) = [1] ∧
  mark_calls (st_trace r.1) = [(uniqueIDOf a, 24 * Hour)].
Proof. vm_compute. done. Qed.

Lemma C9_erc721_amount_and_token_id_witness :
  let a := nft None (Some rc_no_address) in
  let st := world (Some (NewMemoryCache 10 true)) in
  let r := ProcessActivity id (ethProcessor (Some countingHandler)) (rt_at 1) (rt_at 2) a st in
  handler_calls (events_since st r.1) = [] ∧ mark_calls (events_since st r.1) = [].
Proof.
  intros a st r.
  destruct (C9_erc721_amount_and_token_id id (ethProcessor (Some countingHandler))
              (rt_at 1) (rt_at 2) a st) as (_ & Hskip & _).
  - reflexivity.
  - intros rc [= <-]. reflexivity.
  - destruct Hskip as (_ & Hc & Hm); [by left|]. split; [exact Hc|exact Hm].
Defined.

End eth_props.

(** ** The Solana normalizer *)

Module solana_props.
Import gostr cache solana cache_props pipeline_props.

(** *** The native pairing *)

Lemma wrap64_id z : - 2 ^ 63 ≤ z < 2 ^ 63 → wrap64 z = z.
Proof. intros Hz. unfold wrap64. rewrite Z.mod_small; lia. Qed.

Lemma scanDebit_find pre post i js :
  scanDebit pre post i js = List.find (debits pre post i) js.
Proof.
  induction js as [|j js IH]; simpl; [done|]. unfold debits at 1.
  destruct (negb (bool_decide (i = j)) && (bal_at post j <? bal_at pre j)); simpl.
  - by destruct (0 <? wrap64 _).
  - done.
Qed.

(** The first index of [seq a n] that satisfies [f]. *)
Lemma find_seq_first (f : nat → bool) a n j :
  List.find f (seq a n) = Some j ↔
  (a ≤ j < a + n)%nat ∧ f j = true ∧ ∀ j', (a ≤ j' < j)%nat → f j' = false.
Proof.
  revert a. induction n as [|n IH]; intros a; simpl.
  { split; [done|]. intros ([? ?] & _). lia. }
  destruct (f a) eqn:Hfa.
  - split.
    + intros [= <-]. split_and!; [lia|lia|done|]. intros j' ?. lia.
    + intros (Hj & Hfj & Hfirst). f_equal.
      destruct (decide (a = j)) as [|Hne]; [done|].
      rewrite Hfirst in Hfa; [done|lia].
  - rewrite IH. split.
    + intros (Hj & Hfj & Hfirst). split_and!; [lia|lia|done|].
      intros j' Hj'. destruct (decide (j' = a)) as [->|]; [done|]. apply Hfirst. lia.
    + intros (Hj & Hfj & Hfirst).
      assert (a ≠ j) by (intros ->; congruence).
      split_and!; [lia|lia|done|]. intros j' Hj'. apply Hfirst. lia.
Qed.

Lemma nativeStep_pair keys pre post acc i :
  nativeStep keys pre post acc i
  = acc ++ match pair_of pre post (length keys) i with
           | Some ji => [transfer_of keys pre post ji]
           | None => []
           end.
Proof.
  unfold nativeStep, pair_of, credit.
  destruct (0 <? wrap64 _); [|by rewrite app_nil_r].
  destruct (scanDebit _ _ _ _); simpl; [done|by rewrite app_nil_r].
Qed.

Lemma foldl_nativeStep keys pre post acc l :
  foldl (nativeStep keys pre post) acc l
  = acc ++ (transfer_of keys pre post <$> omap (pair_of pre post (length keys)) l).
Proof.
  revert acc. induction l as [|i l IH]; intros acc; simpl; [by rewrite app_nil_r|].
  rewrite IH, nativeStep_pair, <- app_assoc. f_equal.
  by destruct (pair_of _ _ _ _).
Qed.

Lemma omap_pair_sublist pre post n (l : list nat) :
  (omap (pair_of pre post n) l).*2 `sublist_of` l.
Proof.
  induction l as [|i l IH]; simpl; [constructor|].
  destruct (pair_of pre post n i) as [[j i']|] eqn:E; simpl.
  - assert (i' = i) as ->.
    { unfold pair_of in E. destruct (0 <? _); [|done].
      destruct (scanDebit _ _ _ _); by simplify_eq/=. }
    by constructor.
  - by constructor.
Qed.

Lemma pair_of_spec pre post n i j i' :
  pair_of pre post n i = Some (j, i') ↔
  i' = i ∧ 0 < credit pre post i ∧ (j < n)%nat ∧ debits pre post i j = true ∧
  ∀ j', (j' < j)%nat → debits pre post i j' = false.
Proof.
  unfold pair_of. destruct (0 <? credit pre post i) eqn:Hc.
  - rewrite scanDebit_find.
    destruct (List.find _ _) as [j0|] eqn:Hf; simpl.
    + apply find_seq_first in Hf as (Hj0 & Hd & Hfirst). split.
      * intros [= <- <-]. split_and!; [done|lia|lia|done|]. intros j' ?. apply Hfirst. lia.
      * intros (-> & _ & Hj & Hdj & Hfj). do 2 f_equal.
        destruct (Nat.lt_trichotomy j0 j) as [Hlt|[->|Hlt]]; [|done|].
        -- rewrite Hfj in Hd; [done|lia].
        -- rewrite Hfirst in Hdj; [done|lia].
    + split; [done|]. intros (-> & _ & Hj & Hdj & Hfj).
      assert (List.find (debits pre post i) (seq 0 n) = Some j) as Hsome.
      { apply find_seq_first. split_and!; [lia|lia|done|]. intros j' ?. apply Hfj. lia. }
      congruence.
  - split; [done|]. intros (_ & ? & _). lia.
Qed.

(** C6 (amended) — The native pairing of extractNativeTransfers.  When the
    three arrays differ in length nothing is emitted.  When they agree, the
    output lists, for the account indices i in increasing order and each at
    most once, the transfers from account j to account i with the credited
    amount post[i] - pre[i] as amount (whatever the size of the debit), where i
    is credited (the int64 difference is positive) and j is the first index
    other than i that is debited; a credited i with no such j yields nothing.
    Where the differences do not overflow, credited and debited are the plain
    comparisons post[i] > pre[i] and pre[j] > post[j]. *)
Theorem C6_native_transfer_pairing (accountKeys : list string) (meta : AlchemySolanaTxMeta) :
  let pre := PreBalances meta in
  let post := PostBalances meta in
  let n := length accountKeys in
  (¬ (length pre = length post ∧ length pre = n) →
   extractNativeTransfers accountKeys meta = []) ∧
  (length pre = length post → length pre = n →
   ∃ pairs : list (nat * nat),
     extractNativeTransfers accountKeys meta = transfer_of accountKeys pre post <$> pairs ∧
     pairs.*2 `sublist_of` seq 0 n ∧
     ∀ j i, (j, i) ∈ pairs ↔
            (i < n)%nat ∧ 0 < credit pre post i ∧
            (j < n)%nat ∧ debits pre post i j = true ∧
            ∀ j', (j' < j)%nat → debits pre post i j' = false) ∧
  (∀ i j, - 2 ^ 63 ≤ bal_at post i - bal_at pre i < 2 ^ 63 →
          - 2 ^ 63 ≤ bal_at pre j - bal_at post j < 2 ^ 63 →
          credit pre post i = bal_at post i - bal_at pre i ∧
          (0 < credit pre post i ↔ bal_at pre i < bal_at post i) ∧
          (debits pre post i j = true ↔ i ≠ j ∧ bal_at post j < bal_at pre j)).
Proof.
  intros pre post n. split_and!.
  - intros Hlen. unfold extractNativeTransfers. fold pre post n.
    destruct (bool_decide (length pre = length post)) eqn:E1; [|done].
    destruct (bool_decide (length pre = n)) eqn:E2; [|done].
    apply bool_decide_eq_true in E1, E2. naive_solver.
  - intros Hl1 Hl2. exists (omap (pair_of pre post n) (seq 0 n)). split_and!.
    + unfold extractNativeTransfers. fold pre post n.
      rewrite !bool_decide_eq_true_2 by done. simpl.
      by rewrite foldl_nativeStep.
    + apply omap_pair_sublist.
    + intros j i. rewrite list_elem_of_omap. split.
      * intros (i0 & Hi0 & Hp). apply pair_of_spec in Hp as (-> & Hp).
        apply elem_of_seq in Hi0. split; [lia|done].
      * intros (Hi & Hp). exists i. split; [apply elem_of_seq; lia|].
        apply pair_of_spec. by split.
  - intros i j Hi Hj. unfold credit, debits. rewrite !wrap64_id by done.
    split_and!; [done|lia|].
    rewrite !andb_true_iff, negb_true_iff, bool_decide_eq_false. lia.
Qed.

(** C6, as stated, fails: Bob is credited 5 and Alice, the first debited
    account, is debited 3; the transfer emitted carries 5, the credited
    amount, not the smaller of the two deltas. *)
Lemma C6_counterexample :
  let keys := ["Alice"; "Bob"]%string in
  let meta := {| Fee := 5000; PreBalances := [10; 0]; PostBalances := [7; 5];
                 InnerInstructions := []; InnerInstructionsNone := true;
                 LogMessages := [] |} in
  extractNativeTransfers keys meta
  = [{| nt_FromUserAccount := "Alice"; nt_ToUserAccount := "Bob"; nt_Amount := 5 |}] ∧
  Z.min (5 - 0) (10 - 7) ≠ 5.
Proof. vm_compute. split; [reflexivity|discriminate]. Qed.

Lemma C6_native_transfer_pairing_witness :
  let keys := ["Alice"; "Bob"]%string in
  let meta := {| Fee := 5000; PreBalances := [10; 0]; PostBalances := [7; 5];
                 InnerInstructions := []; InnerInstructionsNone := true;
                 LogMessages := [] |} in
  ∃ pairs : list (nat * nat),
    extractNativeTransfers keys meta = transfer_of keys [10; 0] [7; 5] <$> pairs ∧
    ((0%nat, 1%nat) ∈ pairs ↔
     (1 < 2)%nat ∧ 0 < credit [10; 0] [7; 5] 1 ∧ (0 < 2)%nat ∧
     debits [10; 0] [7; 5] 1 0 = true ∧
     ∀ j', (j' < 0)%nat → debits [10; 0] [7; 5] 1 j' = false).
Proof.
  intros keys meta.
  destruct (C6_native_transfer_pairing keys meta) as (_ & Hpairs & _).
  destruct Hpairs as (pairs & Heq & _ & Hin); [reflexivity|reflexivity|].
  exists pairs. split; [exact Heq|exact (Hin 0%nat 1%nat)].
Defined.

(** *** ProcessTransaction as a pipeline *)

Section generic.
Context {C : Type} `{!Cache C} {H : Type}.
Variable base58_Decode : string → option (list Z).
Context {float64 : Type}.
Variable quot_pow10 : Z → Z → float64.
Implicit Types (p : Processor (H:=H) (float64:=float64))
  (tx : AlchemySolanaTransaction).

Local Abbreviation Process := (ProcessTransaction base58_Decode quot_pow10).
Local Abbreviation built := (built_of base58_Decode quot_pow10).

Lemma ProcessTransaction_pipeline p rtC rtS rtM tx slot st :
  Process p rtC rtS rtM tx slot st
  = pipeline (pre_of tx) (Signature tx) (built p rtS tx slot) (handler p) rtC rtM st.
Proof.
  unfold ProcessTransaction, pipeline, pre_of, built_of.
  destruct (firstMessage tx) as [[msg meta]|]; [|done].
  destruct (cache_check rtC (Signature tx) st) as [st1 []]; [done|].
  by destruct (buildTransaction _ _ _ _ _ _ _ _).
Qed.

Lemma ProcessTransaction_shape p rtC rtS rtM tx slot st :
  run_shape (pre_of tx) (Signature tx) (built p rtS tx slot) (handler p) rtC rtM st
    (Process p rtC rtS rtM tx slot st)
    (events_since st (Process p rtC rtS rtM tx slot st).1).
Proof. rewrite ProcessTransaction_pipeline. apply pipeline_shape. Qed.

End generic.

End solana_props.

(** ** Handler errors and cache errors, for both normalizers *)

Module normalizer_props.
Import gostr cache cache_props pipeline_props samples.

Section generic.
Context {C : Type} `{!Cache C} {H P : Type}.
Implicit Types (st : State C H P) (h : option (Handler H P)) (built : outcome + P).

Lemma pipeline_marks_only_on_success pre id built h rtC rtM st :
  marks_only_on_success h id rtC st (pipeline pre id built h rtC rtM st).
Proof.
  pose proof (pipeline_shape pre id built h rtC rtM st) as Hs. split.
  - intros x e Hin. by eapply shape_handler_error.
  - intros k ttl res Hin. by eapply shape_mark.
Qed.

Lemma pipeline_fail_open pre id built h rtC rtM st :
  fail_open id rtC (pipeline pre id built h rtC rtM) st.
Proof.
  split.
  - intros c e Hc He. apply pipeline_miss_as_without_cache.
    by eapply IsProcessed_error_miss.
  - intros k ttl e Hin.
    pose proof (pipeline_shape pre id built h rtC rtM st) as Hs.
    by destruct (shape_mark _ _ _ _ _ _ _ _ _ _ _ _ Hs Hin) as (_ & _ & ? & _).
Qed.

End generic.

(** With the in-process cache, an event whose handler failed is not in the
    cache afterwards: a later IsProcessed of its key answers false. *)
Lemma memory_handler_error_not_marked {H P : Type} pre id (built : outcome + P)
    (h : option (Handler H P)) rtC rtM (st : State MemoryCache H P) x e :
  EvHandler x (Some e)
    ∈ events_since st (pipeline pre id built h rtC rtM st).1 →
  is_Some (st_cache st) →
  ∃ c', st_cache (pipeline pre id built h rtC rtM st).1 = Some c' ∧
        ∀ rt', MemoryCache_IsProcessed rt' c' id = (c', (false, None)).
Proof.
  intros Hin [c Hc].
  pose proof (pipeline_shape pre id built h rtC rtM st) as Hs.
  destruct (shape_handler_error _ _ _ _ _ _ _ _ _ _ _ Hs Hin) as (_ & _ & Hcache).
  assert (handler_calls (events_since st (pipeline pre id built h rtC rtM st).1) ≠ [])
    as Hcalled.
  { intros Hnil. apply list_elem_of_split in Hin as (l1 & l2 & Heq).
    rewrite Heq, handler_calls_app in Hnil. simpl in Hnil.
    by destruct (handler_calls l1). }
  destruct (shape_called _ _ _ _ _ _ _ _ _ Hs Hcalled) as (_ & Hmiss & _).
  rewrite Hcache, (proj2 (proj2 (cache_check_trace _ _ _))), Hc. simpl.
  eexists. split; [done|]. intros rt'. apply IsProcessed_absent.
  apply IsProcessed_miss_absent.
  pose proof (IsProcessed_no_error rtC c id) as Hne.
  destruct (MemoryCache_IsProcessed rtC c id) as [c1 [b oe]] eqn:E.
  simpl in Hne. subst oe. destruct b; [|done].
  assert ((cache_check rtC id st).2 = true) as Hhit; [|congruence].
  apply cache_check_processed. exists c. split; [done|].
  change (IsProcessed rtC c id) with (MemoryCache_IsProcessed rtC c id). by rewrite E.
Qed.

(** C2 — Handler errors prevent the cache mark, in both normalizers.  When
    the handler returns an error, ProcessActivity and ProcessTransaction
    return that error (wrapped), MarkProcessed is not called and the cache is
    as the IsProcessed consult left it; a MarkProcessed call is of the dedup
    key with a ttl of 24 hours, and is made only in a run that returns nil
    after the handler (when one is configured) returned nil.  With the
    in-process cache the event stays eligible: a later IsProcessed of its key
    answers false. *)
Theorem C2_handler_error_prevents_mark :
  (∀ (C : Type) (CC : Cache C) (H address : Type) (ED : EqDecision address)
     (HexToAddress : string → address) (p : eth.Processor (H:=H) (address:=address))
     rtC rtM a (st : State C H eth.ProcessedActivity),
     marks_only_on_success (eth.handler p) (eth.uniqueIDOf a) rtC st
       (eth.ProcessActivity HexToAddress p rtC rtM a st)) ∧
  (∀ (C : Type) (CC : Cache C) (H float64 : Type)
     (base58_Decode : string → option (list Z)) (quot_pow10 : Z → Z → float64)
     (p : solana.Processor (H:=H) (float64:=float64)) rtC rtS rtM tx slot
     (st : State C H solana.ProcessedTransaction),
     marks_only_on_success (solana.handler p) (solana.Signature tx) rtC st
       (solana.ProcessTransaction base58_Decode quot_pow10 p rtC rtS rtM tx slot st)) ∧
  (∀ (H address : Type) (ED : EqDecision address)
     (HexToAddress : string → address) (p : eth.Processor (H:=H) (address:=address))
     rtC rtM a (st : State MemoryCache H eth.ProcessedActivity) x e,
     let r := eth.ProcessActivity HexToAddress p rtC rtM a st in
     EvHandler x (Some e) ∈ events_since st r.1 → is_Some (st_cache st) →
     ∃ c', st_cache r.1 = Some c' ∧
           ∀ rt', MemoryCache_IsProcessed rt' c' (eth.uniqueIDOf a) = (c', (false, None))) ∧
  (∀ (H float64 : Type)
     (base58_Decode : string → option (list Z)) (quot_pow10 : Z → Z → float64)
     (p : solana.Processor (H:=H) (float64:=float64)) rtC rtS rtM tx slot
     (st : State MemoryCache H solana.ProcessedTransaction) x e,
     let r := solana.ProcessTransaction base58_Decode quot_pow10 p rtC rtS rtM tx slot st in
     EvHandler x (Some e) ∈ events_since st r.1 → is_Some (st_cache st) →
     ∃ c', st_cache r.1 = Some c' ∧
           ∀ rt', MemoryCache_IsProcessed rt' c' (solana.Signature tx) = (c', (false, None))).
Proof.
  split_and!.
  - intros. rewrite eth_props.ProcessActivity_pipeline.
    apply pipeline_marks_only_on_success.
  - intros. rewrite solana_props.ProcessTransaction_pipeline.
    apply pipeline_marks_only_on_success.
  - intros H address ED HexToAddress p rtC rtM a st x e r. unfold r.
    rewrite eth_props.ProcessActivity_pipeline.
    apply memory_handler_error_not_marked.
  - intros H float64 base58_Decode quot_pow10 p rtC rtS rtM tx slot st x e r. unfold r.
    rewrite solana_props.ProcessTransaction_pipeline.
    apply memory_handler_error_not_marked.
Qed.

Lemma C2_handler_error_prevents_mark_witness :
  let a := external "0x1f" (Some one_and_a_half) in
  let st := world (Some (NewMemoryCache 10 true)) in
  let r := eth.ProcessActivity id (ethProcessor (Some failingHandler))
             (rt_at 1) (rt_at 2) a st in
  r.2 = Return (Some (ErrWrap "handler error" (ErrMsg "downstream unavailable"))) ∧
  mark_calls (events_since st r.1) = [] ∧
  st_cache r.1 = st_cache (cache_check (rt_at 1) (eth.uniqueIDOf a) st).1.
Proof.
  intros a st r.
  destruct C2_handler_error_prevents_mark as (Heth & _).
  destruct (Heth MemoryCache _ nat string _ id (ethProcessor (Some failingHandler))
              (rt_at 1) (rt_at 2) a st) as [Herr _].
  apply (Herr delivered_external (ErrMsg "downstream unavailable")).
  apply (list_elem_of_lookup_2 _ 1%nat). vm_compute. reflexivity.
Defined.



(** The run of the witness: the server is down, both cache calls fail, the
    handler is called once and the normalizer returns nil. *)
Example redis_down_run :
  let a := external "0x1f" (Some one_and_a_half) in
  let r := eth.ProcessActivity id (ethProcessor (Some countingHandler))
             (rt_at 1) (rt_at 2) a (world (Some redis_down)) in
  r.2 = Return None ∧ st_handler r.1 = 1%nat ∧
  (λ ev, match ev with
         | EvIsProcessed _ (_, Some _) | EvMarkProcessed _ _ (Some _) => true
         | EvHandler _ None => true
         | _ => false
         end) <$> st_trace r.1 = [true; true; true].
Proof. vm_compute. done. Qed.

(** A Solana transaction whose handler fails: the error is returned and the
    signature is not marked. *)
Example solana_handler_error_run :
  let r := solana.ProcessTransaction (λ _, None) (λ a _, a)
             (solProcessor (Some failingHandler)) (rt_at 1) (rt_at 1) (rt_at 2)
             (solTx [10; 0] [7; 5]) 42 (world (Some (NewMemoryCache 10 false))) in
  r.2 = Return (Some (ErrWrap "handler error" (ErrMsg "downstream unavailable"))) ∧
  mark_calls (st_trace r.1) = [] ∧ length (handler_calls (st_trace r.1)) = 1%nat.
Proof. vm_compute. done. Qed.

End normalizer_props.

(** * Further properties of the code *)

(** ** The in-process cache *)

Module cache_more.
Import cache cache_props.

Lemma lookup_after_IsProcessed_ne rt c k k' :
  k' ≠ k → entries (MemoryCache_IsProcessed rt c k).1 !! k' = entries c !! k'.
Proof.
  intros Hne. unfold MemoryCache_IsProcessed.
  destruct (entries c !! k) as [t|]; [|done].
  destruct (After (now rt) t); simpl; [|done]. by rewrite lookup_delete_ne.
Qed.

Lemma IsProcessed_expired rt c k t :
  entries c !! k = Some t → t < now rt →
  MemoryCache_IsProcessed rt c k
  = (with_entries c (delete k (entries c))
       (if enableLRU c then removeFromAccessOrder k (accessOrder c) else accessOrder c),
     (false, None)).
Proof.
  intros Hk Ht. unfold MemoryCache_IsProcessed. rewrite Hk.
  assert (After (now rt) t = true) as -> by (unfold After; apply Z.ltb_lt; lia).
  done.
Qed.

(** X1 — Expiry.  A key marked with [ttl] and looked up later than [ttl]
    after the mark is reported as not processed; the lookup deletes the entry,
    which no longer counts toward the capacity, and leaves every other entry as
    it was. *)
Theorem X1_lookup_after_expiry (rt rt' : Runtime) (c : MemoryCache) (key : string) (ttl : Z) :
  now rt + ttl < now rt' →
  let c1 := (MemoryCache_MarkProcessed rt c key ttl).1 in
  let r := MemoryCache_IsProcessed rt' c1 key in
  r.2 = (false, None) ∧
  entries r.1 !! key = None ∧
  len_entries r.1 = len_entries c1 - 1 ∧
  ∀ k', k' ≠ key → entries r.1 !! k' = entries c1 !! k'.
Proof.
  intros Hlate c1 r.
  assert (entries c1 !! key = Some (now rt + ttl)) as Hk.
  { unfold c1. rewrite MarkProcessed_entries. apply lookup_insert_eq. }
  clearbody c1.
  unfold r. rewrite (IsProcessed_expired rt' c1 key _ Hk Hlate). simpl. split_and!.
  - done.
  - apply lookup_delete_eq.
  - unfold len_entries. simpl. rewrite map_size_delete, Hk. simpl.
    assert (size (entries c1) ≠ 0%nat); [|lia].
    intros Hz. apply map_size_empty_inv in Hz. by rewrite Hz in Hk.
  - intros k' Hne. by rewrite lookup_delete_ne.
Qed.

Lemma X1_lookup_after_expiry_witness :
  let c1 := (MemoryCache_MarkProcessed (rt_at 0) (NewMemoryCache 2 true) "A" 50).1 in
  let r := MemoryCache_IsProcessed (rt_at 100) c1 "A" in
  r.2 = (false, None) ∧ entries r.1 !! "A" = None ∧
  len_entries r.1 = len_entries c1 - 1 ∧
  ∀ k', k' ≠ "A" → entries r.1 !! k' = entries c1 !! k'.
Proof.
  apply (X1_lookup_after_expiry (rt_at 0) (rt_at 100) (NewMemoryCache 2 true) "A" 50).
  simpl. lia.
Defined.

(** *** Recency *)

Lemma IsProcessed_hit rt c k :
  (MemoryCache_IsProcessed rt c k).2 = (true, None) →
  ∃ t, entries c !! k = Some t ∧ now rt ≤ t ∧
       (MemoryCache_IsProcessed rt c k).1
       = with_entries c (entries c)
           (if enableLRU c then updateAccessOrder k (accessOrder c) else accessOrder c).
Proof.
  unfold MemoryCache_IsProcessed. destruct (entries c !! k) as [t|]; [|done].
  unfold After. destruct (t <? now rt) eqn:E; [done|]. intros _. exists t.
  split_and!; [done|lia|done].
Qed.

Lemma reachable_inv m lru ops :
  1 ≤ m → Forall (λ o, rangeOrder_ok (op_runtime o)) ops →
  let c := run (NewMemoryCache m lru) ops in
  capacity_inv c ∧ maxSize c = m ∧ enableLRU c = lru.
Proof.
  intros Hm Hops c. destruct (run_config (NewMemoryCache m lru) ops) as [Hmax Hlru].
  split_and!; [|done|done]. apply run_inv; [done|done|]. apply NewMemoryCache_inv. lia.
Qed.

(** X2 — LRU eviction.  In LRU mode, on a cache built with maxSize >= 2, a
    key that has just been read with a hit survives the MarkProcessed of any
    other key; and on a full cache the key that MarkProcessed evicts is the
    head of the recency list, every key other than it and the marked one
    keeping its entry. *)
Theorem X2_lru_evicts_least_recent (m : Z) (ops : list op) (rtA rt : Runtime)
    (A B : string) (ttl : Z) :
  2 ≤ m → Forall (λ o, rangeOrder_ok (op_runtime o)) ops → B ≠ A →
  let c := run (NewMemoryCache m true) ops in
  ((MemoryCache_IsProcessed rtA c A).2 = (true, None) →
   let c2 := (MemoryCache_MarkProcessed rt (MemoryCache_IsProcessed rtA c A).1 B ttl).1 in
   is_Some (entries c2 !! A) ∧ entries c2 !! A = entries c !! A) ∧
  (∀ oldest rest, accessOrder c = oldest :: rest → len_entries c = m →
     let c2 := (MemoryCache_MarkProcessed rt c B ttl).1 in
     (oldest ≠ B → entries c2 !! oldest = None) ∧
     ∀ k, k ≠ oldest → k ≠ B → entries c2 !! k = entries c !! k).
Proof.
  intros Hm Hops Hne c.
  destruct (reachable_inv m true ops) as ((Hcap & Hord) & Hmax & Hlru); [lia|done|].
  fold c in Hcap, Hord, Hmax, Hlru. specialize (Hord Hlru). split.
  - intros Hhit c2.
    destruct (IsProcessed_hit rtA c A Hhit) as (t & HA & _ & Hc1).
    assert (entries c2 !! A = entries c !! A) as Heq; [|by rewrite Heq, HA].
    unfold c2. rewrite Hc1, MarkProcessed_entries, lookup_insert_ne by done.
    unfold evict. simpl. rewrite Hlru, Hmax. unfold len_entries at 1. simpl.
    destruct (m <=? Z.of_nat (size (entries c))) eqn:Hfull; [|done].
    apply Z.leb_le in Hfull.
    pose proof (order_agrees_length c Hord) as Hlen.
    assert (A ∈ accessOrder c) as HAin by (apply Hord; eauto).
    pose proof (removeFromAccessOrder_length A (accessOrder c) HAin) as Hrem.
    unfold updateAccessOrder.
    destruct (removeFromAccessOrder A (accessOrder c)) as [|x l] eqn:Hr;
      [simpl in Hrem; lia|].
    simpl. rewrite lookup_delete_ne; [done|].
    intros <-.
    assert (x ∈ removeFromAccessOrder x (accessOrder c)) as Hx by (rewrite Hr; left).
    apply removeFromAccessOrder_elem_NoDup in Hx; [naive_solver|apply Hord].
  - intros oldest rest Ho Hfull c2. unfold c2.
    rewrite MarkProcessed_entries. unfold evict.
    rewrite Hmax, Hlru, Hfull, Z.leb_refl, Ho. simpl. split.
    + intros Hob. rewrite lookup_insert_ne by done. apply lookup_delete_eq.
    + intros k Hk HkB. by rewrite lookup_insert_ne, lookup_delete_ne.
Qed.

Lemma X2_lru_evicts_least_recent_witness :
  let ops := [OpMarkProcessed (rt_at 0) "A" 100; OpMarkProcessed (rt_at 1) "B" 100] in
  let c := run (NewMemoryCache 2 true) ops in
  let c2 := (MemoryCache_MarkProcessed (rt_at 3)
               (MemoryCache_IsProcessed (rt_at 2) c "A").1 "C" 100).1 in
  is_Some (entries c2 !! "A") ∧ entries c2 !! "A" = entries c !! "A".
Proof.
  intros ops c c2.
  destruct (X2_lru_evicts_least_recent 2 ops (rt_at 2) (rt_at 3) "A" "C" 100)
    as [Hkeep _].
  - lia.
  - repeat constructor; apply rt_at_ok.
  - discriminate.
  - apply Hkeep. vm_compute. reflexivity.
Defined.

(** *** The sweep *)

Lemma sweep_lookup_None t (l : list (string * Z)) c k :
  entries c !! k = None → entries (foldl (sweepStep t) c l) !! k = None.
Proof.
  revert c. induction l as [|[k0 v0] l IH]; intros c Hk; simpl; [done|].
  apply IH. unfold sweepStep. simpl. destruct (After t v0); simpl; [|done].
  destruct (decide (k = k0)) as [->|Hne];
    [apply lookup_delete_eq|by rewrite lookup_delete_ne].
Qed.

Lemma sweep_lookup_keep t (l : list (string * Z)) c k :
  (∀ v, (k, v) ∈ l → After t v = false) →
  entries (foldl (sweepStep t) c l) !! k = entries c !! k.
Proof.
  revert c. induction l as [|[k0 v0] l IH]; intros c Hl; simpl; [done|].
  rewrite IH by (intros v Hin; apply Hl; by right).
  unfold sweepStep. simpl. destruct (After t v0) eqn:Hexp; simpl; [|done].
  apply lookup_delete_ne. intros <-. rewrite (Hl v0) in Hexp; [done|left].
Qed.

Lemma sweep_lookup_drop t (l : list (string * Z)) c k v :
  (k, v) ∈ l → After t v = true →
  entries (foldl (sweepStep t) c l) !! k = None.
Proof.
  revert c. induction l as [|[k0 v0] l IH]; intros c Hin Hv; simpl.
  { by apply elem_of_nil in Hin. }
  apply elem_of_cons in Hin as [[= <- <-]|Hin]; [|by apply IH].
  apply sweep_lookup_None. unfold sweepStep. simpl. rewrite Hv. simpl.
  apply lookup_delete_eq.
Qed.

(** X3 — The periodic sweep.  One tick of cleanupExpired removes exactly the
    entries that have expired and keeps every other entry with its expiry. *)
Theorem X3_sweep_removes_expired (rt : Runtime) (c : MemoryCache) (k : string) :
  rangeOrder_ok rt →
  entries (cleanupExpired_tick rt c) !! k
  = match entries c !! k with
    | Some t => if After (now rt) t then None else Some t
    | None => None
    end.
Proof.
  intros Hok. unfold cleanupExpired_tick.
  destruct (entries c !! k) as [t|] eqn:Hk.
  - destruct (After (now rt) t) eqn:Hexp.
    + apply (sweep_lookup_drop _ _ _ _ t); [|done].
      rewrite (Hok (entries c)). by apply elem_of_map_to_list.
    + rewrite sweep_lookup_keep; [done|]. intros v Hin.
      apply (rangeOrder_lookup rt _ _ _ Hok) in Hin. congruence.
  - by apply sweep_lookup_None.
Qed.

Lemma X3_sweep_removes_expired_witness :
  let c := run (NewMemoryCache 4 false)
             [OpMarkProcessed (rt_at 0) "A" 10; OpMarkProcessed (rt_at 0) "B" 100] in
  entries (cleanupExpired_tick (rt_at 50) c) !! "A" = None ∧
  entries (cleanupExpired_tick (rt_at 50) c) !! "B" = Some 100.
Proof.
  intros c. split.
  - rewrite (X3_sweep_removes_expired (rt_at 50) c "A" (rt_at_ok 50)). reflexivity.
  - rewrite (X3_sweep_removes_expired (rt_at 50) c "B" (rt_at_ok 50)). reflexivity.
Defined.

(** *** A cache of capacity zero *)

Lemma IsProcessed_shrinks rt c k :
  (size (entries (MemoryCache_IsProcessed rt c k).1) ≤ size (entries c))%nat ∧
  (enableLRU c = true → order_agrees c →
   order_agrees (MemoryCache_IsProcessed rt c k).1).
Proof.
  unfold MemoryCache_IsProcessed.
  destruct (entries c !! k) as [t|] eqn:Hk; [|done].
  destruct (After (now rt) t); split; simpl.
  - pose proof (map_size_delete k (entries c)) as Hs. rewrite Hk in Hs. lia.
  - intros -> Hord. by apply order_agrees_delete.
  - done.
  - intros -> Hord. apply order_agrees_touch; [done|by eexists].
Qed.

Lemma sweep_shrinks t (l : list (string * Z)) c :
  (size (entries (foldl (sweepStep t) c l)) ≤ size (entries c))%nat ∧
  (enableLRU c = true → order_agrees c → order_agrees (foldl (sweepStep t) c l)).
Proof.
  revert c. induction l as [|kv l IH]; intros c; simpl; [done|].
  destruct (IH (sweepStep t c kv)) as [Hsz Hord].
  unfold sweepStep in *. destruct (After t kv.2); [|done]. simpl in *. split.
  - pose proof (map_size_delete kv.1 (entries c)) as Hs.
    destruct (entries c !! kv.1); simpl in Hs; lia.
  - intros Hlru Hc. rewrite Hlru in *. apply Hord; [done|]. by apply order_agrees_delete.
Qed.

Lemma evict_zero rt c :
  rangeOrder_ok rt → maxSize c = 0 → (size (entries c) ≤ 1)%nat →
  (enableLRU c = true → order_agrees c) →
  entries (evict rt c) = ∅ ∧ (enableLRU c = true → accessOrder (evict rt c) = []).
Proof.
  intros Hok Hmax Hsz Hord. unfold evict, len_entries. rewrite Hmax.
  destruct (0 <=? Z.of_nat (size (entries c))) eqn:E; [|lia].
  destruct (enableLRU c) eqn:Hlru.
  - specialize (Hord eq_refl). pose proof (order_agrees_length c Hord) as Hlen.
    destruct (accessOrder c) as [|oldest rest] eqn:Ho.
    + split; [|done]. apply map_size_empty_inv. simpl in Hlen. lia.
    + assert (is_Some (entries c !! oldest)) as Hin.
      { apply Hord. rewrite Ho. left. }
      simpl in *. split.
      * apply map_size_empty_inv. rewrite map_size_delete_Some by done. lia.
      * intros _. destruct rest; [done|simpl in Hlen; lia].
  - simpl. split; [|done]. apply map_size_empty_inv.
    destruct (decide (size (entries c) = 0%nat)) as [Hz|Hnz].
    + apply map_size_empty_inv in Hz. rewrite Hz. unfold evictAny.
      pose proof (Hok ∅) as Hp. rewrite map_to_list_empty in Hp.
      apply Permutation_nil_r in Hp. rewrite Hp. simpl. by rewrite map_size_empty.
    + rewrite evictAny_size by done. lia.
Qed.

Lemma MarkProcessed_zero rt c k ttl :
  rangeOrder_ok rt → maxSize c = 0 → (size (entries c) ≤ 1)%nat →
  (enableLRU c = true → order_agrees c) →
  entries (MemoryCache_MarkProcessed rt c k ttl).1 = {[k := now rt + ttl]} ∧
  (enableLRU c = true → accessOrder (MemoryCache_MarkProcessed rt c k ttl).1 = [k]).
Proof.
  intros Hok Hmax Hsz Hord.
  destruct (evict_zero rt c Hok Hmax Hsz Hord) as [He Ho].
  destruct (evict_config rt c) as [_ Hl].
  unfold MemoryCache_MarkProcessed. simpl. rewrite He, Hl. split; [done|].
  intros Hlru. rewrite Hlru, (Ho Hlru). done.
Qed.

Lemma run_zero c ops :
  Forall (λ o, rangeOrder_ok (op_runtime o)) ops → maxSize c = 0 →
  (size (entries c) ≤ 1)%nat → (enableLRU c = true → order_agrees c) →
  (size (entries (run c ops)) ≤ 1)%nat ∧
  (enableLRU c = true → order_agrees (run c ops)).
Proof.
  intros Hops. revert c.
  induction Hops as [|o ops Ho Hops IH]; intros c Hmax Hsz Hord; [done|].
  unfold run in *. simpl.
  destruct (run_config c [o]) as [Hm Hl]. unfold run in Hm, Hl. simpl in Hm, Hl.
  rewrite <- Hl. apply IH; [by rewrite Hm| |]; rewrite ?Hl.
  - destruct o as [rt k|rt k ttl|rt]; simpl in *.
    + pose proof (IsProcessed_shrinks rt c k) as [? _]. lia.
    + destruct (MarkProcessed_zero rt c k ttl Ho Hmax Hsz Hord) as [He _].
      change (size (entries (MemoryCache_MarkProcessed rt c k ttl).1) ≤ 1)%nat.
      by rewrite He, map_size_singleton.
    + pose proof (sweep_shrinks (now rt) (rangeOrder rt (entries c)) c) as [? _].
      unfold cleanupExpired_tick. lia.
  - intros Hlru. destruct o as [rt k|rt k ttl|rt]; simpl in *.
    + apply IsProcessed_shrinks; auto.
    + destruct (MarkProcessed_zero rt c k ttl Ho Hmax Hsz Hord) as [He Hk].
      change (order_agrees (MemoryCache_MarkProcessed rt c k ttl).1).
      split; [rewrite (Hk Hlru); apply NoDup_singleton|].
      intros k'. rewrite (Hk Hlru), He, list_elem_of_singleton.
      rewrite lookup_singleton_is_Some. naive_solver.
    + apply sweep_shrinks; auto.
Qed.

(** X4 — A cache built with maxSize = 0.  Whatever was done to it before,
    MarkProcessed leaves exactly one entry, the key just marked: every mark
    evicts what the previous one stored, in LRU and in non-LRU mode, so the
    cache remembers the most recently marked key and no other. *)
Theorem X4_zero_capacity_keeps_last_mark (lru : bool) (ops : list op)
    (rt rt' : Runtime) (k : string) (ttl : Z) :
  Forall (λ o, rangeOrder_ok (op_runtime o)) ops → rangeOrder_ok rt →
  let c := (MemoryCache_MarkProcessed rt (run (NewMemoryCache 0 lru) ops) k ttl).1 in
  entries c = {[k := now rt + ttl]} ∧
  ∀ k', k' ≠ k → (MemoryCache_IsProcessed rt' c k').2 = (false, None).
Proof.
  intros Hops Hok c.
  destruct (run_config (NewMemoryCache 0 lru) ops) as [Hmax Hlru].
  destruct (run_zero (NewMemoryCache 0 lru) ops Hops eq_refl) as [Hsz Hord].
  { simpl. rewrite map_size_empty. lia. }
  { intros Hl. by apply (NewMemoryCache_inv 0 lru). }
  assert (entries c = {[k := now rt + ttl]}) as He.
  { apply MarkProcessed_zero; [done|done|done|].
    intros Hl. apply Hord. by rewrite <- Hlru. }
  split; [done|]. intros k' Hne.
  rewrite IsProcessed_absent; [done|]. rewrite He. by apply lookup_singleton_ne.
Qed.

Lemma X4_zero_capacity_keeps_last_mark_witness :
  let ops := [OpMarkProcessed (rt_at 0) "A" 100; OpIsProcessed (rt_at 1) "A"] in
  let c := (MemoryCache_MarkProcessed (rt_at 2) (run (NewMemoryCache 0 false) ops) "B" 100).1 in
  (MemoryCache_IsProcessed (rt_at 3) c "A").2 = (false, None).
Proof.
  intros ops c.
  apply (X4_zero_capacity_keeps_last_mark false ops (rt_at 2) (rt_at 3) "B" 100).
  - repeat constructor; apply rt_at_ok.
  - apply rt_at_ok.
  - discriminate.
Defined.

(** *** Marking again a key that is present *)

(** X5 — MarkProcessed evicts by the size alone.  In LRU mode, on a full
    cache, marking a key that is already stored and is not the head of the
    recency list still evicts the head: the cache ends one entry below its
    capacity, the marked key carries its new expiry and is the most recently
    used. *)
Theorem X5_remark_on_full_cache_evicts (m : Z) (ops : list op) (rt : Runtime)
    (k oldest : string) (rest : list string) (ttl : Z) :
  1 ≤ m → Forall (λ o, rangeOrder_ok (op_runtime o)) ops →
  let c := run (NewMemoryCache m true) ops in
  len_entries c = m → accessOrder c = oldest :: rest → k ∈ rest →
  let c2 := (MemoryCache_MarkProcessed rt c k ttl).1 in
  len_entries c2 = m - 1 ∧ entries c2 !! oldest = None ∧
  entries c2 !! k = Some (now rt + ttl) ∧ last (accessOrder c2) = Some k.
Proof.
  intros Hm Hops c Hfull Ho Hk c2.
  destruct (reachable_inv m true ops Hm Hops) as ((Hcap & Hord) & Hmax & Hlru).
  fold c in Hcap, Hord, Hmax, Hlru. specialize (Hord Hlru).
  assert (k ≠ oldest) as Hne.
  { intros ->. destruct Hord as [Hnd _]. rewrite Ho in Hnd.
    by apply NoDup_cons in Hnd as [Hnin _]. }
  assert (is_Some (entries c !! k)) as [t Ht].
  { apply Hord. rewrite Ho. by right. }
  assert (is_Some (entries c !! oldest)) as Hold.
  { apply Hord. rewrite Ho. left. }
  assert (evict rt c = with_entries c (delete oldest (entries c)) rest) as Hev.
  { unfold evict. by rewrite Hmax, Hlru, Hfull, Z.leb_refl, Ho. }
  unfold c2, MemoryCache_MarkProcessed. rewrite Hev. simpl. rewrite Hlru.
  unfold len_entries in *. simpl. split_and!.
  - rewrite map_size_insert_Some by (rewrite lookup_delete_ne by done; eauto).
    rewrite map_size_delete_Some by done. lia.
  - rewrite lookup_insert_ne by done. apply lookup_delete_eq.
  - apply lookup_insert_eq.
  - unfold updateAccessOrder. apply last_snoc.
Qed.

Lemma X5_remark_on_full_cache_evicts_witness :
  let ops := [OpMarkProcessed (rt_at 0) "A" 100; OpMarkProcessed (rt_at 1) "B" 100] in
  let c2 := (MemoryCache_MarkProcessed (rt_at 2) (run (NewMemoryCache 2 true) ops) "B" 100).1 in
  len_entries c2 = 2 - 1 ∧ entries c2 !! "A" = None.
Proof.
  intros ops c2.
  destruct (X5_remark_on_full_cache_evicts 2 ops (rt_at 2) "B" "A" ["B"%string] 100)
    as (H1 & H2 & _).
  - lia.
  - repeat constructor; apply rt_at_ok.
  - vm_compute. reflexivity.
  - vm_compute. reflexivity.
  - left.
  - split; [exact H1|exact H2].
Defined.

(** *** Eviction without LRU *)

(** X27 — Without LRU, an expired entry is evicted first.  When some
    entry of the cache has expired, the eviction of MarkProcessed removes an
    expired entry, whatever order the range over the map takes: every live
    entry other than the key being marked keeps its expiry. *)
Theorem X27_non_lru_evicts_expired_first (rt : Runtime) (c : MemoryCache)
    (expired live key : string) (te t ttl : Z) :
  rangeOrder_ok rt → enableLRU c = false →
  entries c !! expired = Some te → te < now rt →
  entries c !! live = Some t → now rt ≤ t → live ≠ key →
  entries (MemoryCache_MarkProcessed rt c key ttl).1 !! live = Some t ∧
  (len_entries c = maxSize c →
   ∃ k v, entries c !! k = Some v ∧ v < now rt ∧
          entries (evict rt c) = delete k (entries c)).
Proof.
  intros Hok Hlru He Hte Hl Ht Hne.
  assert (maxSize c ≤ len_entries c →
          ∃ k v, entries c !! k = Some v ∧ v < now rt ∧
                 entries (evict rt c) = delete k (entries c)) as Hev.
  { intros Hfull. unfold evict. rewrite Hlru.
    destruct (maxSize c <=? len_entries c) eqn:E; [|lia]. simpl. unfold evictAny.
    destruct (List.find _ _) as [[k v]|] eqn:Hf.
    - apply find_some in Hf as [Hin Hexp]. apply list_elem_of_In in Hin.
      apply (rangeOrder_lookup rt _ _ _ Hok) in Hin.
      unfold After in Hexp. simpl in Hexp. apply Z.ltb_lt in Hexp. eauto.
    - assert ((expired, te) ∈ rangeOrder rt (entries c)) as Hin.
      { rewrite (Hok (entries c)). by apply elem_of_map_to_list. }
      apply list_elem_of_In in Hin.
      apply (find_none _ _ Hf) in Hin. unfold After in Hin. simpl in Hin.
      apply Z.ltb_ge in Hin. lia. }
  split; [|intros Hfull; apply Hev; lia].
  rewrite MarkProcessed_entries, lookup_insert_ne by done.
  destruct (decide (maxSize c ≤ len_entries c)) as [Hfull|Hroom].
  - destruct (Hev Hfull) as (k & v & Hk & Hv & ->).
    rewrite lookup_delete_ne; [done|]. intros ->. rewrite Hk in Hl. simplify_eq. lia.
  - unfold evict. destruct (maxSize c <=? len_entries c) eqn:E; [lia|done].
Qed.

Lemma X27_non_lru_evicts_expired_first_witness :
  let c := run (NewMemoryCache 2 false)
             [OpMarkProcessed (rt_at 0) "A" 10; OpMarkProcessed (rt_at 0) "B" 100] in
  entries (MemoryCache_MarkProcessed (rt_at 50) c "C" 100).1 !! "B" = Some 100.
Proof.
  intros c.
  apply (X27_non_lru_evicts_expired_first (rt_at 50) c "A" "B" "C" 10 100 100).
  - apply rt_at_ok.
  - reflexivity.
  - vm_compute. reflexivity.
  - reflexivity.
  - vm_compute. reflexivity.
  - discriminate.
  - discriminate.
Defined.

End cache_more.

(** ** The Ethereum normalizer: what the handler receives *)

Module eth_more.
Import gostr gofloat cache eth cache_props pipeline_props eth_props.

Lemma HasPrefix_0x s : HasPrefix s "0x" = true → ∃ r, s = ("0x" ++ r)%string.
Proof.
  destruct s as [|c0 [|c1 r]]; simpl; try done.
  - by rewrite andb_false_r.
  - intros Hp. apply andb_prop in Hp as [H0 Hp]. apply andb_prop in Hp as [H1 _].
    apply bool_decide_eq_true_1 in H0, H1. subst. by exists r.
Qed.

Lemma first_bad_all f s : first_bad f s = None ↔ all_chars f s = true.
Proof.
  induction s as [|c r IH]; simpl; [done|].
  destruct (f c); simpl; [done|]. split; discriminate.
Qed.

Lemma txHashOf_prefixed a : HasPrefix (txHashOf a) "0x" = true.
Proof.
  unfold txHashOf. destruct (HasPrefix (ToLower _) "0x") eqn:E; simpl; [done|].
  by destruct (ToLower _).
Qed.

(** A hash the validator accepts is, after the normalisation of lines
    360-363, "0x" and 64 lower-case hexadecimal digits. *)
Lemma txHashOf_canonical a :
  validateTransactionHash (txHashOf a) = None →
  ∃ h, txHashOf a = ("0x" ++ h)%string ∧ String.length h = 64%nat ∧
       all_chars is_lower_hex h = true.
Proof.
  unfold validateTransactionHash. rewrite txHashOf_lower.
  destruct (HasPrefix_0x _ (txHashOf_prefixed a)) as [h Hh]. rewrite Hh.
  case_bool_decide; [done|].
  assert (TrimPrefix ("0x" ++ h)%string "0x" = h) as -> by (by destruct h).
  destruct (len h =? 64) eqn:Hl; simpl; [|done].
  destruct (first_bad is_lower_hex h) eqn:Hb; [done|]. intros _.
  exists h. split_and!; [done| |by apply first_bad_all].
  apply Z.eqb_eq in Hl. unfold len in Hl. lia.
Qed.

Lemma digits_from_nonneg base acc s n :
  0 ≤ base → 0 ≤ acc → digits_from base acc s = Some n → 0 ≤ n.
Proof.
  intros Hb. revert acc. induction s as [|c r IH]; intros acc Hacc; simpl.
  - intros [= <-]. done.
  - destruct (digit_val c) as [d|] eqn:Hd; [|done].
    destruct (d <? base); [|done]. apply IH.
    assert (0 ≤ d); [|nia].
    unfold digit_val in Hd. cbv zeta in Hd.
    repeat match type of Hd with
           | (if ?b then _ else _) = _ =>
               let E := fresh "E" in
               destruct b eqn:E;
               [apply andb_prop in E as [E _]; apply Z.leb_le in E;
                injection Hd as <-; lia|]
           end.
    done.
Qed.

Lemma ParseUint64_range s base n :
  0 ≤ base → ParseUint64 s base = Some n → 0 ≤ n < 2 ^ 64.
Proof.
  intros Hb. unfold ParseUint64.
  destruct (parse_digits base s) as [m|] eqn:Hp; [|done].
  destruct (m <? 2 ^ 64) eqn:Hlt; [|done]. intros [= <-].
  split; [|by apply Z.ltb_lt].
  unfold parse_digits in Hp. destruct s; [done|].
  by apply (digits_from_nonneg base 0 _ m Hb) in Hp.
Qed.

(** *** The dedup key *)

Lemma HasPrefix_nil s : HasPrefix s "" = true.
Proof. by destruct s. Qed.

Lemma TrimPrefix_0x r : TrimPrefix ("0x" ++ r)%string "0x" = r.
Proof. by destruct r. Qed.

Lemma TrimPrefix_no_0x s : HasPrefix s "0x" = false → TrimPrefix s "0x" = s.
Proof. unfold TrimPrefix. by intros ->. Qed.

(** A hash the validator accepts has no second "0x" after the first. *)
Lemma valid_hash_no_second_prefix r :
  validateTransactionHash ("0x" ++ r)%string = None → HasPrefix (ToLower r) "0x" = false.
Proof.
  unfold validateTransactionHash. case_bool_decide; [done|].
  rewrite ToLower_0x, TrimPrefix_0x.
  destruct (len (ToLower r) =? 64); simpl; [|done].
  destruct (HasPrefix (ToLower r) "0x") eqn:Hp; [|done].
  apply HasPrefix_0x in Hp as [r' ->]. done.
Qed.

(** The normalised hash in terms of the input: with the exact prefix "0x"
    removed first, and otherwise not. *)
Lemma txHashOf_trimmed a r :
  Hash a = ("0x" ++ r)%string →
  txHashOf a = if HasPrefix (ToLower r) "0x" then ToLower r else ("0x" ++ ToLower r)%string.
Proof.
  intros Hh. unfold txHashOf. rewrite Hh, TrimPrefix_0x.
  by destruct (HasPrefix (ToLower r) "0x").
Qed.

Lemma txHashOf_untrimmed a :
  HasPrefix (Hash a) "0x" = false →
  txHashOf a = if HasPrefix (ToLower (Hash a)) "0x" then ToLower (Hash a)
               else ("0x" ++ ToLower (Hash a))%string.
Proof.
  intros Hh. unfold txHashOf. rewrite TrimPrefix_no_0x by done.
  by destruct (HasPrefix (ToLower (Hash a)) "0x").
Qed.

Lemma uniqueIDOf_ext a a' :
  txHashOf a = txHashOf a' → TypeTraceAddress a = TypeTraceAddress a' →
  uniqueIDOf a = uniqueIDOf a'.
Proof. unfold uniqueIDOf. by intros -> ->. Qed.

(** X7 — The dedup key does not depend on the spelling of the hash.  Two
    activities with the same trace address, both with a hash that
    validateTransactionHash accepts after normalisation, have the same dedup
    key when their Hash fields differ only in the case of letters, or when
    one is the other with "0x" put in front. *)
Theorem X7_dedup_key_ignores_case_and_prefix (a a' : AlchemyActivity) :
  TypeTraceAddress a = TypeTraceAddress a' →
  validateTransactionHash (txHashOf a) = None →
  validateTransactionHash (txHashOf a') = None →
  ToLower (Hash a) = ToLower (Hash a') ∨ Hash a' = ("0x" ++ Hash a)%string →
  uniqueIDOf a = uniqueIDOf a'.
Proof.
  intros Ht Hv Hv' Hsame. apply uniqueIDOf_ext; [|done]. clear Ht.
  destruct Hsame as [Hlow|Hpre].
  - destruct (HasPrefix (Hash a) "0x") eqn:Hp; destruct (HasPrefix (Hash a') "0x") eqn:Hp'.
    + apply HasPrefix_0x in Hp as [r Hr]. apply HasPrefix_0x in Hp' as [r' Hr'].
      rewrite (txHashOf_trimmed a r Hr), (txHashOf_trimmed a' r' Hr').
      rewrite Hr, Hr' in Hlow. simpl in Hlow. injection Hlow as Hlow.
      change (ToLower r = ToLower r') in Hlow. by rewrite Hlow.
    + apply HasPrefix_0x in Hp as [r Hr].
      rewrite (txHashOf_untrimmed a' Hp') in Hv' |- *.
      rewrite (txHashOf_trimmed a r Hr).
      rewrite <- Hlow, Hr, ToLower_0x in Hv' |- *. simpl in Hv' |- *.
      rewrite HasPrefix_nil in Hv' |- *. simpl in Hv' |- *.
      apply valid_hash_no_second_prefix in Hv'. rewrite ToLower_idemp in Hv'.
      by rewrite Hv'.
    + apply HasPrefix_0x in Hp' as [r' Hr'].
      rewrite (txHashOf_untrimmed a Hp) in Hv |- *.
      rewrite (txHashOf_trimmed a' r' Hr').
      rewrite Hlow, Hr', ToLower_0x in Hv |- *. simpl in Hv |- *.
      rewrite HasPrefix_nil in Hv |- *. simpl in Hv |- *.
      apply valid_hash_no_second_prefix in Hv. rewrite ToLower_idemp in Hv.
      by rewrite Hv.
    + by rewrite (txHashOf_untrimmed a Hp), (txHashOf_untrimmed a' Hp'), Hlow.
  - rewrite (txHashOf_trimmed a' (Hash a) Hpre) in Hv' |- *.
    destruct (HasPrefix (Hash a) "0x") eqn:Hp.
    + apply HasPrefix_0x in Hp as [r Hr].
      rewrite (txHashOf_trimmed a r Hr). rewrite Hr, ToLower_0x in Hv' |- *.
      simpl in Hv' |- *. rewrite HasPrefix_nil in Hv' |- *. simpl in Hv' |- *.
      apply valid_hash_no_second_prefix in Hv'. rewrite ToLower_idemp in Hv'.
      by rewrite Hv'.
    + by rewrite (txHashOf_untrimmed a Hp).
Qed.

Section generic.
Context {C : Type} `{!Cache C} {H : Type}.
Context {address : Type} `{!EqDecision address}.
Variable HexToAddress : string → address.
Implicit Types (p : Processor (H:=H) (address:=address)) (a : AlchemyActivity)
  (st : State C H ProcessedActivity).

Local Abbreviation Process := (ProcessActivity HexToAddress).
Local Abbreviation build := (buildActivity HexToAddress).

Lemma resolveCurrency_nonempty p a rc : resolveCurrency HexToAddress p a rc ≠ "".
Proof.
  unfold resolveCurrency. repeat case_bool_decide; done.
Qed.

Lemma amount_of_currency r cur net n cur' net' :
  amount_of r cur net = Classified n cur' net' → cur' = cur ∧ net' = net.
Proof. destruct r; simpl; [done|by intros [= _ <- <-]..]. Qed.

Lemma classify_currency_nonempty p a n cur net :
  classify HexToAddress p a = Classified n cur net → cur ≠ "".
Proof.
  unfold classify.
  repeat match goal with
         | |- context [if ?b then _ else _] => destruct b
         | |- context [match ?x with _ => _ end] => destruct x
         end;
    try done;
    try (intros [= _ <- _]; first [done|apply resolveCurrency_nonempty]);
    try (intros [-> _]%amount_of_currency; first [done|apply resolveCurrency_nonempty]).
Qed.


(** *** Classification *)



End generic.

(** *** A processor without a handler *)

Section memory.
Context {H : Type} {address : Type} `{!EqDecision address}.
Variable HexToAddress : string → address.
Implicit Types (p : Processor (H:=H) (address:=address)) (a : AlchemyActivity)
  (st : State MemoryCache H ProcessedActivity) (c : MemoryCache).

Local Abbreviation Process := (ProcessActivity HexToAddress).
Local Abbreviation build := (buildActivity HexToAddress).

(** X8 — A nil handler still marks.  A processor whose handler field is nil
    (as the processors NewEthereumClient builds) marks a deliverable
    activity as processed without delivering it to anyone; on the same
    in-process cache, a processor with a handler that receives the activity
    within the 24 hours finds the mark and returns nil without calling its
    handler. *)
Theorem X8_nil_handler_marks_without_delivery p p' rtC1 rtM1 rtC2 rtM2 a c hs x :
  handler p = None → validateFront a = None → build p a = inr x →
  (MemoryCache_IsProcessed rtC1 c (uniqueIDOf a)).2 = (false, None) →
  now rtC2 ≤ now rtM1 + 24 * Hour →
  let st := {| st_cache := Some c; st_handler := hs; st_trace := [] |} in
  let r1 := Process p rtC1 rtM1 a st in
  let r2 := Process p' rtC2 rtM2 a r1.1 in
  r1.2 = Return None ∧ handler_calls (st_trace r1.1) = [] ∧
  mark_calls (st_trace r1.1) = [(uniqueIDOf a, 24 * Hour)] ∧
  r2.2 = Return None ∧ handler_calls (st_trace r2.1) = [] ∧
  st_handler r2.1 = hs.
Proof.
  intros Hh Hf Hb Hmiss Httl st r1 r2.
  set (c0 := (MemoryCache_IsProcessed rtC1 c (uniqueIDOf a)).1).
  set (c1 := (MemoryCache_MarkProcessed rtM1 c0 (uniqueIDOf a) (24 * Hour)).1).
  assert (r1 = ({| st_cache := Some c1; st_handler := hs;
                   st_trace := [EvIsProcessed (uniqueIDOf a) (false, None);
                                EvMarkProcessed (uniqueIDOf a) (24 * Hour) None] |},
                Return None)) as Hr1.
  { unfold r1, ProcessActivity. rewrite Hf, Hb. unfold cache_check. simpl.
    change (IsProcessed rtC1 c (uniqueIDOf a))
      with (MemoryCache_IsProcessed rtC1 c (uniqueIDOf a)).
    destruct (MemoryCache_IsProcessed rtC1 c (uniqueIDOf a)) as [c0' res] eqn:E.
    simpl in Hmiss. subst res. unfold deliver, call_handler. rewrite Hh.
    unfold cache_mark. simpl. unfold c1, c0. reflexivity. }
  assert (pre_of a = None) as Hpre by (unfold pre_of; by rewrite Hf).
  assert ((cache_check rtC2 (uniqueIDOf a) r1.1).2 = true) as Hhit.
  { apply memory_check_hit. exists c1. rewrite Hr1. split; [done|].
    by apply MarkProcessed_live. }
  pose proof (ProcessActivity_shape HexToAddress p' rtC2 rtM2 a r1.1) as Hs2.
  fold r2 in Hs2.
  destruct (shape_hit _ _ _ _ _ _ _ _ _ Hs2 Hpre Hhit) as (Hr2 & Hev & Hc2 & _).
  pose proof (shape_trace _ _ _ _ _ _ _ _ _ Hs2) as Htr2.
  split_and!.
  - by rewrite Hr1.
  - by rewrite Hr1.
  - by rewrite Hr1.
  - by rewrite Hr2.
  - rewrite Htr2, handler_calls_app, Hc2, Hr1. done.
  - rewrite Hr2. simpl.
    destruct (cache_check_trace rtC2 (uniqueIDOf a) r1.1) as (_ & -> & _).
    by rewrite Hr1.
Qed.

End memory.

(** *** With caching disabled *)

Section noop.
Context {H : Type} {address : Type} `{!EqDecision address}.
Variable HexToAddress : string → address.
Implicit Types (p : Processor (H:=H) (address:=address)) (a : AlchemyActivity)
  (st : State NoOpCache H ProcessedActivity).

Local Abbreviation Process := (ProcessActivity HexToAddress).
Local Abbreviation build := (buildActivity HexToAddress).

(** X9 — No deduplication without a cache.  On the NoOpCache (what NewCache
    returns when caching is disabled), and with the cache field nil, every
    run of an activity that passes the checks and has a non-zero amount calls
    the handler, whatever was processed before: the same activity delivered
    twice reaches the handler twice. *)
Theorem X9_noop_cache_delivers_every_time p rtC1 rtM1 rtC2 rtM2 a st f x :
  handler p = Some f → validateFront a = None → build p a = inr x →
  let r1 := Process p rtC1 rtM1 a st in
  let r2 := Process p rtC2 rtM2 a r1.1 in
  handler_calls (events_since st r1.1) = [x] ∧
  handler_calls (events_since st r2.1) = [x; x].
Proof.
  intros Hh Hf Hb r1 r2.
  assert (pre_of a = None) as Hpre by (unfold pre_of; by rewrite Hf).
  assert (∀ rt st', (cache_check rt (uniqueIDOf a) st').2 = false) as Hmiss.
  { intros rt st'. unfold cache_check. by destruct (st_cache st'). }
  pose proof (ProcessActivity_shape HexToAddress p rtC1 rtM1 a st) as Hs1.
  pose proof (ProcessActivity_shape HexToAddress p rtC2 rtM2 a r1.1) as Hs2.
  fold r1 in Hs1. fold r2 in Hs2.
  pose proof (shape_miss_summary _ _ _ _ _ _ _ _ _ Hs1 (Hmiss _ _)) as Hsum1.
  pose proof (shape_miss_summary _ _ _ _ _ _ _ _ _ Hs2 (Hmiss _ _)) as Hsum2.
  rewrite Hpre, Hb, Hh in Hsum1, Hsum2.
  destruct Hsum1 as (_ & Hc1 & _). destruct Hsum2 as (_ & Hc2 & _).
  split; [done|].
  pose proof (shape_trace _ _ _ _ _ _ _ _ _ Hs1) as Htr1.
  pose proof (shape_trace _ _ _ _ _ _ _ _ _ Hs2) as Htr2.
  rewrite (events_since_app st r2.1
             (events_since st r1.1 ++ events_since r1.1 r2.1)).
  - by rewrite handler_calls_app, Hc1, Hc2.
  - by rewrite Htr2, Htr1, app_assoc.
Qed.

End noop.

(** *** Concrete runs *)

Import samples.


Lemma X7_dedup_key_ignores_case_and_prefix_witness :
  uniqueIDOf (with_hash "00000000000000000000000000000000000000000000000000000000000000AB"
                (traced "0_1"))
  = uniqueIDOf (traced "0_1").
Proof.
  apply X7_dedup_key_ignores_case_and_prefix.
  - reflexivity.
  - vm_compute. reflexivity.
  - vm_compute. reflexivity.
  - right. reflexivity.
Defined.

Lemma X8_nil_handler_marks_without_delivery_witness :
  let st := world (Some (NewMemoryCache 10 true)) in
  let a := external "0x1f" (Some one_and_a_half) in
  let r1 := ProcessActivity id (ethProcessor None) (rt_at 1) (rt_at 2) a st in
  let r2 := ProcessActivity id (ethProcessor (Some countingHandler)) (rt_at 3) (rt_at 4) a r1.1 in
  mark_calls (st_trace r1.1) = [(uniqueIDOf a, 24 * Hour)] ∧
  handler_calls (st_trace r2.1) = [].
Proof.
  intros st a r1 r2.
  destruct (X8_nil_handler_marks_without_delivery id (ethProcessor None)
              (ethProcessor (Some countingHandler)) (rt_at 1) (rt_at 2) (rt_at 3) (rt_at 4)
              a (NewMemoryCache 10 true) 0%nat delivered_external)
    as (_ & _ & Hm & _ & Hc & _).
  - reflexivity.
  - vm_compute. reflexivity.
  - vm_compute. reflexivity.
  - vm_compute. reflexivity.
  - vm_compute. discriminate.
  - split; [exact Hm|exact Hc].
Defined.

Lemma X9_noop_cache_delivers_every_time_witness :
  let st := world (Some NewNoOpCache) in
  let a := external "0x1f" (Some one_and_a_half) in
  let p := ethProcessor (Some countingHandler) in
  let r1 := ProcessActivity id p (rt_at 1) (rt_at 2) a st in
  let r2 := ProcessActivity id p (rt_at 3) (rt_at 4) a r1.1 in
  handler_calls (events_since st r2.1) = [delivered_external; delivered_external].
Proof.
  intros st a p r1 r2.
  apply (X9_noop_cache_delivers_every_time id p (rt_at 1) (rt_at 2) (rt_at 3) (rt_at 4)
           a st countingHandler delivered_external).
  - reflexivity.
  - vm_compute. reflexivity.
  - vm_compute. reflexivity.
Defined.



End eth_more.

(** ** The Solana normalizer: what is extracted and what is delivered *)

Module solana_more.
Import gostr cache solana cache_props pipeline_props solana_props.

Lemma wrap64_range z : - 2 ^ 63 ≤ wrap64 z < 2 ^ 63.
Proof.
  unfold wrap64. pose proof (Z.mod_pos_bound (z + 2 ^ 63) (2 ^ 64) eq_refl). lia.
Qed.

Lemma key_at_elem (keys : list string) i : (i < length keys)%nat → key_at keys i ∈ keys.
Proof.
  intros Hi. unfold key_at. apply list_elem_of_In, nth_In. done.
Qed.

Lemma key_atZ_elem (keys : list string) idx :
  out_of_range keys idx = false → key_atZ keys idx ∈ keys.
Proof.
  unfold out_of_range, key_atZ. intros Hr. apply orb_false_elim in Hr as [H0 H1].
  apply key_at_elem. apply Z.ltb_ge in H0. apply Z.leb_gt in H1. lia.
Qed.

Lemma debits_ne pre post i j : debits pre post i j = true → i ≠ j.
Proof.
  unfold debits. intros Hd. apply andb_prop in Hd as [Hd _].
  apply andb_prop in Hd as [Hd _]. apply negb_true_iff in Hd.
  by apply bool_decide_eq_false_1 in Hd.
Qed.

(** X13 — What extractNativeTransfers emits.  Every native transfer it
    returns carries a positive int64 amount and the keys of two different
    account indices, both among the account keys; there are at most as many
    transfers as accounts; and a transaction in which no account other than
    the credited one lost balance yields none. *)
Theorem X13_native_transfers_well_formed (accountKeys : list string)
    (meta : AlchemySolanaTxMeta) :
  let out := extractNativeTransfers accountKeys meta in
  (length out ≤ length accountKeys)%nat ∧
  (∀ t, t ∈ out →
     0 < nt_Amount t < 2 ^ 63 ∧
     ∃ i j, i ≠ j ∧ (i < length accountKeys)%nat ∧ (j < length accountKeys)%nat ∧
            nt_FromUserAccount t = key_at accountKeys j ∧
            nt_ToUserAccount t = key_at accountKeys i ∧
            bal_at (PostBalances meta) j < bal_at (PreBalances meta) j) ∧
  ((∀ j, (j < length accountKeys)%nat →
         bal_at (PreBalances meta) j ≤ bal_at (PostBalances meta) j) → out = []).
Proof.
  intros out. unfold out, extractNativeTransfers.
  destruct (bool_decide _ && bool_decide _) eqn:Hlen.
  2:{ split_and!; [simpl; lia|by intros t ?%elem_of_nil|done]. }
  rewrite foldl_nativeStep, app_nil_l.
  set (pre := PreBalances meta). set (post := PostBalances meta).
  set (n := length accountKeys).
  assert (∀ ji, ji ∈ omap (pair_of pre post n) (seq 0 n) →
                (ji.2 < n)%nat ∧ (ji.1 < n)%nat ∧ 0 < credit pre post ji.2 ∧
                debits pre post ji.2 ji.1 = true) as Hpairs.
  { intros [j i] Hin. apply list_elem_of_omap in Hin as (i0 & Hi0 & Hp).
    apply pair_of_spec in Hp as (-> & Hc & Hj & Hd & _).
    apply elem_of_seq in Hi0. simpl. split_and!; [lia|done..]. }
  split_and!.
  - rewrite length_fmap.
    pose proof (omap_pair_sublist pre post n (seq 0 n)) as Hsub.
    apply sublist_length in Hsub. rewrite length_fmap, length_seq in Hsub. done.
  - intros t Hin. apply list_elem_of_fmap in Hin as ([j i] & -> & Hin).
    destruct (Hpairs _ Hin) as (Hi & Hj & Hc & Hd). simpl in *. split.
    + split; [done|]. apply wrap64_range.
    + exists i, j. split_and!; [by eapply debits_ne|done..|].
      unfold debits in Hd. apply andb_prop in Hd as [Hd _].
      apply andb_prop in Hd as [_ Hd]. by apply Z.ltb_lt in Hd.
  - intros Hnone.
    destruct (omap (pair_of pre post n) (seq 0 n)) as [|ji l] eqn:Ho; [done|].
    destruct (Hpairs ji) as (_ & Hj & _ & Hd); [left|].
    unfold debits in Hd. apply andb_prop in Hd as [Hd _].
    apply andb_prop in Hd as [_ Hd]. apply Z.ltb_lt in Hd.
    specialize (Hnone _ Hj). fold pre post in Hnone. lia.
Qed.

Section generic.
Context {C : Type} `{!Cache C} {H : Type}.
Variable base58_Decode : string → option (list Z).
Context {float64 : Type}.
Variable quot_pow10 : Z → Z → float64.
Implicit Types (p : Processor (H:=H) (float64:=float64))
  (tx : AlchemySolanaTransaction) (t : TokenTransfer (float64:=float64)).

Local Abbreviation Process := (ProcessTransaction base58_Decode quot_pow10).
Local Abbreviation built := (built_of base58_Decode quot_pow10).
Local Abbreviation extractTokens := (extractTokenTransfers base58_Decode quot_pow10).

Lemma getCurrencyFromMint_in_elem (l : list (string * string)) mint cur :
  getCurrencyFromMint_in l mint = Some cur → (cur, mint) ∈ l.
Proof.
  induction l as [|[c m] l IH]; simpl; [done|].
  case_bool_decide as Hm.
  - intros [= <-]. subst. left.
  - intros Hl. right. by apply IH.
Qed.

Lemma emitToken_spec p keys mint fromIdx toIdx amount t :
  emitToken quot_pow10 p keys mint fromIdx toIdx amount = Some t →
  out_of_range keys fromIdx = false ∧ out_of_range keys toIdx = false ∧
  mint ≠ "" ∧ tt_Mint t = mint ∧ (tt_Currency t, mint) ∈ tokenMints p ∧
  tt_FromUserAccount t = key_atZ keys fromIdx ∧
  tt_ToUserAccount t = key_atZ keys toIdx ∧
  tt_FromTokenAccount t = key_atZ keys fromIdx ∧
  tt_ToTokenAccount t = key_atZ keys toIdx ∧
  tt_TokenAmount t
  = quot_pow10 amount
      (if bool_decide (tt_Currency t = "USDC") || bool_decide (tt_Currency t = "USDT")
       then 6 else 9).
Proof.
  unfold emitToken.
  destruct (negb (bool_decide (mint = "")) && _ && _ && _ && _) eqn:Hc; [|done].
  repeat (apply andb_prop in Hc as [Hc ?]).
  apply negb_true_iff, bool_decide_eq_false_1 in Hc.
  destruct (getCurrencyFromMint p mint) as [cur|] eqn:Hcur; [|done].
  intros [= <-]. simpl.
  apply getCurrencyFromMint_in_elem in Hcur.
  unfold out_of_range.
  split_and!; try done; apply orb_false_intro; lia.
Qed.

(** X12 — What extractTokenTransfers emits.  Every token transfer it returns
    is of a mint configured in tokenMints, non-empty, with the currency
    tokenMints gives it; its two endpoints are account keys of the
    transaction, and the user-account fields repeat the token-account fields.
    A processor with no configured mint (as NewSolanaClient builds it)
    extracts no token transfer at all. *)
Theorem X12_token_transfers_of_configured_mints p (accountKeys : list string)
    (msg : AlchemySolanaTxMessage) (meta : AlchemySolanaTxMeta) :
  (∀ t, t ∈ extractTokens p accountKeys msg meta →
     (tt_Currency t, tt_Mint t) ∈ tokenMints p ∧ tt_Mint t ≠ "" ∧
     tt_FromTokenAccount t ∈ accountKeys ∧ tt_ToTokenAccount t ∈ accountKeys ∧
     tt_FromUserAccount t = tt_FromTokenAccount t ∧
     tt_ToUserAccount t = tt_ToTokenAccount t) ∧
  (tokenMints p = [] → extractTokens p accountKeys msg meta = []).
Proof.
  assert (∀ t, t ∈ extractTokens p accountKeys msg meta →
     (tt_Currency t, tt_Mint t) ∈ tokenMints p ∧ tt_Mint t ≠ "" ∧
     tt_FromTokenAccount t ∈ accountKeys ∧ tt_ToTokenAccount t ∈ accountKeys ∧
     tt_FromUserAccount t = tt_FromTokenAccount t ∧
     tt_ToUserAccount t = tt_ToTokenAccount t) as Hall.
  { intros t Hin. unfold extractTokenTransfers in Hin.
    apply list_elem_of_omap in Hin as (instr & _ & Hdec).
    assert (∃ mint fromIdx toIdx amount,
              emitToken quot_pow10 p accountKeys mint fromIdx toIdx amount = Some t)
      as (mint & fromIdx & toIdx & amount & Hemit).
    { unfold decodeToken in Hdec.
      repeat match type of Hdec with
             | (if ?b then _ else _) = Some _ => destruct b; [try done|try done]
             | match ?x with _ => _ end = Some _ => destruct x; [try done|try done]
             end; eauto. }
    apply emitToken_spec in Hemit
      as (Hf & Ht & Hm & Hmint & Hcur & HfU & HtU & HfT & HtT & _).
    rewrite Hmint, HfU, HtU, HfT, HtT.
    split_and!; [done|done|by apply key_atZ_elem|by apply key_atZ_elem|done|done]. }
  split; [exact Hall|].
  intros Hnil.
  destruct (extractTokens p accountKeys msg meta) as [|t l] eqn:E; [done|].
  destruct (Hall t) as (Hin & _); [left|]. rewrite Hnil in Hin. by apply elem_of_nil in Hin.
Qed.

(** X14 — What reaches the Solana handler.  In every run of
    ProcessTransaction a ProcessedTransaction passed to the handler carries
    the signature of the transaction (the key the cache is marked with), the
    slot the caller gave and the clock reading in seconds, and at least one
    transfer; a transaction in which neither extraction finds a transfer is
    acknowledged with nil, without a handler call and without a mark. *)
Theorem X14_delivered_transaction p rtC rtS rtM tx slot st :
  let r := Process p rtC rtS rtM tx slot st in
  let evs := events_since st r.1 in
  (∀ x, x ∈ handler_calls evs →
     pt_Signature x = Signature tx ∧ pt_Slot x = slot ∧
     pt_Timestamp x = now rtS / 1000000000 ∧
     (pt_NativeTransfers x ≠ [] ∨ pt_TokenTransfers x ≠ []) ∧
     ∀ k ttl, (k, ttl) ∈ mark_calls evs → k = pt_Signature x) ∧
  (∀ msg meta, firstMessage tx = Some (msg, meta) →
     extractNativeTransfers (AccountKeys msg) meta = [] →
     extractTokens p (AccountKeys msg) msg meta = [] →
     r.2 = Return None ∧ handler_calls evs = [] ∧ mark_calls evs = []).
Proof.
  intros r evs.
  pose proof (ProcessTransaction_shape base58_Decode quot_pow10 p rtC rtS rtM tx slot st) as Hs.
  fold r evs in Hs. split.
  - intros x Hx.
    destruct (shape_called _ _ _ _ _ _ _ _ _ Hs) as (Hpre & _ & x' & f & Hb & _ & Hcalls).
    { intros Hnil. rewrite Hnil in Hx. by apply elem_of_nil in Hx. }
    rewrite Hcalls in Hx. apply list_elem_of_singleton in Hx as ->.
    unfold built_of in Hb. destruct (firstMessage tx) as [[msg meta]|]; [|done].
    unfold buildTransaction in Hb.
    destruct ((0 <? Z.of_nat (length _)) || (0 <? Z.of_nat (length _))) eqn:Hne; [|done].
    injection Hb as <-. simpl. split_and!; [done..| |].
    + apply orb_prop in Hne as [Hn|Hn]; apply Z.ltb_lt in Hn; [left|right];
        intros Hnil; rewrite Hnil in Hn; simpl in Hn; lia.
    + intros k ttl Hk.
      assert (∃ res, EvMarkProcessed k ttl res ∈ evs) as [res Hev].
      { unfold mark_calls in Hk. apply list_elem_of_omap in Hk as (ev & Hev & Hk).
        destruct ev; simplify_eq. eauto. }
      by destruct (shape_mark _ _ _ _ _ _ _ _ _ _ _ _ Hs Hev) as (-> & _).
  - intros msg meta Hfirst Hnat Htok.
    assert (built p rtS tx slot = inl (Return None)) as Hb.
    { unfold built_of, buildTransaction. rewrite Hfirst, Hnat, Htok. done. }
    destruct (shape_no_delivery _ _ _ _ _ _ _ _ _ Hs) as (Hh & Hm & _).
    { right. eauto. }
    split_and!; [|done|done].
    assert (pre_of tx = None) as Hpre by (unfold pre_of; by rewrite Hfirst).
    destruct (shape_ended _ _ _ _ _ _ _ _ _ _ Hs Hpre Hb) as [_ ->].
    by destruct (cache_check _ _ _).2.
Qed.

End generic.

(** *** Concrete runs *)

Import samples.

Lemma X13_native_transfers_well_formed_witness :
  let meta := {| Fee := 5000; PreBalances := [10; 0]; PostBalances := [7; 5];
                 InnerInstructions := []; InnerInstructionsNone := true;
                 LogMessages := [] |} in
  let t := {| nt_FromUserAccount := "Alice"; nt_ToUserAccount := "Bob"; nt_Amount := 5 |} in
  t ∈ extractNativeTransfers ["Alice"; "Bob"]%string meta ∧ 0 < nt_Amount t < 2 ^ 63.
Proof.
  intros meta t.
  assert (t ∈ extractNativeTransfers ["Alice"; "Bob"]%string meta) as Hin.
  { vm_compute. apply list_elem_of_here. }
  split; [exact Hin|].
  destruct (X13_native_transfers_well_formed ["Alice"; "Bob"]%string meta) as (_ & Hall & _).
  exact (proj1 (Hall t Hin)).
Defined.

Lemma X12_token_transfers_of_configured_mints_witness :
  let tx := splTx "3QCwqmHZ4mdq" [0; 1; 0] in
  let msg := {| Instructions := [{| Data := "3QCwqmHZ4mdq"; ProgramIDIndex := 2;
                                    Accounts := [0; 1; 0] |}];
                AccountKeys := ["Alice"; "Bob"; splTokenProgramID; mintKey]%string |} in
  let meta := {| Fee := 5000; PreBalances := [0; 0; 0; 0]; PostBalances := [0; 0; 0; 0];
                 InnerInstructions := []; InnerInstructionsNone := true;
                 LogMessages := [] |} in
  extractTokenTransfers b58_decode (λ a _, a) (usdcProcessor None) (AccountKeys msg) msg meta
  = [usdc_transfer] ∧
  (tt_Currency usdc_transfer, tt_Mint usdc_transfer)
    ∈ tokenMints (usdcProcessor None).
Proof.
  intros tx msg meta.
  assert (extractTokenTransfers b58_decode (λ a _, a) (usdcProcessor None)
            (AccountKeys msg) msg meta = [usdc_transfer]) as Heq
    by (vm_compute; reflexivity).
  split; [exact Heq|].
  destruct (X12_token_transfers_of_configured_mints b58_decode (λ a _, a)
              (usdcProcessor None) (AccountKeys msg) msg meta) as [Hall _].
  destruct (Hall usdc_transfer) as [Hin _]; [|exact Hin].
  rewrite Heq. apply list_elem_of_here.
Defined.

Lemma X14_delivered_transaction_witness :
  let tx := splTx "3QCwqmHZ4mdq" [0; 1; 0] in
  let st := world (Some (NewMemoryCache 10 false)) in
  let r := ProcessTransaction b58_decode (λ a _, a) (usdcProcessor (Some countingHandler))
             (rt_at 1) (rt_at 2000000000) (rt_at 3) tx 42 st in
  pt_TokenTransfers <$> handler_calls (events_since st r.1) = [[usdc_transfer]] ∧
  ∀ x, x ∈ handler_calls (events_since st r.1) → pt_Signature x = "5sig" ∧ pt_Slot x = 42.
Proof.
  intros tx st r. split; [vm_compute; reflexivity|].
  intros x Hx.
  destruct (X14_delivered_transaction b58_decode (λ a _, a)
              (usdcProcessor (Some countingHandler))
              (rt_at 1) (rt_at 2000000000) (rt_at 3) tx 42 st) as [Hall _].
  destruct (Hall x Hx) as (Hsig & Hslot & _). split; [exact Hsig|exact Hslot].
Defined.

End solana_more.

(** ** The HTTP handler and the retry loop *)

Module webhook_props.
Import gostr cache eth cache_props pipeline_props eth_props alchemywebhook client.

Section handler.
Variable hmac_sha256_hex : string → string → string.
Context {W Env : Type}.
Variable Unmarshal_eth : string → option (list eth.AlchemyActivity).
Variable Unmarshal_sol : string → option (list solana.AlchemySolanaTransaction * Z).
Implicit Types (h : Handler (W:=W) (Env:=Env)) (r : Request) (w : W).

Local Abbreviation Handle := (HandleWebhook hmac_sha256_hex Unmarshal_eth Unmarshal_sol).

Lemma Verify_None v payload signature :
  Verify hmac_sha256_hex v payload signature = None ↔
  secret v ≠ "" ∧ signature ≠ "" ∧ signature = hmac_sha256_hex (secret v) payload.
Proof.
  unfold Verify. repeat case_bool_decide; simpl; naive_solver.
Qed.

(** X15 — Only signed requests reach the processors.  HandleWebhook changes
    the world of the processors, or answers 200, only for a POST whose body
    arrived complete, is not empty and not longer than the limit, and whose
    X-Alchemy-Signature header is the hexadecimal HMAC-SHA256 of the body
    under the configured secret, the secret being non-empty: a handler whose
    secret is empty accepts no request at all. *)
Theorem X15_only_signed_posts_are_processed h (env : nat → Env) r w :
  let res := Handle h env r w in
  res.1 ≠ w ∨ StatusCode res.2 = 200 →
  Method r = "POST" ∧ Body r ≠ "" ∧ len (Body r) ≤ Z.max 0 (maxBodySize h) ∧
  ReadErr r = None ∧
  ∃ v, verifier h = Some v ∧ secret v ≠ "" ∧
       XAlchemySignature r = hmac_sha256_hex (secret v) (Body r).
Proof.
  intros res. unfold res, HandleWebhook, readBody.
  case_bool_decide as Hm; simpl; [|intros [?|?]; done].
  destruct (Z.max 0 (maxBodySize h) <? len (Body r)) eqn:Hsz.
  { case_bool_decide; simpl; intros [?|?]; done. }
  destruct (ReadErr r) as [err|] eqn:Herr.
  { case_bool_decide; simpl; intros [?|?]; done. }
  destruct (len (Body r) =? 0) eqn:Hlen; [intros [?|?]; done|].
  destruct (verifier h) as [v|] eqn:Hv; [|intros [?|?]; done].
  destruct (Verify hmac_sha256_hex v (Body r) (XAlchemySignature r)) eqn:Hver;
    [intros [?|?]; done|].
  intros _. apply Verify_None in Hver as (Hs & _ & Hsig).
  apply Z.ltb_ge in Hsz. apply Z.eqb_neq in Hlen.
  split_and!; [done| |done|done|by exists v].
  intros Hb. rewrite Hb in Hlen. done.
Qed.

End handler.

(** *** The Ethereum handler over ProcessActivity *)

Section ethereum.
Variable hmac_sha256_hex : string → string → string.
Context {C : Type} `{!Cache C} {H : Type}.
Context {address : Type} `{!EqDecision address}.
Variable HexToAddress : string → address.
Variable Unmarshal_eth : string → option (list eth.AlchemyActivity).
Variable Unmarshal_sol : string → option (list solana.AlchemySolanaTransaction * Z).
Implicit Types (p : Processor (H:=H) (address:=address)) (a : AlchemyActivity)
  (st : State C H ProcessedActivity) (env : nat → Runtime * Runtime).

Local Abbreviation Handle := (HandleWebhook hmac_sha256_hex Unmarshal_eth Unmarshal_sol).
Local Abbreviation proc := (EthereumProcessor_of HexToAddress).

Lemma handler_successes_app {P} (t1 t2 : list (Event P)) :
  handler_successes (t1 ++ t2) = handler_successes t1 ++ handler_successes t2.
Proof. unfold handler_successes. by rewrite omap_app. Qed.

Lemma check_events_quiet {P'} rt id (st' : State C H P') :
  mark_calls (check_events rt id st') = [] ∧
  handler_successes (check_events rt id st') = [].
Proof. unfold check_events. by destruct (st_cache st'). Qed.

(** One run marks exactly when its handler call returned nil. *)
Lemma shape_marks_iff_success {P'} pre id (built : outcome + P') hd rtC rtM
    (st' : State C H P') r evs :
  run_shape pre id built hd rtC rtM st' r evs →
  is_Some hd → is_Some (st_cache st') →
  is_Some (st_cache r.1) ∧ st_trace r.1 = st_trace st' ++ evs ∧
  length (mark_calls evs) = length (handler_successes evs) ∧
  (length (handler_calls evs) ≤ 1)%nat.
Proof.
  intros Hs [f Hf] [c Hc].
  assert (is_Some (st_cache (cache_check rtC id st').1)) as Hc1.
  { destruct (cache_check_trace rtC id st') as (_ & _ & ->). rewrite Hc. eauto. }
  pose proof (shape_trace _ _ _ _ _ _ _ _ _ Hs) as Htr.
  destruct (check_events_quiet rtC id st') as [Hcm Hcs].
  destruct (handler_calls_check rtC id st') as [Hch _].
  inversion Hs as [o Hpre|Hpre Hhit|o Hpre Hmiss Hb|x f' hs e Hpre Hmiss Hb Hh Hfx
                  |x hs hev Hpre Hmiss Hb Hh st2]; subst; simpl in *.
  - rewrite Hc. split_and!; [eauto|by rewrite app_nil_r|done|lia].
  - rewrite Hcm, Hcs, Hch. split_and!; [done|done|done|simpl; lia].
  - rewrite Hcm, Hcs, Hch. split_and!; [done|done|done|simpl; lia].
  - rewrite mark_calls_app, handler_successes_app, handler_calls_app, Hcm, Hcs, Hch.
    split_and!; [done|done|done|simpl; lia].
  - destruct Hh as [(Hn & _)|(f' & _ & Hfx & ->)]; [congruence|].
    destruct Hc1 as [c1 Hc1].
    assert (st_cache st2 = Some c1) as Hst2 by done.
    destruct (cache_mark_trace rtM id st2) as (_ & _ & Hcm2).
    rewrite !mark_calls_app, !handler_successes_app, !handler_calls_app, Hcm, Hcs, Hch.
    rewrite handler_calls_mark.
    split_and!; [rewrite Hcm2|done|..].
    + apply fmap_is_Some. by exists c1.
    + unfold mark_events. rewrite Hst2. simpl. lia.
    + simpl. lia.
Qed.

Lemma processEach_marks_iff_success p f env i (l : list AlchemyActivity) st :
  handler p = Some f → is_Some (st_cache st) →
  let r := processEach (proc p) env i l st in
  let evs := events_since st r.1 in
  is_Some (st_cache r.1) ∧ st_trace r.1 = st_trace st ++ evs ∧
  length (mark_calls evs) = length (handler_successes evs) ∧
  (length (handler_calls evs) ≤ length l)%nat.
Proof.
  intros Hf. revert i st. induction l as [|a l IH]; intros i st Hc; simpl.
  { rewrite (events_since_app st st []) by (by rewrite app_nil_r).
    split_and!; [done|by rewrite app_nil_r|done|done]. }
  change (proc p (env i) a st)
    with (ProcessActivity HexToAddress p (env i).1 (env i).2 a st).
  pose proof (ProcessActivity_shape HexToAddress p (env i).1 (env i).2 a st) as Hs.
  destruct (shape_marks_iff_success _ _ _ _ _ _ _ _ _ Hs) as (Hc1 & Htr1 & Hm1 & Hh1);
    [by rewrite Hf|done|].
  destruct (ProcessActivity HexToAddress p (env i).1 (env i).2 a st) as [st1 o] eqn:Hrun.
  simpl in *. destruct o as [err|].
  - destruct (IH (S i) st1 Hc1) as (Hc2 & Htr2 & Hm2 & Hh2).
    set (r := processEach (proc p) env (S i) l st1) in *.
    assert (events_since st r.1 = events_since st st1 ++ events_since st1 r.1) as Hev.
    { apply events_since_app. by rewrite Htr2, Htr1, app_assoc. }
    rewrite Hev, mark_calls_app, handler_successes_app, handler_calls_app, !length_app.
    split_and!; [done|by rewrite Htr2, Htr1, app_assoc|lia|lia].
  - simpl. split_and!; [done|done|done|lia].
Qed.

Lemma processEach_trace p env i (l : list AlchemyActivity) st :
  st_trace (processEach (proc p) env i l st).1
  = st_trace st ++ events_since st (processEach (proc p) env i l st).1.
Proof.
  assert (∃ evs, st_trace (processEach (proc p) env i l st).1 = st_trace st ++ evs)
    as [evs Hevs]; [|by rewrite (events_since_app _ _ _ Hevs)].
  revert i st. induction l as [|a l IH]; intros i st; simpl.
  { exists []. by rewrite app_nil_r. }
  change (proc p (env i) a st)
    with (ProcessActivity HexToAddress p (env i).1 (env i).2 a st).
  pose proof (ProcessActivity_shape HexToAddress p (env i).1 (env i).2 a st) as Hs.
  apply shape_trace in Hs.
  destruct (ProcessActivity HexToAddress p (env i).1 (env i).2 a st)
    as [st1 [err|]]; simpl in *.
  - destruct (IH (S i) st1) as [evs ->]. rewrite Hs, <- app_assoc. eauto.
  - eauto.
Qed.

(** X16 — Errors of single activities are not reported.  For a signed POST
    whose body decodes, handled by the Ethereum handler over ProcessActivity
    with a handler and a cache configured, and with no call that panics, the
    answer is 200 "OK" whatever ProcessActivity and the handler returned for
    the single activities; every activity was given to ProcessActivity; the
    handler was called at most once per activity; and the cache was marked
    exactly as many times as a handler call returned nil. *)
Theorem X16_activity_errors_answered_200 p f (v : Verifier) (maxBody : Z) env r st
    (activity : list AlchemyActivity) :
  handler p = Some f → is_Some (st_cache st) →
  Method r = "POST" → readBody maxBody r = inr (Body r) → Body r ≠ "" →
  Verify hmac_sha256_hex v (Body r) (XAlchemySignature r) = None →
  Unmarshal_eth (Body r) = Some activity →
  (processEach (proc p) env 0 activity st).2 = false →
  let h := NewEthereumHandler (Some v) (Some (proc p)) maxBody in
  let res := Handle h env r st in
  let evs := events_since st res.1 in
  res.2 = {| StatusCode := 200; ResponseBody := "OK" |} ∧
  res.1 = (processEach (proc p) env 0 activity st).1 ∧
  (length (handler_calls evs) ≤ length activity)%nat ∧
  length (mark_calls evs) = length (handler_successes evs).
Proof.
  intros Hf Hc Hm Hread Hbody Hver Hun Hnp h res evs.
  assert (res = ((processEach (proc p) env 0 activity st).1,
                 {| StatusCode := 200; ResponseBody := "OK" |})) as Hres.
  { unfold res, HandleWebhook. rewrite Hm. simpl. rewrite Hread.
    destruct (len (Body r) =? 0) eqn:Hlen.
    { apply Z.eqb_eq in Hlen. unfold len in Hlen. destruct (Body r); [done|simpl in Hlen; lia]. }
    rewrite Hver. simpl. unfold handleEthereumWebhook. simpl. rewrite Hun.
    destruct (Z.of_nat (length activity) =? 0) eqn:Hl.
    { destruct activity; [done|simpl in Hl; lia]. }
    destruct (processEach (proc p) env 0 activity st) as [st' panicked].
    simpl in Hnp. by rewrite Hnp. }
  destruct (processEach_marks_iff_success p f env 0%nat activity st Hf Hc)
    as (_ & _ & Hmarks & Hcalls).
  unfold evs. rewrite Hres. simpl. split_and!; done.
Qed.

End ethereum.

(** *** A batch on the in-process cache *)

Section batch.
Context {H : Type} {address : Type} `{!EqDecision address}.
Variable HexToAddress : string → address.
Implicit Types (p : Processor (H:=H) (address:=address)) (a : AlchemyActivity)
  (st : State MemoryCache H ProcessedActivity) (c : MemoryCache)
  (env : nat → Runtime * Runtime).

Local Abbreviation proc := (EthereumProcessor_of (C:=MemoryCache) HexToAddress).

Lemma IsProcessed_keeps_live rt c id k t :
  entries c !! k = Some t → now rt ≤ t →
  entries (MemoryCache_IsProcessed rt c id).1 !! k = Some t.
Proof.
  intros Hk Ht. destruct (decide (k = id)) as [->|Hne].
  - unfold MemoryCache_IsProcessed. rewrite Hk. unfold After.
    destruct (t <? now rt) eqn:E; [lia|done].
  - by rewrite cache_more.lookup_after_IsProcessed_ne.
Qed.

Lemma evict_not_full rt c : len_entries c < maxSize c → evict rt c = c.
Proof.
  intros Hlt. unfold evict. destruct (maxSize c <=? len_entries c) eqn:E; [lia|done].
Qed.

(** What one run of a normalizer does to the entries of the in-process
    cache: without a mark, nothing is added and live entries stay; with the
    mark, the key was not live before. *)
Lemma memory_shape_step {P' : Type} pre id (built : outcome + P') hd rtC rtM
    (st' : State MemoryCache H P') r evs c :
  run_shape pre id built hd rtC rtM st' r evs →
  st_cache st' = Some c →
  ∃ c', st_cache r.1 = Some c' ∧ maxSize c' = maxSize c ∧
        st_trace r.1 = st_trace st' ++ evs ∧
        ((mark_calls evs = [] ∧ len_entries c' ≤ len_entries c ∧
          ∀ k t, entries c !! k = Some t → now rtC ≤ t → entries c' !! k = Some t) ∨
         (mark_calls evs = [(id, 24 * Hour)] ∧
          (∀ t, entries c !! id = Some t → now rtC ≤ t → False) ∧
          (len_entries c < maxSize c →
           len_entries c' ≤ len_entries c + 1 ∧
           entries c' !! id = Some (now rtM + 24 * Hour) ∧
           ∀ k t, k ≠ id → entries c !! k = Some t → entries c' !! k = Some t))).
Proof.
  intros Hs Hc.
  pose proof (shape_trace _ _ _ _ _ _ _ _ _ Hs) as Htr.
  set (c0 := (MemoryCache_IsProcessed rtC c id).1).
  assert (st_cache (cache_check rtC id st').1 = Some c0) as Hc0.
  { destruct (cache_check_trace rtC id st') as (_ & _ & ->). by rewrite Hc. }
  assert (maxSize c0 = maxSize c) as Hm0 by apply IsProcessed_config.
  assert (len_entries c0 ≤ len_entries c) as Hsz0.
  { unfold len_entries, c0.
    pose proof (cache_more.IsProcessed_shrinks rtC c id) as [? _]. lia. }
  destruct (handler_calls_check rtC id st') as [_ Hcm].
  assert (∀ k t, entries c !! k = Some t → now rtC ≤ t → entries c0 !! k = Some t)
    as Hkeep0.
  { intros k t Hk Ht. by apply IsProcessed_keeps_live. }
  destruct Hs as [o Hpre|Hpre Hhit|o Hpre Hmiss Hb|x f hs e Hpre Hmiss Hb Hh Hfx
                 |x hs hev Hpre Hmiss Hb Hh st2]; cbn [fst snd] in *.
  - exists c. split_and!; [done|done|done|]. left. by split_and!.
  - exists c0. split_and!; [done|done|done|]. left. by split_and!.
  - exists c0. split_and!; [done|done|done|]. left. by split_and!.
  - exists c0. split_and!; [done|done|done|]. left.
    split_and!; [|done|done]. by rewrite mark_calls_app, Hcm.
  - assert (st_cache st2 = Some c0) as Hst2 by done.
    destruct (cache_mark_trace rtM id st2) as (_ & _ & Hcm2).
    exists (MemoryCache_MarkProcessed rtM c0 id (24 * Hour)).1.
    assert (mark_calls hev = []) as Hhev.
    { by destruct Hh as [(_ & _ & ->)|(f & _ & _ & ->)]. }
    split_and!.
    + etrans; [exact Hcm2|].
      exact (f_equal (fmap (λ c1, (MarkProcessed rtM c1 id (24 * Hour)).1)) Hst2).
    + rewrite <- Hm0. apply MarkProcessed_config.
    + done.
    + right. split_and!.
      * rewrite !mark_calls_app, Hcm, Hhev. unfold mark_events.
        destruct (st_cache st2); [done|congruence].
      * intros t Hk Ht.
        assert ((cache_check rtC id st').2 = true) as Hhit; [|congruence].
        apply cache_check_processed. exists c. split; [done|].
        by apply (IsProcessed_live rtC c id t).
      * intros Hroom.
        rewrite MarkProcessed_entries, evict_not_full by lia.
        unfold len_entries at 1. simpl.
        rewrite evict_not_full by lia. split_and!.
        -- pose proof (map_size_insert id (now rtM + 24 * Hour) (entries c0)) as Hs'.
           unfold len_entries in *. destruct (entries c0 !! id); simpl in Hs'; lia.
        -- apply lookup_insert_eq.
        -- intros k t Hne Hk. rewrite lookup_insert_ne by done.
           unfold c0. by rewrite cache_more.lookup_after_IsProcessed_ne.
Qed.

Lemma memory_step p rtC rtM a st c :
  st_cache st = Some c →
  let r := ProcessActivity HexToAddress p rtC rtM a st in
  let evs := events_since st r.1 in
  ∃ c', st_cache r.1 = Some c' ∧ maxSize c' = maxSize c ∧
        st_trace r.1 = st_trace st ++ evs ∧
        ((mark_calls evs = [] ∧ len_entries c' ≤ len_entries c ∧
          ∀ k t, entries c !! k = Some t → now rtC ≤ t → entries c' !! k = Some t) ∨
         (mark_calls evs = [(uniqueIDOf a, 24 * Hour)] ∧
          (∀ t, entries c !! uniqueIDOf a = Some t → now rtC ≤ t → False) ∧
          (len_entries c < maxSize c →
           len_entries c' ≤ len_entries c + 1 ∧
           entries c' !! uniqueIDOf a = Some (now rtM + 24 * Hour) ∧
           ∀ k t, k ≠ uniqueIDOf a → entries c !! k = Some t →
                  entries c' !! k = Some t))).
Proof.
  intros Hc r evs.
  exact (memory_shape_step _ _ _ _ _ _ _ _ _ c
           (ProcessActivity_shape HexToAddress p rtC rtM a st) Hc).
Qed.

Lemma processEach_marks_once p env (T M : Z) :
  (∀ i, T ≤ now (env i).2 ∧ now (env i).1 ≤ T + 24 * Hour) →
  ∀ (l : list AlchemyActivity) i st c (marked : list string),
    st_cache st = Some c → maxSize c = M →
    len_entries c + Z.of_nat (length l) ≤ M →
    (∀ k, k ∈ marked → ∃ t, entries c !! k = Some t ∧ T + 24 * Hour ≤ t) →
    NoDup marked →
    let ks := (mark_calls (events_since st (processEach (proc p) env i l st).1)).*1 in
    NoDup (marked ++ ks) ∧ (∀ k, k ∈ ks → k ∈ uniqueIDOf <$> l).
Proof.
  intros Henv l. induction l as [|a l IH]; intros i st c marked Hc Hmax Hroom Hlive Hnd.
  { simpl. rewrite (events_since_app st st []) by (by rewrite app_nil_r). simpl.
    rewrite app_nil_r. split; [done|]. by intros k ?%elem_of_nil. }
  cbn [processEach].
  change (proc p (env i) a st)
    with (ProcessActivity HexToAddress p (env i).1 (env i).2 a st).
  destruct (memory_step p (env i).1 (env i).2 a st c Hc)
    as (c1 & Hc1 & Hm1 & Htr1 & Hcases).
  destruct (Henv i) as [HTm HTc].
  destruct (ProcessActivity HexToAddress p (env i).1 (env i).2 a st) as [st1 o] eqn:Hrun.
  cbn [fst snd] in *.
  set (ks1 := (mark_calls (events_since st st1)).*1) in *.
  (* the invariant after this activity, with the keys marked so far *)
  assert (NoDup (marked ++ ks1) ∧
          (∀ k, k ∈ ks1 → k = uniqueIDOf a) ∧
          len_entries c1 + Z.of_nat (length l) ≤ M ∧
          (∀ k, k ∈ marked ++ ks1 → ∃ t, entries c1 !! k = Some t ∧ T + 24 * Hour ≤ t))
    as (Hnd1 & Hks1 & Hroom1 & Hlive1).
  { simpl in Hroom. destruct Hcases as [(Hnil & Hsz & Hkeep)|(Hone & Hnot & Hadd)].
    - unfold ks1. rewrite Hnil. simpl. rewrite app_nil_r.
      split_and!; [done|by intros k ?%elem_of_nil|lia|].
      intros k Hk. destruct (Hlive k Hk) as (t & Hkt & Ht). exists t. split; [|done].
      apply Hkeep; [done|lia].
    - destruct Hadd as (Hsz & Hnew & Hkeep); [lia|].
      unfold ks1. rewrite Hone. simpl.
      assert (uniqueIDOf a ∉ marked) as Hfresh.
      { intros Hin. destruct (Hlive _ Hin) as (t & Hkt & Ht). apply (Hnot t Hkt). lia. }
      split_and!.
      + apply NoDup_app. split_and!; [done| |apply NoDup_singleton].
        intros k Hk ->%list_elem_of_singleton. done.
      + by intros k ->%list_elem_of_singleton.
      + lia.
      + intros k [Hk| ->%list_elem_of_singleton]%elem_of_app.
        * destruct (Hlive k Hk) as (t & Hkt & Ht). exists t. split; [|done].
          apply Hkeep; [|done]. intros ->. done.
        * exists (now (env i).2 + 24 * Hour). split; [done|lia]. }
  destruct o as [err|].
  - destruct (IH (S i) st1 c1 (marked ++ ks1) Hc1) as [Hnd2 Hin2];
      [congruence|done|done|done|].
    set (r := processEach (proc p) env (S i) l st1) in *.
    assert (events_since st r.1 = events_since st st1 ++ events_since st1 r.1) as Hev.
    { apply events_since_app. unfold r.
      by rewrite (processEach_trace HexToAddress p env (S i) l st1), Htr1, app_assoc. }
    rewrite Hev, mark_calls_app, fmap_app. fold ks1.
    split; [by rewrite app_assoc|].
    intros k [Hk|Hk]%elem_of_app.
    + rewrite (Hks1 k Hk). rewrite fmap_cons. left.
    + rewrite fmap_cons. right. by apply Hin2.
  - cbn [fst]. fold ks1. split; [done|].
    intros k Hk. rewrite (Hks1 k Hk), fmap_cons. left.
Qed.

(** X17 — At most once per key within a batch.  On an in-process cache
    with room for the batch (no eviction: entries + activities <= maxSize),
    for activities processed one after the other within 24 hours of the
    first mark, no dedup key is marked twice, every marked key is the key of
    an activity of the batch, and a key that was live in the cache before
    the batch is not marked; with a handler configured the number of handler
    calls that returned nil is therefore at most the number of distinct keys
    of the batch.  This holds whatever the handler returns. *)
Theorem X17_batch_at_most_once_per_key p f env (l : list AlchemyActivity) st c (T : Z) :
  handler p = Some f → st_cache st = Some c →
  len_entries c + Z.of_nat (length l) ≤ maxSize c →
  (∀ i, T ≤ now (env i).2 ∧ now (env i).1 ≤ T + 24 * Hour) →
  let evs := events_since st (processEach (proc p) env 0 l st).1 in
  NoDup (mark_calls evs).*1 ∧
  (∀ k, k ∈ (mark_calls evs).*1 → k ∈ uniqueIDOf <$> l) ∧
  (∀ k t, entries c !! k = Some t → T + 24 * Hour ≤ t → k ∉ (mark_calls evs).*1) ∧
  (length (handler_successes evs) ≤ length (remove_dups (uniqueIDOf <$> l)))%nat.
Proof.
  intros Hf Hc Hroom Henv evs.
  destruct (processEach_marks_once p env T (maxSize c) Henv l 0%nat st c [] Hc eq_refl Hroom)
    as [Hnd Hin]; [by intros k ?%elem_of_nil|constructor|].
  simpl in Hnd. fold evs in Hnd, Hin.
  split_and!; [done|done| |].
  - intros k t Hk Ht Hmarked.
    destruct (processEach_marks_once p env T (maxSize c) Henv l 0%nat st c [k] Hc eq_refl Hroom)
      as [Hnd' _].
    + intros k' ->%list_elem_of_singleton. eauto.
    + apply NoDup_singleton.
    + fold evs in Hnd'. apply NoDup_cons in Hnd' as [Hnot _]. done.
  - destruct (processEach_marks_iff_success HexToAddress p f env 0%nat l st Hf)
      as (_ & _ & Heq & _); [by rewrite Hc|].
    fold evs in Heq. rewrite <- Heq, <- (length_fmap fst).
    apply submseteq_length, NoDup_submseteq; [done|].
    intros k Hk. apply elem_of_remove_dups. by apply Hin.
Qed.

End batch.

(** *** executeWithRetry *)

Section retry.
Context {S : Type}.
Variable scaleDelay : Z → Z.
Variable ctxDone : nat → option error.
Implicit Types (cfg : RetryConfig) (fn : S → S * option error).

Local Abbreviation loop := (retryLoop scaleDelay ctxDone).

Lemma retryLoop_spec cfg operation fn remaining attempt delay s waits :
  Z.of_nat (remaining + attempt) = Z.max 0 (MaxAttempts cfg) →
  let run := loop cfg operation fn remaining attempt delay s waits in
  (attempt ≤ rr_calls run ≤ remaining + attempt)%nat ∧
  (∃ more, rr_waits run = waits ++ more ∧
           (length more ≤ rr_calls run - attempt)%nat ∧
           (rr_err run = None → length more = (rr_calls run - attempt - 1)%nat) ∧
           (∀ d, head more = Some d → d = delay) ∧
           (∀ d, d ∈ tail more → d ≤ MaxDelay cfg)) ∧
  (rr_err run = None → (attempt < rr_calls run)%nat).
Proof.
  revert attempt delay s waits.
  induction remaining as [|remaining IH]; intros attempt delay s waits Hrem; simpl.
  { split_and!; [lia|lia| |done]. exists []. rewrite app_nil_r.
    split_and!; [done|simpl; lia|done|done|by intros d ?%elem_of_nil]. }
  destruct (fn s) as [s' [err|]]; simpl.
  2:{ split_and!; [lia|lia| |lia]. exists []. rewrite app_nil_r.
      split_and!; [done|simpl; lia|simpl; lia|done|by intros d ?%elem_of_nil]. }
  destruct (Z.of_nat attempt <? MaxAttempts cfg - 1) eqn:Hlast.
  - destruct (ctxDone attempt) as [ctxErr|]; simpl.
    { split_and!; [lia|lia| |done]. exists []. rewrite app_nil_r.
      split_and!; [done|simpl; lia|done|done|by intros d ?%elem_of_nil]. }
    set (delay' := if MaxDelay cfg <? scaleDelay delay then MaxDelay cfg
                   else scaleDelay delay).
    assert (delay' ≤ MaxDelay cfg) as Hcap.
    { unfold delay'. destruct (MaxDelay cfg <? scaleDelay delay) eqn:E; [lia|].
      apply Z.ltb_ge in E. lia. }
    destruct (IH (Datatypes.S attempt) delay' s' (waits ++ [delay]))
      as ((Hlo & Hhi) & (more & Hw & Hlen & Hok & Hhead & Htail) & Hnil); [lia|].
    split_and!; [lia|lia| |intros ?; lia].
    exists (delay :: more). split_and!.
    + by rewrite Hw, <- app_assoc.
    + simpl. lia.
    + intros Hn. specialize (Hok Hn). specialize (Hnil Hn). simpl. lia.
    + by intros d [= <-].
    + simpl. intros d Hd. destruct more as [|d0 more]; [by apply elem_of_nil in Hd|].
      apply elem_of_cons in Hd as [->|Hd]; [|by apply Htail].
      rewrite (Hhead d0 eq_refl). done.
  - destruct (IH (Datatypes.S attempt) delay s' waits)
      as ((Hlo & Hhi) & (more & Hw & Hlen & Hok & Hhead & Htail) & Hnil); [lia|].
    apply Z.ltb_ge in Hlast.
    assert (remaining = 0%nat) as -> by lia.
    simpl in *. split_and!; [lia|lia| |done].
    exists []. rewrite app_nil_r.
    split_and!; [done|simpl; lia|done|done|by intros d ?%elem_of_nil].
Qed.

(** X18 — The retry loop.  executeWithRetry calls fn at most MaxAttempts
    times, and not at all when MaxAttempts is 0 or negative, in which case it
    reports a failure of an operation it never tried; when it returns nil, fn
    was called at least once; it waits once less than it calls (and not after
    the last call); the first wait is InitialDelay, capped by nothing, and
    every later wait is at most MaxDelay. *)
Theorem X18_retry_calls_and_waits cfg operation fn (s : S) :
  let run := executeWithRetry scaleDelay ctxDone cfg operation fn s in
  (Z.of_nat (rr_calls run) ≤ Z.max 0 (MaxAttempts cfg)) ∧
  (MaxAttempts cfg ≤ 0 →
   rr_calls run = 0%nat ∧ rr_state run = s ∧ is_Some (rr_err run)) ∧
  (rr_err run = None →
   (1 ≤ rr_calls run)%nat ∧ length (rr_waits run) = (rr_calls run - 1)%nat) ∧
  (length (rr_waits run) ≤ rr_calls run)%nat ∧
  (∀ d, head (rr_waits run) = Some d → d = InitialDelay cfg) ∧
  (∀ d, d ∈ tail (rr_waits run) → d ≤ MaxDelay cfg).
Proof.
  intros run.
  pose proof (retryLoop_spec cfg operation fn (Z.to_nat (MaxAttempts cfg)) 0
                (InitialDelay cfg) s []) as Hspec.
  cbv zeta in Hspec.
  change (loop cfg operation fn (Z.to_nat (MaxAttempts cfg)) 0 (InitialDelay cfg) s [])
    with run in Hspec.
  destruct Hspec as ((_ & Hhi) & (more & Hw & Hlen & Hok & Hhead & Htail) & Hnil); [lia|].
  simpl in Hw. rewrite Hw. split_and!.
  - lia.
  - intros Hneg. unfold run, executeWithRetry.
    replace (Z.to_nat (MaxAttempts cfg)) with 0%nat by lia. by simpl.
  - intros Hn. specialize (Hok Hn). specialize (Hnil Hn). lia.
  - lia.
  - done.
  - done.
Qed.

End retry.

(** *** Concrete runs *)

Import samples.

Lemma X15_only_signed_posts_are_processed_witness :
  let h := NewEthereumHandler (Some {| secret := "s3cret" |})
             (Some (EthereumProcessor_of id (ethProcessor (Some countingHandler))))
             1024 in
  let res := HandleWebhook sample_mac sample_Unmarshal_eth sample_Unmarshal_sol h
               (λ _, (rt_at 1, rt_at 2)) signed_post
               (world (Some (NewMemoryCache 10 true))) in
  StatusCode res.2 = 200 ∧
  XAlchemySignature signed_post = sample_mac "s3cret" (Body signed_post).
Proof.
  intros h res.
  assert (StatusCode res.2 = 200) as Hok by (vm_compute; reflexivity).
  split; [exact Hok|].
  destruct (X15_only_signed_posts_are_processed sample_mac sample_Unmarshal_eth
              sample_Unmarshal_sol h (λ _, (rt_at 1, rt_at 2)) signed_post
              (world (Some (NewMemoryCache 10 true))) (or_intror Hok))
    as (_ & _ & _ & _ & v & Hv & _ & Hsig).
  injection Hv as <-. exact Hsig.
Defined.

Lemma X16_activity_errors_answered_200_witness :
  let p := ethProcessor (Some failingHandler) in
  let st := world (Some (NewMemoryCache 10 true)) in
  let h := NewEthereumHandler (Some {| secret := "s3cret" |})
             (Some (EthereumProcessor_of id p)) 1024 in
  let res := HandleWebhook sample_mac sample_Unmarshal_eth sample_Unmarshal_sol h
               (λ _, (rt_at 1, rt_at 2)) signed_post st in
  res.2 = {| StatusCode := 200; ResponseBody := "OK" |} ∧
  length (mark_calls (events_since st res.1)) = 0%nat ∧
  length (handler_calls (events_since st res.1)) = 2%nat.
Proof.
  intros p st h res.
  destruct (X16_activity_errors_answered_200 sample_mac id sample_Unmarshal_eth
              sample_Unmarshal_sol p failingHandler {| secret := "s3cret" |} 1024
              (λ _, (rt_at 1, rt_at 2)) signed_post st batch) as (Hres & _).
  - reflexivity.
  - vm_compute. eauto.
  - reflexivity.
  - vm_compute. reflexivity.
  - discriminate.
  - vm_compute. reflexivity.
  - vm_compute. reflexivity.
  - vm_compute. reflexivity.
  - split; [exact Hres|]. split; vm_compute; reflexivity.
Defined.

Lemma X17_batch_at_most_once_per_key_witness :
  let p := ethProcessor (Some countingHandler) in
  let st := world (Some (NewMemoryCache 10 true)) in
  let l := [external "0x1f" (Some one_and_a_half); external "0x1f" (Some one_and_a_half)] in
  let evs := events_since st
               (processEach (EthereumProcessor_of id p) (λ _, (rt_at 1, rt_at 2)) 0 l st).1 in
  (length (handler_successes evs) ≤ length (remove_dups (uniqueIDOf <$> l)))%nat ∧
  length (remove_dups (uniqueIDOf <$> l)) = 1%nat.
Proof.
  intros p st l evs. split; [|vm_compute; reflexivity].
  destruct (X17_batch_at_most_once_per_key id p countingHandler (λ _, (rt_at 1, rt_at 2))
              l st (NewMemoryCache 10 true) 0) as (_ & _ & _ & Hle).
  - reflexivity.
  - reflexivity.
  - vm_compute. discriminate.
  - intros i. vm_compute. split; discriminate.
  - exact Hle.
Defined.

End webhook_props.

(** ** The backfills *)

Module backfill_props.
Import gostr gofloat cache eth solana_backfill eth_backfill cache_props pipeline_props.

(** *** solana/backfill.go *)

Section solana.
Context {C : Type} `{!Cache C} {H : Type}.
Variable base58_Decode : string → option (list Z).
Context {float64 : Type}.
Variable quot_pow10 : Z → Z → float64.
Implicit Types (b : Backfill (H:=H) (float64:=float64))
  (st : State C H (solana.ProcessedTransaction (float64:=float64))) (n : Counts).

Local Abbreviation tloop := (txLoop base58_Decode quot_pow10).
Local Abbreviation aloop := (addressLoop base58_Decode quot_pow10).
Local Abbreviation consults :=
  (Forall (λ ev : Event (solana.ProcessedTransaction (float64:=float64)),
             ∃ k res, ev = EvIsProcessed k res)).

(** The transaction convertToAlchemyTx builds has no Transaction and no
    Meta entry: ProcessTransaction returns nil before it touches anything. *)
Lemma ProcessTransaction_converted (p : solana.Processor (H:=H) (float64:=float64))
    rtC rtS rtM (tx : solana.ProcessedTransaction (float64:=float64)) slot st :
  solana.ProcessTransaction base58_Decode quot_pow10 p rtC rtS rtM
    (convertToAlchemyTx tx) slot st = (st, Return None).
Proof. reflexivity. Qed.

Lemma consults_check rt id st : consults (check_events rt id st).
Proof.
  unfold check_events. destruct (st_cache st); [|constructor].
  repeat constructor. eauto.
Qed.

Lemma txLoop_spec b (txs : list (TxTurn (float64:=float64))) n st :
  let r := tloop b txs n st in
  (∃ evs, st_trace r.1.1 = st_trace st ++ evs ∧ consults evs) ∧
  st_handler r.1.1 = st_handler st ∧ r.2 ≠ Panic ∧
  (r.2 = Return None →
   processedCount r.1.2 + skippedCount r.1.2
   = processedCount n + skippedCount n + Z.of_nat (length txs)).
Proof.
  revert n st. induction txs as [|turn txs IH]; intros n st; simpl.
  { split_and!; [|done|done|lia]. exists []. by rewrite app_nil_r. }
  destruct (tt_ctxErr turn) as [err|].
  { simpl. split_and!; [|done|done|done]. exists []. by rewrite app_nil_r. }
  destruct (cache_check_trace (tt_rtConsult turn) (solana.pt_Signature (tt_tx turn)) st)
    as (Htr & Hh & _).
  destruct (cache_check _ _ st) as [st1 processed]. simpl in Htr, Hh.
  destruct (tt_rtProcess turn) as [[rtC rtS] rtM].
  assert (∀ n', let r := tloop b txs n' st1 in
            (∃ evs, st_trace r.1.1 = st_trace st ++ evs ∧ consults evs) ∧
            st_handler r.1.1 = st_handler st ∧ r.2 ≠ Panic ∧
            (r.2 = Return None →
             processedCount r.1.2 + skippedCount r.1.2
             = processedCount n' + skippedCount n' + Z.of_nat (length txs))) as Hrest.
  { intros n'. destruct (IH n' st1) as ((evs & Hevs & Hcons) & Hh' & Hp & Hcount).
    split_and!; [|congruence|done|done].
    exists (check_events (tt_rtConsult turn) (solana.pt_Signature (tt_tx turn)) st ++ evs).
    split; [by rewrite Hevs, Htr, app_assoc|].
    apply Forall_app. split; [apply consults_check|done]. }
  destruct processed.
  - destruct (Hrest {| processedCount := processedCount n;
                       skippedCount := skippedCount n + 1 |}) as (He & Hh' & Hp & Hcount).
    split_and!; [done..|]. intros Hnil. rewrite (Hcount Hnil). simpl. lia.
  - rewrite ?ProcessTransaction_converted.
    destruct (Hrest {| processedCount := processedCount n + 1;
                       skippedCount := skippedCount n |}) as (He & Hh' & Hp & Hcount).
    split_and!; [done..|]. intros Hnil. rewrite (Hcount Hnil). simpl. lia.
Qed.

(** The transactions of the addresses whose fetch succeeded. *)
Lemma addressLoop_spec b (turns : list (AddressTurn (float64:=float64))) n st :
  let r := aloop b turns n st in
  (∃ evs, st_trace r.1.1 = st_trace st ++ evs ∧ consults evs) ∧
  st_handler r.1.1 = st_handler st ∧ r.2 ≠ Panic ∧
  (r.2 = Return None →
   processedCount r.1.2 + skippedCount r.1.2
   = processedCount n + skippedCount n
     + Z.of_nat (length (concat (omap (λ t, match at_fetched t with
                                            | inr txs => Some txs
                                            | inl _ => None
                                            end) turns)))).
Proof.
  revert n st. induction turns as [|turn turns IH]; intros n st; simpl.
  { split_and!; [|done|done|lia]. exists []. by rewrite app_nil_r. }
  destruct (at_ctxErr turn) as [err|].
  { simpl. split_and!; [|done|done|done]. exists []. by rewrite app_nil_r. }
  destruct (at_fetched turn) as [e|txs]; [apply IH|].
  destruct (txLoop_spec b txs n st) as ((evs1 & Hevs1 & Hc1) & Hh1 & Hp1 & Hcount1).
  destruct (tloop b txs n st) as [[st1 n1] o1]. simpl in *.
  destruct o1 as [[err|]|]; [|destruct (IH n1 st1) as ((evs2 & Hevs2 & Hc2) & Hh2 & Hp2 & Hcount2)|done].
  - simpl. split_and!; [eauto|done|done|done].
  - split_and!; [|congruence|done|].
    + exists (evs1 ++ evs2). split; [by rewrite Hevs2, Hevs1, app_assoc|].
      by apply Forall_app.
    + intros Hnil. specialize (Hcount2 Hnil). specialize (Hcount1 eq_refl).
      rewrite length_app. unfold omap in *. lia.
Qed.

Lemma consults_quiet evs :
  consults evs → handler_calls evs = [] ∧ mark_calls evs = [].
Proof.
  induction 1 as [|ev evs (k & res & ->) _ [IH1 IH2]]; [done|].
  change (EvIsProcessed k res :: evs) with ([EvIsProcessed k res] ++ evs).
  by rewrite handler_calls_app, mark_calls_app, IH1, IH2.
Qed.

(** X19 — The Solana backfill delivers nothing.  Whatever Helius returns,
    for every list of addresses and on any cache, a call of Backfill makes
    no handler call and no MarkProcessed call: the transaction it hands to
    ProcessTransaction carries a signature only, and ProcessTransaction
    returns nil at its first check.  The only calls on the cache are the
    IsProcessed consults of the loop, and a completed run counts every
    fetched transaction as processed or skipped. *)
Theorem X19_solana_backfill_delivers_nothing b
    (turns : list (AddressTurn (float64:=float64))) st :
  let r := Backfill_run base58_Decode quot_pow10 b turns st in
  let evs := events_since st r.1.1 in
  handler_calls evs = [] ∧ mark_calls evs = [] ∧
  st_handler r.1.1 = st_handler st ∧
  (∀ ev, ev ∈ evs → ∃ k res, ev = EvIsProcessed k res) ∧
  r.2 ≠ Panic ∧
  (backfilling b = false → heliusAPIKey b ≠ "" → r.2 = Return None →
   processedCount r.1.2 + skippedCount r.1.2
   = Z.of_nat (length (concat (omap (λ t, match at_fetched t with
                                          | inr txs => Some txs
                                          | inl _ => None
                                          end) turns)))).
Proof.
  intros r evs.
  assert ((∃ evs', st_trace r.1.1 = st_trace st ++ evs' ∧ consults evs') ∧
          st_handler r.1.1 = st_handler st ∧ r.2 ≠ Panic ∧
          (backfilling b = false → heliusAPIKey b ≠ "" → r.2 = Return None →
           processedCount r.1.2 + skippedCount r.1.2
           = Z.of_nat (length (concat (omap (λ t, match at_fetched t with
                                                  | inr txs => Some txs
                                                  | inl _ => None
                                                  end) turns)))))
    as ((evs' & Htr & Hcons) & Hh & Hp & Hcount).
  { unfold r, Backfill_run.
    destruct (backfilling b).
    { simpl. split_and!; [|done|done|done]. exists []. by rewrite app_nil_r. }
    case_bool_decide as Hkey.
    { simpl. split_and!; [|done|done|done]. exists []. by rewrite app_nil_r. }
    destruct (Z.of_nat (length turns) =? 0) eqn:Hlen.
    { simpl. split_and!; [|done|done|]; [exists []; by rewrite app_nil_r|].
      intros _ _ _. destruct turns; [done|simpl in Hlen; lia]. }
    destruct (addressLoop_spec b turns {| processedCount := 0; skippedCount := 0 |} st)
      as (He & Hh & Hp & Hcount).
    split_and!; [done..|]. intros _ _ Hnil. rewrite (Hcount Hnil). simpl. lia. }
  assert (evs = evs') as -> by (by apply events_since_app).
  destruct (consults_quiet evs' Hcons) as [Hhc Hmc].
  split_and!; [done..| |done|done].
  intros ev Hin. by apply (proj1 (Forall_forall _ _) Hcons).
Qed.

End solana.

(** *** eth/backfill.go *)

(** X20 — The block range of the Ethereum backfill.  For a chain head
    [currentBlock] (a uint64) the backfill is skipped only at head 12.  Above
    12 the range ends 12 blocks below the head; it starts 4000 blocks below
    the head once the head is above 4012 (3989 blocks, whatever time range
    is configured) and at block 0 otherwise.  Below 12 the subtraction
    wraps: the range asked for is 0 to 2^64 - 12 + head, past the head. *)
Theorem X20_backfill_block_range (currentBlock : Z) :
  0 ≤ currentBlock < 2 ^ 64 →
  match blockRange currentBlock with
  | None => currentBlock = 12
  | Some (fromBlock, toBlock) =>
      currentBlock ≠ 12 ∧ fromBlock < toBlock ∧
      (12 < currentBlock → toBlock = currentBlock - 12) ∧
      (4012 < currentBlock → fromBlock = currentBlock - 4000 ∧ toBlock - fromBlock = 3988) ∧
      (currentBlock ≤ 4012 → fromBlock = 0) ∧
      (currentBlock < 12 → toBlock = 2 ^ 64 - 12 + currentBlock ∧ currentBlock < toBlock)
  end.
Proof.
  intros Hcur. unfold blockRange, wrapU64, blocksPer12Hours, safetyMargin, confirmationBlocks.
  destruct (3600 + 400 + 12 <? currentBlock) eqn:Hbig.
  - apply Z.ltb_lt in Hbig.
    rewrite (Z.mod_small (currentBlock - 3600)), (Z.mod_small (currentBlock - 3600 - 400)),
      (Z.mod_small (currentBlock - 12)) by lia.
    destruct (currentBlock - 12 <=? currentBlock - 3600 - 400) eqn:E; [lia|].
    split_and!; lia.
  - apply Z.ltb_ge in Hbig.
    destruct (decide (12 ≤ currentBlock)) as [Hge|Hlt].
    + rewrite (Z.mod_small (currentBlock - 12)) by lia.
      destruct (currentBlock - 12 <=? 0) eqn:E; [lia|].
      apply Z.leb_gt in E. split_and!; lia.
    + assert ((currentBlock - 12) mod 2 ^ 64 = 2 ^ 64 - 12 + currentBlock) as ->.
      { symmetry. apply (Z.mod_unique_pos _ _ (-1)); lia. }
      destruct (2 ^ 64 - 12 + currentBlock <=? 0) eqn:E; [lia|].
      split_and!; lia.
Qed.

Lemma X20_backfill_block_range_witness :
  blockRange 5 = Some (0, 2 ^ 64 - 12 + 5) ∧ 5 < 2 ^ 64 - 12 + 5.
Proof.
  pose proof (X20_backfill_block_range 5) as Hr.
  assert (0 ≤ 5 < 2 ^ 64) as H5 by (split; [discriminate|reflexivity]).
  specialize (Hr H5).
  destruct (blockRange 5) as [[f t]|] eqn:E; [|discriminate Hr].
  destruct Hr as (_ & _ & _ & _ & Hf & Ht).
  rewrite (Hf ltac:(discriminate)).
  destruct (Ht eq_refl) as [-> Hlt]. split; [reflexivity|exact Hlt].
Defined.

Section ethereum.
Context {C : Type} `{!Cache C} {H : Type}.
Context {address : Type} `{!EqDecision address}.
Variable HexToAddress : string → address.
Variable Hex : address → string.
Implicit Types (p : Processor (H:=H) (address:=address))
  (transfer : AlchemyAssetTransfer) (st : State C H ProcessedActivity).

Local Abbreviation activityOf := (toActivity Hex).


End ethereum.

(** *** Concrete runs *)

Import samples.


Lemma X19_solana_backfill_delivers_nothing_witness :
  let st := world (Some (NewMemoryCache 10 true)) in
  let turns := [{| at_ctxErr := None; at_fetched := inr [fetched "sigA"; fetched "sigB"] |}] in
  let r := Backfill_run b58_decode (λ a _, a) solBackfill turns st in
  handler_calls (events_since st r.1.1) = [] ∧ processedCount r.1.2 = 2.
Proof.
  intros st turns r.
  destruct (X19_solana_backfill_delivers_nothing b58_decode (λ a _, a) solBackfill turns st)
    as (Hh & _).
  split; [exact Hh|vm_compute; reflexivity].
Defined.

End backfill_props.

(** ** The conversion of amounts *)

Module amount_props.
Import gostr gofloat eth.

Lemma div_pow2 (M a b : Z) : 0 ≤ b ≤ a → M * 2 ^ a / 2 ^ b = M * 2 ^ (a - b).
Proof.
  intros Hab. replace (2 ^ a) with (2 ^ (a - b) * 2 ^ b).
  - rewrite Z.mul_assoc, Z.div_mul; [done|]. apply Z.pow_nonzero; lia.
  - rewrite <- Z.pow_add_r by lia. f_equal. lia.
Qed.

Lemma trunc_int_pow2 (M a e : Z) :
  0 ≤ a → 0 ≤ a + e → trunc_int (M * 2 ^ a) e = M * 2 ^ (a + e).
Proof.
  intros Ha Hae. unfold trunc_int. destruct (0 <=? e) eqn:He.
  - apply Z.leb_le in He. rewrite Z.shiftl_mul_pow2 by done.
    by rewrite <- Z.mul_assoc, <- Z.pow_add_r.
  - apply Z.leb_gt in He. rewrite Z.shiftr_div_pow2 by lia.
    rewrite div_pow2 by lia. f_equal. f_equal. lia.
Qed.

(** A product M * 2^a with M below 2^prec and a + e >= 0 is held exactly
    by the rounding to [prec] bits, and is an integer. *)
Lemma round_then_trunc_exact (prec M a e : Z) :
  0 < prec → 0 < M < 2 ^ prec → 0 ≤ a → 0 ≤ a + e →
  let '(q, e') := round_to_prec prec (M * 2 ^ a) e in
  trunc_int q e' = M * 2 ^ (a + e).
Proof.
  intros Hprec HM Ha Hae. unfold round_to_prec.
  assert (0 < M * 2 ^ a) as Hpos by (apply Z.mul_pos_pos; [lia|by apply Z.pow_pos_nonneg]).
  assert (BitLen (M * 2 ^ a) = Z.log2 M + a + 1) as Hbl.
  { unfold BitLen. destruct (M * 2 ^ a <=? 0) eqn:E; [lia|].
    rewrite Z.log2_mul_pow2 by lia. lia. }
  assert (Z.log2 M < prec) as Hlog by (apply Z.log2_lt_pow2; lia).
  rewrite Hbl.
  destruct (Z.log2 M + a + 1 <=? prec) eqn:Hfit; [by apply trunc_int_pow2|].
  apply Z.leb_gt in Hfit.
  set (k := Z.log2 M + a + 1 - prec).
  assert (0 < k ≤ a) as Hk by (unfold k; lia).
  rewrite Z.shiftr_div_pow2, div_pow2 by lia.
  rewrite !Z.shiftl_mul_pow2 by lia.
  replace (M * 2 ^ a - M * 2 ^ (a - k) * 2 ^ k) with 0.
  2:{ rewrite <- Z.mul_assoc, <- Z.pow_add_r by lia. replace (a - k + k) with a by lia. lia. }
  assert (0 < 2 ^ (k - 1)) as Hhalf by (apply Z.pow_pos_nonneg; lia).
  rewrite Z.mul_1_l.
  destruct (2 ^ (k - 1) <? 0) eqn:E1; [lia|].
  destruct (0 =? 2 ^ (k - 1)) eqn:E2; [lia|]. simpl.
  rewrite trunc_int_pow2 by lia. f_equal. f_equal. lia.
Qed.

Lemma mul_to_int_exact (neg : bool) (m : positive) (e : Z) :
  Z.pos m * 5 ^ 18 < 2 ^ 53 → - 18 ≤ e →
  mul_to_int (F64Fin neg m e) e18 53
  = MulInt ((if neg then -1 else 1) * (Z.pos m * 5 ^ 18 * 2 ^ (18 + e))).
Proof.
  intros Hm He. unfold mul_to_int, e18. rewrite Z.max_id.
  replace (Z.pos m * 10 ^ 18) with (Z.pos m * 5 ^ 18 * 2 ^ 18) by lia.
  pose proof (round_then_trunc_exact 53 (Z.pos m * 5 ^ 18) 18 e) as Hexact.
  destruct (round_to_prec 53 (Z.pos m * 5 ^ 18 * 2 ^ 18) e) as [q e'].
  rewrite Hexact by lia. f_equal. destruct neg; lia.
Qed.

(** X22 — Exact wei for short mantissas.  For an external or internal
    transfer whose value is the double (-1)^neg * m * 2^e with
    m * 5^18 < 2^53 and e >= -18, the product with 1e18 in a 53-bit
    big.Float is exact: the amount the classification computes is
    value * 10^18, to the wei, in the currency ETH. *)
Theorem X22_wei_exact_for_short_mantissas {H address : Type} `{!EqDecision address}
    (HexToAddress : string → address) (p : Processor (H:=H) (address:=address))
    (a : AlchemyActivity) (neg : bool) (m : positive) (e : Z) :
  ToLower (Category a) = "external" ∨ ToLower (Category a) = "internal" →
  Value a = Some (F64Fin neg m e) →
  Z.pos m * 5 ^ 18 < 2 ^ 53 → - 18 ≤ e →
  classify HexToAddress p a
  = Classified ((if neg then -1 else 1) * (Z.pos m * 5 ^ 18 * 2 ^ (18 + e)))
      "ETH" (nativeNetwork p (ToLower (Category a))).
Proof.
  intros Hcat Hv Hm He. unfold classify. rewrite Hv.
  assert (bool_decide (ToLower (Category a) = "external")
          || bool_decide (ToLower (Category a) = "internal") = true) as ->.
  { destruct Hcat as [->| ->]; done. }
  by rewrite mul_to_int_exact.
Qed.

Lemma X22_wei_exact_for_short_mantissas_witness :
  classify id (samples.ethProcessor None)
    (samples.external "0x1f" (Some samples.one_and_a_half))
  = Classified 1500000000000000000 "ETH" "MAINNET".
Proof.
  rewrite (X22_wei_exact_for_short_mantissas id (samples.ethProcessor None)
             (samples.external "0x1f" (Some samples.one_and_a_half)) false 3 (-1)).
  - reflexivity.
  - left. reflexivity.
  - reflexivity.
  - reflexivity.
  - discriminate.
Defined.

(** The bound is needed: 3001 ether is not converted to the wei. *)
Example wei_rounded :
  mul_to_int (F64Fin false 3001 0) e18 53 ≠ MulInt (3001 * 10 ^ 18).
Proof. vm_compute. discriminate. Qed.

End amount_props.

(** ** The validators *)

Module validator_props.
Import gostr eth eth_props eth_more.

Lemma length_ToLower s : String.length (ToLower s) = String.length s.
Proof. induction s as [|c s IH]; simpl; [done|]. by rewrite IH. Qed.

Lemma all_chars_ToLower f s :
  all_chars f (ToLower s) = all_chars (λ c, f (lower_ascii c)) s.
Proof. induction s as [|c s IH]; simpl; [done|]. by rewrite IH. Qed.

Lemma lower_ascii_zero c : lower_ascii c = "0"%char → c = "0"%char.
Proof. destruct c as [[] [] [] [] [] [] [] []]; vm_compute; intros Hc; done. Qed.

Lemma lower_ascii_x c : lower_ascii c = "x"%char → c = "x"%char ∨ c = "X"%char.
Proof.
  destruct c as [[] [] [] [] [] [] [] []]; vm_compute; intros Hc;
    first [discriminate Hc|by left|by right].
Qed.

Lemma ToLower_prefixed s r :
  ToLower s = ("0x" ++ r)%string →
  ∃ h, ToLower h = r ∧ (s = ("0x" ++ h)%string ∨ s = ("0X" ++ h)%string).
Proof.
  destruct s as [|c0 [|c1 h]]; simpl; [done|done|].
  intros Heq. injection Heq as H0 H1 Hr.
  apply lower_ascii_zero in H0 as ->. exists h. split; [done|].
  apply lower_ascii_x in H1 as [-> | ->]; [by left|by right].
Qed.

(** A string of hexadecimal digits does not begin with "0x". *)
Lemma hex_no_prefix s :
  all_chars is_lower_hex s = true → HasPrefix s "0x" = false.
Proof.
  destruct s as [|c0 [|c1 r]]; simpl; [done|by rewrite andb_false_r|].
  intros Hall. apply andb_prop in Hall as [_ Hall]. apply andb_prop in Hall as [H1 _].
  destruct (bool_decide ("x"%char = c1)) eqn:E; [|by rewrite andb_false_r].
  apply bool_decide_eq_true_1 in E. subst. done.
Qed.

(** X23 — The addresses validateEthereumAddress accepts.  It returns nil
    exactly for 40 hexadecimal digits of either case, alone or after "0x" or
    "0X": the prefix is optional, and nothing else is accepted. *)
Theorem X23_accepted_addresses (addr : string) :
  validateEthereumAddress addr = None ↔
  ∃ h, String.length h = 40%nat ∧
       all_chars (λ c, is_lower_hex (lower_ascii c)) h = true ∧
       (addr = h ∨ addr = ("0x" ++ h)%string ∨ addr = ("0X" ++ h)%string).
Proof.
  unfold validateEthereumAddress. split.
  - case_bool_decide as Hne; [done|].
    destruct (len (TrimPrefix (ToLower addr) "0x") =? 40) eqn:Hlen; simpl; [|done].
    destruct (first_bad is_lower_hex (TrimPrefix (ToLower addr) "0x")) eqn:Hbad; [done|].
    intros _. apply first_bad_all in Hbad. apply Z.eqb_eq in Hlen. unfold len in Hlen.
    destruct (HasPrefix (ToLower addr) "0x") eqn:Hp.
    + apply HasPrefix_0x in Hp as [r Hr].
      rewrite Hr, TrimPrefix_0x in Hlen, Hbad.
      apply ToLower_prefixed in Hr as (h & <- & Haddr).
      rewrite length_ToLower in Hlen. rewrite all_chars_ToLower in Hbad.
      exists h. split_and!; [lia|done|tauto].
    + rewrite TrimPrefix_no_0x in Hlen, Hbad by done.
      rewrite length_ToLower in Hlen. rewrite all_chars_ToLower in Hbad.
      exists addr. split_and!; [lia|done|by left].
  - intros (h & Hlen & Hall & Haddr).
    assert (TrimPrefix (ToLower addr) "0x" = ToLower h ∧ addr ≠ "") as [-> Hne].
    { destruct Haddr as [->|[->| ->]].
      - split; [|by destruct h].
        apply TrimPrefix_no_0x, hex_no_prefix. by rewrite all_chars_ToLower.
      - split; [|done]. by rewrite ToLower_0x, TrimPrefix_0x.
      - split; [|done]. exact (TrimPrefix_0x (ToLower h)). }
    rewrite bool_decide_eq_false_2 by done.
    unfold len. rewrite length_ToLower, Hlen. simpl.
    rewrite <- all_chars_ToLower in Hall. apply first_bad_all in Hall. by rewrite Hall.
Qed.

End validator_props.

(** ** Configuration, pagination and the life cycle of a client *)

Module config_props.
Import gofloat cache config.



End config_props.

Module pagination_props.
Import gostr eth_backfill.

Section pagination.
Variable CallContext : nat → option string → error + PageResponse.
Variable ctxDone : nat → option error.

Local Abbreviation pages := (paginate CallContext ctxDone).

Lemma paginate_bounds remaining i result all key :
  (i ≤ rpcCalls (pages remaining i result all key) ≤ i + remaining)%nat ∧
  ∃ rest, allTransfers (pages remaining i result all key) = all ++ rest.
Proof.
  revert i result all key.
  induction remaining as [|remaining IH]; intros i result all key; simpl.
  { split; [lia|]. exists []. by rewrite app_nil_r. }
  destruct (ctxDone i); simpl.
  { split; [lia|]. exists []. by rewrite app_nil_r. }
  destruct (maxTotalTransfers <=? Z.of_nat (length all)); simpl.
  { split; [lia|]. exists []. by rewrite app_nil_r. }
  destruct (CallContext i _) as [err|resp]; simpl.
  { split; [lia|]. exists []. by rewrite app_nil_r. }
  case_bool_decide; simpl; [split; [lia|eauto]|].
  destruct (Z.of_nat (length _) =? 0); simpl; [split; [lia|eauto]|].
  destruct (IH (S i) (decodeInto result resp)
              (all ++ Transfers (decodeInto result resp))
              (PageKey (decodeInto result resp))) as [Hc [rest Hrest]].
  simpl in Hc, Hrest.
  split; [lia|]. exists (default (Transfers result) (resp_transfers resp) ++ rest).
  by rewrite Hrest, <- app_assoc.
Qed.

Lemma paginate_continue remaining i result all key resp :
  ctxDone i = None → Z.of_nat (length all) < maxTotalTransfers →
  CallContext i (if bool_decide (key = "") then None else Some key) = inr resp →
  PageKey (decodeInto result resp) ≠ "" → Transfers (decodeInto result resp) ≠ [] →
  pages (S remaining) i result all key
  = pages remaining (S i) (decodeInto result resp)
      (all ++ Transfers (decodeInto result resp)) (PageKey (decodeInto result resp)).
Proof.
  intros Hctx Hlen Hcall Hkey Hpage. simpl. rewrite Hctx.
  destruct (maxTotalTransfers <=? Z.of_nat (length all)) eqn:E; [lia|].
  rewrite Hcall. simpl in Hkey, Hpage. rewrite bool_decide_eq_false_2 by done.
  destruct (default (Transfers result) (resp_transfers resp)); [done|done].
Qed.


End pagination.


End pagination_props.

Module lifecycle_props.
Import cache lifecycle.

(** X26 — Stop closes the in-process cache for good.  A started client
    whose cache is open stops without error; the closed cache then reports
    every key as not processed and panics on every MarkProcessed; the client
    can be started again and reports healthy, but the next Stop panics (the
    stop channel is closed a second time) and leaves the client started. *)
Theorem X26_stop_closes_the_cache_for_good (c : BaseClient) (m : MemoryCache) :
  started c = true → cache_ c = Open m →
  let c1 := (Stop c).1 in
  let c2 := (Start c1).1 in
  (Stop c).2 = Return None ∧ started c1 = false ∧ Health c1 ≠ None ∧
  (∀ rt k, (Closable_IsProcessed rt (cache_ c1) k).2 = (false, None)) ∧
  (∀ rt k ttl, (Closable_MarkProcessed rt (cache_ c1) k ttl).2 = Panic) ∧
  (Start c1).2 = Return None ∧ Health c2 = None ∧
  Stop c2 = (c2, Panic) ∧
  (∀ rt k ttl, (Closable_MarkProcessed rt (cache_ c2) k ttl).2 = Panic).
Proof.
  intros Hs Hc c1 c2. unfold c2, c1, Stop, Start, Health.
  rewrite Hs, Hc. simpl. by split_and!.
Qed.

Lemma X26_stop_closes_the_cache_for_good_witness :
  let c := {| started := true; cache_ := Open (NewMemoryCache 10 true) |} in
  Stop (Start (Stop c).1).1 = ((Start (Stop c).1).1, Panic).
Proof.
  intros c.
  destruct (X26_stop_closes_the_cache_for_good c (NewMemoryCache 10 true))
    as (_ & _ & _ & _ & _ & _ & _ & Hstop & _).
  - reflexivity.
  - reflexivity.
  - exact Hstop.
Defined.

End lifecycle_props.

(** ** At most once, for Solana *)

Module solana_dedup.
Import gostr cache solana cache_props pipeline_props solana_props.

Section memory.
Context {H : Type}.
Variable base58_Decode : string → option (list Z).
Context {float64 : Type}.
Variable quot_pow10 : Z → Z → float64.
Implicit Types (p : Processor (H:=H) (float64:=float64))
  (tx : AlchemySolanaTransaction) (c : MemoryCache).

Local Abbreviation Process := (ProcessTransaction (C:=MemoryCache) base58_Decode quot_pow10).

(** After a run on the in-process cache that called a handler which
    returns nil, a run under the same key within the 24 hours is a hit. *)
Lemma second_run_is_a_hit {P' : Type} pre id (built1 built2 : outcome + P') h1 h2
    rtC1 rtM1 rtC2 rtM2 (st : State MemoryCache H P') c f r1 evs1 r2 evs2 :
  st_cache st = Some c → h1 = Some f → (∀ s x, (f s x).2 = None) →
  now rtC2 ≤ now rtM1 + 24 * Hour →
  run_shape pre id built1 h1 rtC1 rtM1 st r1 evs1 →
  run_shape pre id built2 h2 rtC2 rtM2 r1.1 r2 evs2 →
  handler_calls evs1 ≠ [] →
  r2.2 = Return None ∧ evs2 = [EvIsProcessed id (true, None)] ∧ handler_calls evs2 = [].
Proof.
  intros Hc Hh Hok Httl Hs1 Hs2 Hcalled.
  destruct (shape_called _ _ _ _ _ _ _ _ _ Hs1 Hcalled)
    as (Hpre & Hmiss & x & f' & Hb & Hf' & _).
  pose proof (shape_cache _ _ _ _ _ _ _ _ _ Hs1 Hpre) as Hc1.
  rewrite Hmiss, Hb, Hh, Hc in Hc1. simpl in Hc1. rewrite Hok in Hc1.
  set (c1 := (MemoryCache_MarkProcessed rtM1 (MemoryCache_IsProcessed rtC1 c id).1
                id (24 * Hour)).1) in *.
  assert ((MemoryCache_IsProcessed rtC2 c1 id).2 = (true, None)) as Hlive.
  { by apply MarkProcessed_live. }
  assert ((cache_check rtC2 id r1.1).2 = true) as Hhit.
  { apply cache_check_processed. by exists c1. }
  destruct (shape_hit _ _ _ _ _ _ _ _ _ Hs2 Hpre Hhit) as (Hr2 & Hev & Hc2 & _).
  split_and!; [by rewrite Hr2| |done].
  rewrite Hev. unfold check_events. rewrite Hc1.
  exact (f_equal (λ res, [EvIsProcessed id res]) Hlive).
Qed.

(** X28 — At most once per 24 hours, for Solana.  When the same
    transaction is run twice through ProcessTransaction on an in-process
    cache, with a handler that returns nil and the second consult within 24
    hours of the first mark, the handler is called at most once over the two
    runs; and if the first run called it, the second finds the mark, returns
    nil and makes no call but the consult. *)
Theorem X28_solana_at_most_once p rtC1 rtS1 rtM1 rtC2 rtS2 rtM2 tx slot c hs f :
  handler p = Some f → (∀ s x, (f s x).2 = None) →
  now rtC2 ≤ now rtM1 + 24 * Hour →
  let st := {| st_cache := Some c; st_handler := hs; st_trace := [] |} in
  let r1 := Process p rtC1 rtS1 rtM1 tx slot st in
  let r2 := Process p rtC2 rtS2 rtM2 tx slot r1.1 in
  (length (handler_calls (st_trace r2.1)) ≤ 1)%nat ∧
  (handler_calls (st_trace r1.1) ≠ [] →
   r2.2 = Return None ∧
   events_since r1.1 r2.1 = [EvIsProcessed (Signature tx) (true, None)] ∧
   handler_calls (st_trace r2.1) = handler_calls (st_trace r1.1)).
Proof.
  intros Hh Hok Httl st r1 r2.
  pose proof (ProcessTransaction_shape base58_Decode quot_pow10 p rtC1 rtS1 rtM1 tx slot st)
    as Hs1.
  pose proof (ProcessTransaction_shape base58_Decode quot_pow10 p rtC2 rtS2 rtM2 tx slot r1.1)
    as Hs2.
  fold r1 in Hs1. fold r2 in Hs2.
  pose proof (shape_trace _ _ _ _ _ _ _ _ _ Hs1) as Htr1.
  pose proof (shape_trace _ _ _ _ _ _ _ _ _ Hs2) as Htr2.
  simpl in Htr1.
  pose proof (second_run_is_a_hit _ _ _ _ _ _ _ _ _ _ st c f _ _ _ _
                eq_refl Hh Hok Httl Hs1 Hs2) as Hsecond.
  split.
  - rewrite Htr2, Htr1, handler_calls_app.
    destruct (shape_calls_le1 _ _ _ _ _ _ _ _ _ Hs1) as [Hnil|(x & _ & Hone)].
    + rewrite Hnil. simpl.
      destruct (shape_calls_le1 _ _ _ _ _ _ _ _ _ Hs2) as [->|(x & _ & ->)]; simpl; lia.
    + destruct Hsecond as (_ & _ & ->); [by rewrite Hone|]. rewrite Hone. simpl. lia.
  - intros Hcalled. rewrite Htr1 in Hcalled.
    destruct (Hsecond Hcalled) as (Hr2 & Hev & Hnone).
    split_and!; [done|done|].
    by rewrite Htr2, handler_calls_app, Hnone, app_nil_r.
Qed.

End memory.

Import samples.

Lemma X28_solana_at_most_once_witness :
  let st := world (Some (NewMemoryCache 10 false)) in
  let p := solProcessor (Some countingHandler) in
  let r1 := ProcessTransaction (λ _, None) (λ a _, a) p (rt_at 1) (rt_at 1) (rt_at 2)
              (solTx [10; 0] [7; 5]) 42 st in
  let r2 := ProcessTransaction (λ _, None) (λ a _, a) p (rt_at 3) (rt_at 3) (rt_at 4)
              (solTx [10; 0] [7; 5]) 42 r1.1 in
  (length (handler_calls (st_trace r2.1)) ≤ 1)%nat ∧
  length (handler_calls (st_trace r1.1)) = 1%nat.
Proof.
  intros st p r1 r2.
  destruct (X28_solana_at_most_once (λ _, None) (λ a _, a) p
              (rt_at 1) (rt_at 1) (rt_at 2) (rt_at 3) (rt_at 3) (rt_at 4)
              (solTx [10; 0] [7; 5]) 42 (NewMemoryCache 10 false) 0%nat countingHandler)
    as [Hle _].
  - reflexivity.
  - intros s x. reflexivity.
  - vm_compute. discriminate.
  - split; [exact Hle|vm_compute; reflexivity].
Defined.

End solana_dedup.
